(** * jmcomic-crawler: task orchestration and artifact cache

    A shallow embedding of the download server of the repository
    ([src/app/models.py], [src/app/storage.py], [src/app/tasks.py],
    [src/app/downloader.py], [src/app/main.py]) together with the parts of
    the earlier single-file server ([src/src/main.py]) that the packaging
    properties refer to.

    Conventions.
    - Python [str] values are Rocq strings, read as their UTF-8 bytes.
    - Python [float] progress values and timestamps are rationals [Q]; the
      code only compares and clamps them, and every constant it reports is
      far from a rounding boundary.
    - Python dicts keyed by strings are [gmap string _].
    - [hashlib.sha256], [uuid.uuid4], [time.time] and the jmcomic fetch
      client are collaborators: parameters of the model. *)

From Stdlib Require Import Ascii QArith Qminmax.
From stdpp Require Import gmap strings list sorting pretty.

Local Open Scope string_scope.
Local Open Scope list_scope.

(** ** Python built-ins used by the sources *)

(** [x or ""] for an [Optional[str]]: [None] and the empty string are both
    falsy. *)
Definition or_empty (x : option string) : string :=
  match x with
  | Some s => if decide (s = "") then "" else s
  | None => ""
  end.

(** Truthiness of an [Optional[str]]. *)
Definition truthy (x : option string) : bool :=
  match x with
  | Some s => if decide (s = "") then false else true
  | None => false
  end.

(** [a or b] where [a] is an [Optional[str]] and [b] a string. *)
Definition str_or (a : option string) (b : string) : string :=
  match a with
  | Some s => if decide (s = "") then b else s
  | None => b
  end.

(** Hexadecimal digits, as [format(n, "x")] prints them. *)
Definition hex_digit (d : N) : ascii :=
  match d with
  | 0 => "0" | 1 => "1" | 2 => "2" | 3 => "3" | 4 => "4" | 5 => "5"
  | 6 => "6" | 7 => "7" | 8 => "8" | 9 => "9" | 10 => "a" | 11 => "b"
  | 12 => "c" | 13 => "d" | 14 => "e" | _ => "f"
  end%N%char.

(** [hex_fixed w n acc]: the [w] low hexadecimal digits of [n], most
    significant first, in front of [acc]. *)
Fixpoint hex_fixed (w : nat) (n : N) (acc : string) : string :=
  match w with
  | O => acc
  | S w' => hex_fixed w' (n / 16)%N (String (hex_digit (n mod 16)%N) acc)
  end.

(** [uuid.UUID.hex]: ['%032x' % self.int]. *)
Definition uuid_hex (i : N) : string := hex_fixed 32 i "".

(** [f"{index:05d}"] for a non-negative index: zero-padded to width five,
    longer when the number needs it. *)
Definition pad5 (n : nat) : string :=
  let s := pretty n in
  String.concat "" (replicate (5 - String.length s) "0") +:+ s.

(** [Path(p).name]: the part after the last slash. *)
Fixpoint basename_go (s : string) (cur : string) : string :=
  match s with
  | EmptyString => cur
  | String c s' =>
      if decide (c = "/"%char) then basename_go s' ""
      else basename_go s' (cur +:+ String c "")
  end.
Definition basename (p : string) : string := basename_go p "".

(** [min(a, b)] and [max(a, b)] of Python on floats: the first argument is
    kept unless the second is strictly smaller (resp. larger). *)
Definition py_min (a b : Q) : Q := if Qlt_le_dec b a then b else a.
Definition py_max (a b : Q) : Q := if Qlt_le_dec a b then b else a.

(** Lexicographic order on strings by code unit, the order of Python's
    [sorted] on [str]. *)
Definition str_le (a b : string) : Prop := String.leb a b = true.

Global Instance str_le_dec a b : Decision (str_le a b).
Proof. unfold str_le. apply _. Defined.

(** [sorted(l)] on a list of strings. *)
Definition sorted (l : list string) : list string := merge_sort str_le l.

(** ** models.py *)

Inductive OutputFormat := zip | pdf.

Definition OutputFormat_value (f : OutputFormat) : string :=
  match f with zip => "zip" | pdf => "pdf" end.

Global Instance OutputFormat_eq_dec : EqDecision OutputFormat.
Proof. solve_decision. Defined.

(** An element of [List[Union[int, str]]]. *)
Inductive AlbumId :=
  | IdInt (z : Z)
  | IdStr (s : string).

(** [str(a)]. *)
Definition str (a : AlbumId) : string :=
  match a with
  | IdInt z => pretty z
  | IdStr s => s
  end.

Record TaskRequest := {
  album_ids : list AlbumId;
  output_format : OutputFormat;
  quality : option Z;
  encrypt : bool;
  password : option string;
  compression : option Z;
  cache : bool;
  proxy : option string;
  option_file : option string;
}.

Inductive TaskStatusEnum := queued | running | completed | failed | canceled.

Global Instance TaskStatusEnum_eq_dec : EqDecision TaskStatusEnum.
Proof. solve_decision. Defined.

Record SubmitResponse := {
  resp_task_id : string;
  resp_status : TaskStatusEnum;
  resp_duplicate : bool;
}.

(** *** The request body before validation

    A JSON field is either left out or given; a nullable field that is given
    is [null] or a value. *)

Inductive Field (A : Type) :=
  | Omitted
  | Given (a : A).
Arguments Omitted {A}.
Arguments Given {A} a.

(** What a client can send for [album_ids]: [null], one scalar, or a list. *)
Inductive RawIds :=
  | RawNull
  | RawScalar (a : AlbumId)
  | RawList (l : list AlbumId).

Record RawRequest := {
  raw_album_ids : Field RawIds;
  raw_output_format : Field OutputFormat;
  raw_quality : Field (option Z);
  raw_encrypt : Field bool;
  raw_password : Field (option string);
  raw_compression : Field (option Z);
  raw_cache : Field bool;
  raw_proxy : Field (option string);
  raw_option_file : Field (option string);
}.

(** [Field(default=d)]: an omitted field takes the declared default. *)
Definition with_default {A} (d : A) (f : Field A) : A :=
  match f with Omitted => d | Given a => a end.

(** [TaskRequest._coerce_ids] (mode "before"). *)
Definition _coerce_ids (v : RawIds) : list AlbumId :=
  match v with
  | RawScalar a => [a]
  | RawList l => l          (* list(v or []) *)
  | RawNull => []           (* list(None or []) *)
  end.

(** [Field(ge=lo, le=hi)] on an [Optional[int]]: [None] passes. *)
Definition in_bounds (lo hi : Z) (v : option Z) : bool :=
  match v with
  | None => true
  | Some z => bool_decide (lo ≤ z ≤ hi)%Z
  end.

(** Construction of a [TaskRequest] from a request body: the declared
    defaults, the [album_ids] validator, the [ge]/[le] bounds.  [None] is
    pydantic's [ValidationError]. *)
Definition TaskRequest_validate (r : RawRequest) : option TaskRequest :=
  match raw_album_ids r with
  | Omitted => None                         (* Field(...): required *)
  | Given v =>
      let q := with_default None (raw_quality r) in
      let c := with_default (Some 6%Z) (raw_compression r) in
      if in_bounds 1 100 q && in_bounds 0 9 c then
        Some {| album_ids := _coerce_ids v;
                output_format := with_default zip (raw_output_format r);
                quality := q;
                encrypt := with_default false (raw_encrypt r);
                password := with_default None (raw_password r);
                compression := c;
                cache := with_default true (raw_cache r);
                proxy := with_default None (raw_proxy r);
                option_file := with_default None (raw_option_file r) |}
      else None
  end.

(** ** storage.py *)

Record CacheEntry := {
  ce_key : string;
  ce_path : string;
  ce_created_at : Q;
  ce_size : Z;
}.

(** *** json.dumps(safe, sort_keys=True, ensure_ascii=False)

    The cache payload is a flat dict of strings, integers, booleans, [None]
    and one list of strings; its serialisation is written out here. *)

Definition dq : string := String (ascii_of_nat 34) "".
Definition backslash : string := String (ascii_of_nat 92) "".

(** [json.encoder.py_encode_basestring]: quote, backslash and the control
    characters are escaped, everything else is copied. *)
Definition json_escape_char (c : ascii) : string :=
  let n := nat_of_ascii c in
  if decide (n = 34) then backslash +:+ dq
  else if decide (n = 92) then backslash +:+ backslash
  else if decide (n = 8) then backslash +:+ "b"
  else if decide (n = 12) then backslash +:+ "f"
  else if decide (n = 10) then backslash +:+ "n"
  else if decide (n = 13) then backslash +:+ "r"
  else if decide (n = 9) then backslash +:+ "t"
  else if decide (n < 32)%nat then backslash +:+ "u" +:+ hex_fixed 4 (N.of_nat n) ""
  else String c "".

Fixpoint json_escape (s : string) : string :=
  match s with
  | EmptyString => ""
  | String c s' => json_escape_char c +:+ json_escape s'
  end.

Definition json_str (s : string) : string := dq +:+ json_escape s +:+ dq.

Definition json_int_or_null (v : option Z) : string :=
  match v with Some z => pretty z | None => "null" end.

Definition json_bool (b : bool) : string := if b then "true" else "false".

Definition json_list (l : list string) : string :=
  "[" +:+ String.concat ", " (json_str <$> l) +:+ "]".

Definition json_member (k v : string) : string := json_str k +:+ ": " +:+ v.

(** The dict built at the head of [TaskManager.submit]. *)
Record CachePayload := {
  cp_album_ids : list string;
  cp_output_format : string;
  cp_quality : option Z;
  cp_encrypt : bool;
  cp_password : string;
  cp_compression : option Z;
  cp_proxy : string;
  cp_option_file : string;
}.

(** [str.lstrip('.')]. *)
Fixpoint lstrip_dot (s : string) : string :=
  match s with
  | String c s' => if decide (c = "."%char) then lstrip_dot s' else s
  | EmptyString => ""
  end.

(** One directory entry of the artifact cache directory.  [cf_stat] is
    [(st_mtime, st_size)], or [None] when the file disappears between the
    directory scan and [stat] ([FileNotFoundError]). *)
Record CacheFile := {
  cf_name : string;
  cf_stat : option (Q * Z);
}.

(** The relevant settings of [config.py]: [cache_dir] and [work_dir] are
    [data_dir / cache_dir_name] and [data_dir / work_dir_name]. *)
Record ServerSettings := {
  cache_dir : string;
  work_dir : string;
  default_proxy : option string;
}.

Definition path_join (d n : string) : string := d +:+ "/" +:+ n.

Section Storage.
(** [hashlib.sha256(b).hexdigest()]. *)
Variable sha256_hexdigest : string → string.
Variable cfg : ServerSettings.

(** [Storage.cache_key]: the plaintext password is popped and replaced
    by its digest, the rest is dumped with sorted keys and hashed. *)
Definition cache_key (payload : CachePayload) : string :=
  let password_hash := sha256_hexdigest (cp_password payload) in
  let blob :=
    "{" +:+ String.concat ", "
      [ json_member "album_ids" (json_list (cp_album_ids payload));
        json_member "compression" (json_int_or_null (cp_compression payload));
        json_member "encrypt" (json_bool (cp_encrypt payload));
        json_member "option_file" (json_str (cp_option_file payload));
        json_member "output_format" (json_str (cp_output_format payload));
        json_member "password_hash" (json_str password_hash);
        json_member "proxy" (json_str (cp_proxy payload));
        json_member "quality" (json_int_or_null (cp_quality payload)) ]
    +:+ "}" in
  sha256_hexdigest blob.

(** The loop of [Storage.cached_artifact] over the glob of the key
    followed by a dot and anything: the first matching entry whose
    [stat] succeeds.  A digest holds no
    glob metacharacter, so the pattern matches exactly the names that
    start with the key and a dot. *)
Fixpoint glob_first (key : string) (files : list CacheFile)
  : option CacheEntry :=
  match files with
  | [] => None
  | f :: rest =>
      if String.prefix (key +:+ ".") (cf_name f) then
        match cf_stat f with
        | Some (mtime, size) =>
            Some {| ce_key := key;
                    ce_path := path_join (cache_dir cfg) (cf_name f);
                    ce_created_at := mtime;
                    ce_size := size |}
        | None => glob_first key rest
        end
      else glob_first key rest
  end.

(** [Storage.cached_artifact]; the argument is the listing of the cache
    directory, [None] when the directory does not exist. *)
Definition cached_artifact (dir : option (list CacheFile)) (key : string)
  : option CacheEntry :=
  match dir with
  | None => None
  | Some files => glob_first key files
  end.

(** Writing one file into a directory listing: an existing name is
    overwritten in place, a new name is added. *)
Fixpoint write_file (name : string) (st : Q * Z) (files : list CacheFile)
  : list CacheFile :=
  match files with
  | [] => [ {| cf_name := name; cf_stat := Some st |} ]
  | f :: rest =>
      if decide (cf_name f = name)
      then {| cf_name := name; cf_stat := Some st |} :: rest
      else f :: write_file name st rest
  end.

(** [Storage.put_artifact]: the directory is created when missing and
    the source is copied to [cache_dir / key.suffix]; returns the new
    listing and the destination path. *)
Definition put_artifact (dir : option (list CacheFile)) (key suffix : string)
    (mtime : Q) (size : Z) : list CacheFile * string :=
  let name := key +:+ "." +:+ lstrip_dot suffix in
  (write_file name (mtime, size) (default [] dir),
   path_join (cache_dir cfg) name).
End Storage.

(** ** downloader.py *)

Inductive result (A : Type) :=
  | Ok (a : A)
  | Raise (msg : string).
Arguments Ok {A} a.
Arguments Raise {A} msg.

Record DownloadParams := {
  dp_album_ids : list AlbumId;
  dp_output_format : string;      (* 'zip' | 'pdf' *)
  dp_quality : option Z;
  dp_encrypt : bool;
  dp_password : option string;
  dp_compression : Z;
  dp_proxy : option string;
  dp_option_file : option string;
}.

(** The dict that [CustomJmDownloader.before_album] hands to the callback. *)
Record AlbumMeta := {
  meta_album_id : option string;
  meta_title : option string;
  meta_authors : option (list string);
  meta_tags : option (list string);
  meta_chapter_count : option nat;
}.

Inductive ImageStage := before | after.

Definition ImageStage_str (s : ImageStage) : string :=
  match s with before => "before" | after => "after" end.

(** The [info] dict of [before_image] / [after_image]. *)
Record ImageInfo := {
  info_album_id : option AlbumId;
  info_image_id : option string;
  info_page : option Z;
  info_url : option string;
  info_path : string;
  info_filename : option string;
}.

Inductive FetchEvent :=
  | EvAlbumMeta (meta : AlbumMeta)
  | EvImage (stage : ImageStage) (info : ImageInfo).

(** One call of the fetch collaborator for one album: the events that
    [jd.download_album] delivers, whether it then raises, and, when it
    does, the error of the library-level fallback ([None]: the fallback
    returns).  The fallback builds a plain downloader: no callbacks. *)
Record FetchRun := {
  fr_events : list FetchEvent;
  fr_raises : bool;
  fr_fallback_error : option string;
}.

(** What [images_by_album] stores per image. *)
Record ImageItem := {
  it_path : string;
  it_page : option Z;
  it_filename : option string;
}.

Record DownloadResult := {
  res_album_ids : list string;
  res_artifact_path : string;
  res_suffix : string;
  res_metadata : list AlbumMeta;      (* {"albums": [...]} *)
}.

Inductive ZipMethod := ZIP_DEFLATED | ZIP_LZMA.

(** What packaging leaves on disk: an archive with its entry names, or a
    document with its pages; [Some pw] when it is encrypted under [pw]. *)
Inductive Artifact :=
  | ZipFile (method : ZipMethod) (aes_password : option string)
            (entries : list string)
  | PdfFile (user_password : option string) (pages : list string).

Definition artifact_password (a : Artifact) : option string :=
  match a with
  | ZipFile _ pw _ => pw
  | PdfFile pw _ => pw
  end.

Definition artifact_members (a : Artifact) : list string :=
  match a with
  | ZipFile _ _ es => es
  | PdfFile _ ps => ps
  end.

(** The surroundings of one [download_and_package] call. *)
Record DownloadEnv := {
  env_fetch : nat → string → FetchRun;     (* idx-th fetch, album id *)
  env_exists : string → bool;              (* the file is there to read *)
  env_dl_base_files : list string;         (* os.walk(dl_base) *)
  env_ts_name : string;                    (* time.strftime(...) *)
  env_img2pdf_error : list string → option string;  (* img2pdf.convert raises *)
}.

Definition ascii_lower (c : ascii) : ascii :=
  let n := nat_of_ascii c in
  if decide (65 ≤ n ≤ 90)%nat then ascii_of_nat (n + 32) else c.

Fixpoint str_lower (s : string) : string :=
  match s with
  | EmptyString => ""
  | String c s' => String (ascii_lower c) (str_lower s')
  end.

(** The tail of [s] from its last dot on. *)
Fixpoint last_dot_suffix (s : string) : option string :=
  match s with
  | EmptyString => None
  | String c s' =>
      match last_dot_suffix s' with
      | Some t => Some t
      | None => if decide (c = "."%char) then Some s else None
      end
  end.

(** [Path(p).suffix]: from the last dot of the name, unless that dot is
    the first or the last character. *)
Definition path_suffix (p : string) : string :=
  match basename p with
  | EmptyString => ""
  | String _ rest =>
      match last_dot_suffix rest with
      | Some t => if decide (t = ".") then "" else t
      | None => ""
      end
  end.

(** The components of a path, as [Path] compares them. *)
Fixpoint path_parts_go (s cur : string) : list string :=
  match s with
  | EmptyString => [cur]
  | String c s' =>
      if decide (c = "/"%char) then cur :: path_parts_go s' ""
      else path_parts_go s' (cur +:+ String c "")
  end.
Definition path_parts (p : string) : list string := path_parts_go p "".

(** Python's list comparison [a <= b] on lists of strings. *)
Fixpoint parts_leb (a b : list string) : bool :=
  match a, b with
  | [], _ => true
  | _ :: _, [] => false
  | x :: a', y :: b' =>
      match String.compare x y with
      | Lt => true
      | Gt => false
      | Eq => parts_leb a' b'
      end
  end.

Definition path_le (a b : string) : Prop :=
  parts_leb (path_parts a) (path_parts b) = true.

Global Instance path_le_dec a b : Decision (path_le a b).
Proof. unfold path_le. apply _. Defined.

(** [Downloader._collect_images]: the image files under the directory,
    sorted as [Path] objects. *)
Definition _collect_images (files : list string) : list string :=
  merge_sort path_le
    (filter (λ p, str_lower (path_suffix p)
                    ∈ [".jpg"; ".jpeg"; ".png"; ".webp"]) files).

(** The sort key of [items.sort] in [download_and_package]:
    [(page is None, page or 0, str(filename or path))]. *)
Definition item_key (x : ImageItem) : bool * Z * string :=
  (bool_decide (it_page x = None), default 0%Z (it_page x),
   str_or (it_filename x) (it_path x)).

(** Tuple comparison [ka <= kb]. *)
Definition key_leb (ka kb : bool * Z * string) : bool :=
  let '(a1, a2, a3) := ka in
  let '(b1, b2, b3) := kb in
  if negb (Bool.eqb a1 b1) then negb a1
  else if negb (a2 =? b2)%Z then (a2 <? b2)%Z
  else String.leb a3 b3.

Fixpoint insert_item (x : ImageItem) (l : list ImageItem) : list ImageItem :=
  match l with
  | [] => [x]
  | y :: l' =>
      if key_leb (item_key x) (item_key y) then x :: y :: l'
      else y :: insert_item x l'
  end.

(** [items.sort(key=...)]: a stable sort. *)
Definition sort_items (l : list ImageItem) : list ImageItem :=
  foldr insert_item [] l.

(** [Downloader._reencode_images]: one [idx:05d.jpg] per image in the
    staging directory; a source that can neither be re-encoded nor copied
    raises. *)
Definition _reencode_images (exists_ : string → bool) (images : list string)
    (staging : string) : result (list string) :=
  if forallb exists_ images then
    Ok (imap (λ i _, path_join staging (pad5 (S i) +:+ ".jpg")) images)
  else Raise "No such file or directory".

(** [Downloader._make_zip] on a tree holding the files [tree] (relative
    names): every file is written; the archive is AES-encrypted only when
    the password is a non-empty string. *)
Definition _make_zip (tree : list string) (password : option string)
    (compression : Z) : Artifact :=
  ZipFile (if bool_decide (7 ≤ compression)%Z then ZIP_LZMA else ZIP_DEFLATED)
          (if truthy password then password else None)
          tree.

(** [Downloader._make_pdf]: the images are read and converted; without a
    (non-empty) password the document is written as it is. *)
Definition _make_pdf (env : DownloadEnv) (images : list string)
    (password : option string) : result Artifact :=
  if forallb (env_exists env) images then
    match env_img2pdf_error env images with
    | Some e => Raise e
    | None => Ok (PdfFile (if truthy password then password else None) images)
    end
  else Raise "No such file or directory".

(** *** Downloader.download_and_package

    The local state of one call: the progress reports made so far (the
    calls of [progress_cb], oldest first), [all_meta], [images_by_album],
    the class-level lock table and the fetches started. *)
Record DlState := {
  dl_reports : list (Q * string);
  dl_albums : list AlbumMeta;
  dl_images : gmap string (list ImageItem);
  dl_locks : gmap string nat;
  dl_fetched : list string;
}.

Definition report (p : Q) (msg : string) (st : DlState) : DlState :=
  {| dl_reports := dl_reports st ++ [(p, msg)];
     dl_albums := dl_albums st;
     dl_images := dl_images st;
     dl_locks := dl_locks st;
     dl_fetched := dl_fetched st |}.

(** [str(x)] of an optional string inside an f-string. *)
Definition py_str_opt (x : option string) : string := default "None" x.

Definition on_album_meta (meta : AlbumMeta) (st : DlState) : DlState :=
  report (1 # 10) ("meta " +:+ py_str_opt (meta_album_id meta))
    {| dl_reports := dl_reports st;
       dl_albums := dl_albums st ++ [meta];
       dl_images := dl_images st;
       dl_locks := dl_locks st;
       dl_fetched := dl_fetched st |}.

(** [str(info.get("album_id") or "")]. *)
Definition info_aid (info : ImageInfo) : string :=
  match info_album_id info with
  | Some (IdInt z) => if decide (z = 0%Z) then "" else pretty z
  | Some (IdStr s) => s
  | None => ""
  end.

Definition on_image_event (stage : ImageStage) (info : ImageInfo)
    (st : DlState) : DlState :=
  let aid := info_aid info in
  if decide (aid = "") then st
  else
    let st1 :=
      match stage with
      | after =>
          {| dl_reports := dl_reports st;
             dl_albums := dl_albums st;
             dl_images :=
               <[aid := default [] (dl_images st !! aid)
                        ++ [ {| it_path := info_path info;
                                it_page := info_page info;
                                it_filename := info_filename info |} ]]>
                 (dl_images st);
             dl_locks := dl_locks st;
             dl_fetched := dl_fetched st |}
      | before => st
      end in
    match info_image_id info with
    | Some i => report (2 # 10)
                  ("image " +:+ ImageStage_str stage +:+ " " +:+ i) st1
    | None => st1
    end.

Definition on_event (e : FetchEvent) (st : DlState) : DlState :=
  match e with
  | EvAlbumMeta m => on_album_meta m st
  | EvImage stage info => on_image_event stage info st
  end.

(** [Downloader._get_album_lock] when no other thread interferes: the
    lock of the album, created on first use. *)
Definition _get_album_lock (aid : string) (locks : gmap string nat)
  : nat * gmap string nat :=
  match locks !! aid with
  | Some l => (l, locks)
  | None => (size locks, <[aid := size locks]> locks)
  end.

(** [0.05 + 0.4 * idx / max(1, len(album_ids))]. *)
Definition download_progress (idx n : nat) : Q :=
  (5 # 100) + (4 # 10) * inject_Z (Z.of_nat idx)
              / inject_Z (Z.max 1 (Z.of_nat n)).

(** One turn of the download loop.  The second component is the error
    that leaves the loop, if any. *)
Definition fetch_album (env : DownloadEnv) (n idx : nat) (aid : string)
    (st : DlState) : DlState * option string :=
  let st1 := report (download_progress idx n) ("download " +:+ aid) st in
  let st2 :=
    {| dl_reports := dl_reports st1;
       dl_albums := dl_albums st1;
       dl_images := dl_images st1;
       dl_locks := snd (_get_album_lock aid (dl_locks st1));
       dl_fetched := dl_fetched st1 ++ [aid] |} in
  let run := env_fetch env idx aid in
  let st3 := foldl (λ s e, on_event e s) st2 (fr_events run) in
  if fr_raises run then
    ({| dl_reports := dl_reports st3;
        dl_albums := dl_albums st3;
        dl_images := dl_images st3;
        dl_locks := dl_locks st3;
        dl_fetched := dl_fetched st3 ++ [aid] |},
     fr_fallback_error run)
  else (st3, None).

(** [for idx, aid in enumerate(album_ids, start=1)]. *)
Fixpoint fetch_loop (env : DownloadEnv) (n idx : nat) (aids : list string)
    (st : DlState) : DlState * option string :=
  match aids with
  | [] => (st, None)
  | aid :: rest =>
      match fetch_album env n idx aid st with
      | (st', Some e) => (st', Some e)
      | (st', None) => fetch_loop env n (S idx) rest st'
      end
  end.

(** The items of one album as the packaging steps see them: the list is
    sorted in place before the first use. *)
Definition items_of (images : gmap string (list ImageItem)) (aid : string)
  : list ImageItem :=
  sort_items (default [] (images !! aid)).

(** The hard-link staging of the archive branch: one entry per item
    whose source exists, numbered across albums. *)
Fixpoint stage_items (exists_ : string → bool) (aid : string)
    (items : list ImageItem) (index : nat) : list string * nat :=
  match items with
  | [] => ([], index)
  | it :: rest =>
      if exists_ (it_path it) then
        let name := basename (str_or (it_filename it) (basename (it_path it))) in
        let '(es, index') := stage_items exists_ aid rest (S index) in
        (("album_" +:+ aid +:+ "/" +:+ pad5 index +:+ "_" +:+ name) :: es,
         index')
      else stage_items exists_ aid rest index
  end.

Fixpoint stage_albums (exists_ : string → bool)
    (images : gmap string (list ImageItem)) (aids : list string)
    (index : nat) : list string :=
  match aids with
  | [] => []
  | aid :: rest =>
      let '(es, index') := stage_items exists_ aid (items_of images aid) index in
      es ++ stage_albums exists_ images rest index'
  end.

Record DownloadRun := {
  run_reports : list (Q * string);
  run_locks : gmap string nat;
  run_fetched : list string;
  run_outcome : result (DownloadResult * Artifact);
}.

Definition finish_run (st : DlState)
    (o : result (DownloadResult * Artifact)) : DownloadRun :=
  {| run_reports := dl_reports st;
     run_locks := dl_locks st;
     run_fetched := dl_fetched st;
     run_outcome := o |}.

(** The [# Package] part of [download_and_package]: the archive or the
    document is built from [images], or, for an archive without
    re-encoding ([src_root] is [None]), from the staged per-album items. *)
Definition package (env : DownloadEnv) (task_work : string)
    (params : DownloadParams) (album_ids : list string) (st : DlState)
    (images : list string) (src_root : option string) : DownloadRun :=
  let pw := if dp_encrypt params then dp_password params else None in
  let base_name :=
    "JM_" +:+ String.concat "_" album_ids +:+ "_" +:+ env_ts_name env in
  if decide (dp_output_format params = "zip") then
    let st := report (75 # 100) "zip" st in
    let tree :=
      match src_root with
      | Some _ => basename <$> images
      | None => stage_albums (env_exists env) (dl_images st) album_ids 1
      end in
    finish_run (report (95 # 100) "finalize" st)
      (Ok ({| res_album_ids := album_ids;
              res_artifact_path := path_join task_work (base_name +:+ ".zip");
              res_suffix := "zip";
              res_metadata := dl_albums st |},
           _make_zip tree pw (dp_compression params)))
  else
    let st := report (75 # 100) "pdf" st in
    match _make_pdf env images pw with
    | Raise e => finish_run st (Raise e)
    | Ok a =>
        finish_run (report (95 # 100) "finalize" st)
          (Ok ({| res_album_ids := album_ids;
                  res_artifact_path := path_join task_work (base_name +:+ ".pdf");
                  res_suffix := "pdf";
                  res_metadata := dl_albums st |}, a))
    end.

(** The images that go into the package: the paths collected by the
    callbacks, album by album, or the scan of the download directory when
    the callbacks collected nothing. *)
Definition select_images (env : DownloadEnv)
    (images : gmap string (list ImageItem)) (album_ids : list string)
  : list string :=
  match mjoin ((λ aid, it_path <$> items_of images aid) <$> album_ids) with
  | [] => _collect_images (env_dl_base_files env)
  | from_callbacks => from_callbacks
  end.

(** [Downloader.download_and_package], called with a progress callback
    as [TaskManager._run_task] does.  [task_work] is the work directory
    of the task, [locks] the lock table when the call starts. *)
Definition download_and_package (env : DownloadEnv) (task_work : string)
    (locks : gmap string nat) (params : DownloadParams) : DownloadRun :=
  let album_ids := str <$> dp_album_ids params in
  let st0 := {| dl_reports := []; dl_albums := []; dl_images := ∅;
                dl_locks := locks; dl_fetched := [] |} in
  match fetch_loop env (length album_ids) 1 album_ids st0 with
  | (st, Some e) => finish_run st (Raise e)
  | (st, None) =>
      let st := report (5 # 10) "collect images" st in
      let selected := select_images env (dl_images st) album_ids in
      match dp_quality params with
      | None => package env task_work params album_ids st selected None
      | Some q =>
          let st := report (55 # 100) ("re-encode quality=" +:+ pretty q) st in
          let staging := path_join task_work "_reencoded" in
          match _reencode_images (env_exists env) selected staging with
          | Raise e => finish_run st (Raise e)
          | Ok images =>
              package env task_work params album_ids st images (Some staging)
          end
      end
  end.

(** ** tasks.py *)

(** The per-task state dict held by [Storage._tasks].  The keys that the
    dict may lack are options. *)
Record TaskState := {
  ts_task_id : string;
  ts_status : TaskStatusEnum;
  ts_progress : Q;
  ts_created_at : Q;
  ts_updated_at : Q;
  ts_metadata : list AlbumMeta;
  ts_artifact_path : option string;
  ts_download_url : option string;
  ts_request : option TaskRequest;
  ts_cache_key : option string;
  ts_message : option string;
  ts_error : option string;
}.

(** Everything the task manager and its collaborators mutate. *)
Record World := {
  w_tasks : gmap string TaskState;           (* Storage._tasks *)
  w_cache : option (list CacheFile);         (* the cache directory *)
  w_dedup : gmap string string;              (* TaskManager._dedup *)
  w_scheduled : list (string * TaskRequest); (* asyncio.create_task calls *)
  w_uuid : nat;                              (* uuid4() draws so far *)
  w_clock : nat;                             (* clock readings so far *)
  w_album_locks : gmap string nat;           (* Downloader._album_locks *)
  w_fetched : list string;                   (* fetches started, in order *)
}.

Definition initial_world (tasks : gmap string TaskState)
    (dir : option (list CacheFile)) : World :=
  {| w_tasks := tasks; w_cache := dir; w_dedup := ∅; w_scheduled := [];
     w_uuid := 0; w_clock := 0; w_album_locks := ∅; w_fetched := [] |}.

(** State passing: a computation reads and writes the world. *)
Definition M (A : Type) : Type := World → A * World.

Global Instance M_ret : MRet M := λ A a w, (a, w).
Global Instance M_bind : MBind M := λ A B f m w,
  let '(a, w') := m w in f a w'.

Definition get_world : M World := λ w, (w, w).
Definition modify (f : World → World) : M unit := λ w, (tt, f w).

Definition with_tasks (f : gmap string TaskState → gmap string TaskState)
    (w : World) : World :=
  {| w_tasks := f (w_tasks w); w_cache := w_cache w; w_dedup := w_dedup w;
     w_scheduled := w_scheduled w; w_uuid := w_uuid w; w_clock := w_clock w;
     w_album_locks := w_album_locks w; w_fetched := w_fetched w |}.

Definition with_cache (dir : list CacheFile) (w : World) : World :=
  {| w_tasks := w_tasks w; w_cache := Some dir; w_dedup := w_dedup w;
     w_scheduled := w_scheduled w; w_uuid := w_uuid w; w_clock := w_clock w;
     w_album_locks := w_album_locks w; w_fetched := w_fetched w |}.

Definition with_dedup (f : gmap string string → gmap string string)
    (w : World) : World :=
  {| w_tasks := w_tasks w; w_cache := w_cache w; w_dedup := f (w_dedup w);
     w_scheduled := w_scheduled w; w_uuid := w_uuid w; w_clock := w_clock w;
     w_album_locks := w_album_locks w; w_fetched := w_fetched w |}.

Definition with_scheduled (x : string * TaskRequest) (w : World) : World :=
  {| w_tasks := w_tasks w; w_cache := w_cache w; w_dedup := w_dedup w;
     w_scheduled := w_scheduled w ++ [x]; w_uuid := w_uuid w;
     w_clock := w_clock w;
     w_album_locks := w_album_locks w; w_fetched := w_fetched w |}.

Definition with_download (locks : gmap string nat) (fetched : list string)
    (w : World) : World :=
  {| w_tasks := w_tasks w; w_cache := w_cache w; w_dedup := w_dedup w;
     w_scheduled := w_scheduled w; w_uuid := w_uuid w; w_clock := w_clock w;
     w_album_locks := locks; w_fetched := w_fetched w ++ fetched |}.

(** Field updates of a state dict ([state.update], [s[k] = v]). *)
Definition set_status (v : TaskStatusEnum) (s : TaskState) : TaskState :=
  {| ts_task_id := ts_task_id s; ts_status := v; ts_progress := ts_progress s;
     ts_created_at := ts_created_at s; ts_updated_at := ts_updated_at s;
     ts_metadata := ts_metadata s; ts_artifact_path := ts_artifact_path s;
     ts_download_url := ts_download_url s; ts_request := ts_request s;
     ts_cache_key := ts_cache_key s; ts_message := ts_message s;
     ts_error := ts_error s |}.

Definition set_progress (v : Q) (s : TaskState) : TaskState :=
  {| ts_task_id := ts_task_id s; ts_status := ts_status s; ts_progress := v;
     ts_created_at := ts_created_at s; ts_updated_at := ts_updated_at s;
     ts_metadata := ts_metadata s; ts_artifact_path := ts_artifact_path s;
     ts_download_url := ts_download_url s; ts_request := ts_request s;
     ts_cache_key := ts_cache_key s; ts_message := ts_message s;
     ts_error := ts_error s |}.

Definition set_updated_at (v : Q) (s : TaskState) : TaskState :=
  {| ts_task_id := ts_task_id s; ts_status := ts_status s;
     ts_progress := ts_progress s;
     ts_created_at := ts_created_at s; ts_updated_at := v;
     ts_metadata := ts_metadata s; ts_artifact_path := ts_artifact_path s;
     ts_download_url := ts_download_url s; ts_request := ts_request s;
     ts_cache_key := ts_cache_key s; ts_message := ts_message s;
     ts_error := ts_error s |}.

Definition set_metadata (v : list AlbumMeta) (s : TaskState) : TaskState :=
  {| ts_task_id := ts_task_id s; ts_status := ts_status s;
     ts_progress := ts_progress s;
     ts_created_at := ts_created_at s; ts_updated_at := ts_updated_at s;
     ts_metadata := v; ts_artifact_path := ts_artifact_path s;
     ts_download_url := ts_download_url s; ts_request := ts_request s;
     ts_cache_key := ts_cache_key s; ts_message := ts_message s;
     ts_error := ts_error s |}.

Definition set_artifact_path (v : string) (s : TaskState) : TaskState :=
  {| ts_task_id := ts_task_id s; ts_status := ts_status s;
     ts_progress := ts_progress s;
     ts_created_at := ts_created_at s; ts_updated_at := ts_updated_at s;
     ts_metadata := ts_metadata s; ts_artifact_path := Some v;
     ts_download_url := ts_download_url s; ts_request := ts_request s;
     ts_cache_key := ts_cache_key s; ts_message := ts_message s;
     ts_error := ts_error s |}.

Definition set_download_url (v : string) (s : TaskState) : TaskState :=
  {| ts_task_id := ts_task_id s; ts_status := ts_status s;
     ts_progress := ts_progress s;
     ts_created_at := ts_created_at s; ts_updated_at := ts_updated_at s;
     ts_metadata := ts_metadata s; ts_artifact_path := ts_artifact_path s;
     ts_download_url := Some v; ts_request := ts_request s;
     ts_cache_key := ts_cache_key s; ts_message := ts_message s;
     ts_error := ts_error s |}.

Definition set_request (r : TaskRequest) (k : string) (s : TaskState)
  : TaskState :=
  {| ts_task_id := ts_task_id s; ts_status := ts_status s;
     ts_progress := ts_progress s;
     ts_created_at := ts_created_at s; ts_updated_at := ts_updated_at s;
     ts_metadata := ts_metadata s; ts_artifact_path := ts_artifact_path s;
     ts_download_url := ts_download_url s; ts_request := Some r;
     ts_cache_key := Some k; ts_message := ts_message s;
     ts_error := ts_error s |}.

Definition set_message (v : string) (s : TaskState) : TaskState :=
  {| ts_task_id := ts_task_id s; ts_status := ts_status s;
     ts_progress := ts_progress s;
     ts_created_at := ts_created_at s; ts_updated_at := ts_updated_at s;
     ts_metadata := ts_metadata s; ts_artifact_path := ts_artifact_path s;
     ts_download_url := ts_download_url s; ts_request := ts_request s;
     ts_cache_key := ts_cache_key s; ts_message := Some v;
     ts_error := ts_error s |}.

(** The dict that [_task_state] stores for a task it has not seen. *)
Definition queued_state (task_id : string) (created updated : Q) : TaskState :=
  {| ts_task_id := task_id; ts_status := queued;
     ts_progress := 0; ts_created_at := created;
     ts_updated_at := updated; ts_metadata := [];
     ts_artifact_path := None; ts_download_url := None;
     ts_request := None; ts_cache_key := None;
     ts_message := None; ts_error := None |}.

Definition set_error (v : string) (s : TaskState) : TaskState :=
  {| ts_task_id := ts_task_id s; ts_status := ts_status s;
     ts_progress := ts_progress s;
     ts_created_at := ts_created_at s; ts_updated_at := ts_updated_at s;
     ts_metadata := ts_metadata s; ts_artifact_path := ts_artifact_path s;
     ts_download_url := ts_download_url s; ts_request := ts_request s;
     ts_cache_key := ts_cache_key s; ts_message := ts_message s;
     ts_error := Some v |}.

(** What an endpoint of [main.py] answers: its return value, an
    [HTTPException] it raises, or an exception nobody handles (the
    framework turns it into a 500 response). *)
Inductive Response (A : Type) :=
  | Sent (a : A)
  | HTTPException (status_code : nat) (detail : string)
  | Unhandled (msg : string).
Arguments Sent {A} a.
Arguments HTTPException {A} status_code detail.
Arguments Unhandled {A} msg.

(** The [FileResponse] of the download endpoint (the guessed media
    type is left out).  [artifact_path] holds the [str] of a [Path], so
    [str(Path(p))] is [p] again. *)
Record FileResponse := {
  file_path : string;
  file_filename : string;
}.

Section TaskManager.
Variable sha256_hexdigest : string → string.
Variable cfg : ServerSettings.
(** The [n]-th [uuid.uuid4()] of the process, as its 128-bit integer. *)
Variable uuid4_int : nat → N.
(** The [n]-th reading of [time.time()]. *)
Variable time_time : nat → Q.
(** The size in bytes of a packaged artifact. *)
Variable artifact_size : Artifact → Z.

Definition _now : M Q := λ w,
  (time_time (w_clock w),
   {| w_tasks := w_tasks w; w_cache := w_cache w; w_dedup := w_dedup w;
      w_scheduled := w_scheduled w; w_uuid := w_uuid w;
      w_clock := S (w_clock w);
      w_album_locks := w_album_locks w; w_fetched := w_fetched w |}).

(** [uuid.uuid4().hex]. *)
Definition uuid4_hex : M string := λ w,
  (uuid_hex (uuid4_int (w_uuid w)),
   {| w_tasks := w_tasks w; w_cache := w_cache w; w_dedup := w_dedup w;
      w_scheduled := w_scheduled w; w_uuid := S (w_uuid w);
      w_clock := w_clock w;
      w_album_locks := w_album_locks w; w_fetched := w_fetched w |}).

(** [Storage.get_task_state] and [Storage.set_task_state].  The
    snapshot file written by [_save_state] is never read back by the
    running process and is left out. *)
Definition get_task_state (task_id : string) : M (option TaskState) :=
  λ w, (w_tasks w !! task_id, w).
Definition set_task_state (task_id : string) (state : TaskState) : M unit :=
  modify (with_tasks <[task_id := state]>).

(** [TaskManager._task_state]. *)
Definition _task_state (task_id : string) : M TaskState :=
  state ← get_task_state task_id;
  match state with
  | Some s => mret s
  | None =>
      created ← _now;
      updated ← _now;
      let s := queued_state task_id created updated in
      _ ← set_task_state task_id s;
      mret s
  end.

(** The [cache_payload] dict of [submit]. *)
Definition cache_payload (req : TaskRequest) : CachePayload :=
  {| cp_album_ids := sorted (str <$> album_ids req);
     cp_output_format := OutputFormat_value (output_format req);
     cp_quality := quality req;
     cp_encrypt := encrypt req;
     cp_password := or_empty (password req);
     cp_compression := compression req;
     cp_proxy := or_empty (proxy req);
     cp_option_file := or_empty (option_file req) |}.

(** The cache key of a request. *)
Definition computeKey (req : TaskRequest) : string :=
  cache_key sha256_hexdigest (cache_payload req).

(** [TaskManager.submit]. *)
Definition submit (req : TaskRequest) : M SubmitResponse :=
  let key := computeKey req in
  w ← get_world;
  let entry :=
    if cache req then cached_artifact cfg (w_cache w) key else None in
  match entry with
  | Some entry =>
      (* Cache hit as completed artifact *)
      task_id ← (if truthy (w_dedup w !! key)
                 then mret (default "" (w_dedup w !! key))
                 else uuid4_hex);
      _ ← modify (with_dedup <[key := task_id]>);
      state ← _task_state task_id;
      now ← _now;
      _ ← set_task_state task_id
            (set_artifact_path (ce_path entry)
               (set_updated_at now
                  (set_progress 1 (set_status completed state))));
      mret {| resp_task_id := task_id; resp_status := completed;
              resp_duplicate := true |}
  | None =>
      match w_dedup w !! key with
      | Some task_id =>
          (* a task exists for the same key *)
          st ← _task_state task_id;
          mret {| resp_task_id := task_id; resp_status := ts_status st;
                  resp_duplicate := true |}
      | None =>
          (* Create a new task *)
          task_id ← uuid4_hex;
          _ ← modify (with_dedup <[key := task_id]>);
          state ← _task_state task_id;
          _ ← set_task_state task_id (set_request req key state);
          _ ← modify (with_scheduled (task_id, req));
          mret {| resp_task_id := task_id; resp_status := queued;
                  resp_duplicate := false |}
      end
  end.

(** The closure [progress_cb] of [_run_task]. *)
Definition progress_cb (task_id : string) (p : Q) (msg : string) : M unit :=
  s ← _task_state task_id;
  now ← _now;
  set_task_state task_id
    (set_updated_at now
       (set_message msg
          (set_progress (py_max 0 (py_min (99 # 100) p)) s))).

(** The head of [_run_task]: the record goes to [running]. *)
Definition run_begin (task_id : string) : M unit :=
  state ← _task_state task_id;
  now ← _now;
  set_task_state task_id (set_updated_at now (set_status running state)).

(** The [except Exception as e] handler of [_run_task].  [state] is the
    dict fetched at the head of [_run_task]; the store has held that
    same object under [task_id] ever since. *)
Definition run_failed (task_id : string) (e : string) : M unit :=
  state ← _task_state task_id;
  now ← _now;
  set_task_state task_id
    (set_updated_at now (set_error e (set_status failed state))).

(** The tail of [_run_task] once [download_and_package] has returned
    or raised. *)
Definition run_end (task_id : string)
    (outcome : result (DownloadResult * Artifact)) : M unit :=
  match outcome with
  | Raise e => run_failed task_id e
  | Ok (res, artifact) =>
      state ← _task_state task_id;
      match ts_cache_key state with
      | None => run_failed task_id "'cache_key'"      (* KeyError *)
      | Some key =>
          w ← get_world;
          mtime ← _now;
          let '(dir, cached_path) :=
            put_artifact cfg (w_cache w) key (res_suffix res) mtime
                         (artifact_size artifact) in
          _ ← modify (with_cache dir);
          now ← _now;
          set_task_state task_id
            (set_metadata (res_metadata res)
               (set_artifact_path cached_path
                  (set_updated_at now
                     (set_progress 1 (set_status completed state)))))
      end
  end.

(** [compression=req.compression or 6]. *)
Definition compression_or_6 (c : option Z) : Z :=
  match c with
  | Some z => if decide (z = 0%Z) then 6%Z else z
  | None => 6%Z
  end.

(** The [DownloadParams] built by [_run_task]. *)
Definition download_params (req : TaskRequest) : DownloadParams :=
  {| dp_album_ids := (λ a, IdStr (str a)) <$> album_ids req;
     dp_output_format := OutputFormat_value (output_format req);
     dp_quality := quality req;
     dp_encrypt := encrypt req;
     dp_password := password req;
     dp_compression := compression_or_6 (compression req);
     dp_proxy := match proxy req with
                 | Some p => Some p
                 | None => default_proxy cfg
                 end;
     dp_option_file := if truthy (option_file req) then option_file req
                       else None |}.

(** Delivering the progress reports of a download, oldest first. *)
Fixpoint deliver (task_id : string) (reports : list (Q * string)) : M unit :=
  match reports with
  | [] => mret tt
  | (p, msg) :: rest =>
      _ ← progress_cb task_id p msg;
      deliver task_id rest
  end.

(** [TaskManager._run_task], run without interruption. *)
Definition _run_task (env : DownloadEnv) (task_id : string)
    (req : TaskRequest) : M unit :=
  _ ← run_begin task_id;
  w ← get_world;
  let run := download_and_package env (path_join (work_dir cfg) task_id)
               (w_album_locks w) (download_params req) in
  _ ← deliver task_id (run_reports run);
  _ ← modify (with_download (run_locks run) (run_fetched run));
  run_end task_id (run_outcome run).

(** [TaskManager.get_status]: the download URL is derived on first
    read; building the [TaskStatus] answer needs the [request] key. *)
Definition get_status (task_id : string) : M (option (result TaskState)) :=
  st ← get_task_state task_id;
  match st with
  | None => mret None
  | Some st =>
      st' ← (match ts_artifact_path st, truthy (ts_download_url st) with
             | Some artifact, false =>
                 if decide (artifact = "") then mret st
                 else
                   let st' :=
                     set_download_url
                       ("/tasks/" +:+ task_id +:+ "/download/"
                        +:+ basename artifact) st in
                   _ ← set_task_state task_id st';
                   mret st'
             | _, _ => mret st
             end);
      mret (Some (match ts_request st' with
                  | Some _ => Ok st'
                  | None => Raise "request: Field required"
                  end))
  end.

(** The endpoint [POST /tasks] of [main.py]: the body is validated into
    a [TaskRequest] before the handler runs; a validation error answers
    without calling [submit]. *)
Definition submit_task (body : RawRequest) : M (option SubmitResponse) :=
  match TaskRequest_validate body with
  | None => mret None
  | Some req => r ← submit req; mret (Some r)
  end.

(** The endpoint [GET /tasks/{task_id}]. *)
Definition get_task (task_id : string) : M (Response TaskState) :=
  st ← get_status task_id;
  mret (match st with
        | None => HTTPException 404 "Task not found"
        | Some (Raise e) => Unhandled e
        | Some (Ok st) => Sent st
        end).

(** The endpoint [GET /tasks/{task_id}/download/{filename}];
    [exists_] is [Path.exists]. *)
Definition download_artifact (exists_ : string → bool)
    (task_id filename : string) : M (Response FileResponse) :=
  st ← get_status task_id;
  mret (match st with
        | None => HTTPException 404 "Artifact not found"
        | Some (Raise e) => Unhandled e
        | Some (Ok st) =>
            if truthy (ts_artifact_path st) then
              let path := default "" (ts_artifact_path st) in
              if negb (exists_ path)
                 || negb (bool_decide (basename path = filename))
              then HTTPException 404 "File not found"
              else Sent {| file_path := path;
                           file_filename := basename path |}
            else HTTPException 404 "Artifact not found"
        end).

(** *** The operations of the process, one at a time

    The event loop runs [submit] and [get_status]; a task body runs on
    a worker thread, so its head, its progress callbacks and its tail
    interleave with the calls of the event loop. *)
Inductive Op :=
  | OpSubmit (req : TaskRequest)
  | OpGetStatus (task_id : string)
  | OpRunBegin (task_id : string)
  | OpProgress (task_id : string) (p : Q) (msg : string)
  | OpDownload (locks : gmap string nat) (fetched : list string)
  | OpRunEnd (task_id : string)
             (outcome : result (DownloadResult * Artifact)).

Definition exec (o : Op) (w : World) : World :=
  match o with
  | OpSubmit req => snd (submit req w)
  | OpGetStatus t => snd (get_status t w)
  | OpRunBegin t => snd (run_begin t w)
  | OpProgress t p msg => snd (progress_cb t p msg w)
  | OpDownload locks fetched => with_download locks fetched w
  | OpRunEnd t outcome => snd (run_end t outcome w)
  end.

Definition exec_all (ops : list Op) (w : World) : World :=
  foldl (λ w o, exec o w) w ops.
End TaskManager.

(** ** The per-album lock under concurrent task bodies

    Task bodies run on worker threads ([asyncio.to_thread]).  The steps
    below are the statements of [Downloader._get_album_lock] and of the
    [with lock:] block of the download loop, each one atomic, interleaved
    by a schedule.  Lock objects are numbered in order of creation. *)
Module Locks.

(** Where a thread stands. *)
Inductive Pc :=
  | FirstGet                 (* lock = self._album_locks.get(album_id) *)
  | EnterGuard               (* with threading.Lock(): *)
  | SecondGet (guard : nat)  (* lock = self._album_locks.get(album_id) *)
  | Create (guard : nat)     (* lock = threading.Lock() *)
  | Store (guard l : nat)    (* self._album_locks[album_id] = lock *)
  | Acquire (l : nat)        (* with lock: *)
  | Fetching (l : nat)       (* jd.download_album(aid) is running *)
  | Done.

Record Thread := {
  th_album : string;
  th_pc : Pc;
}.

Record Sys := {
  album_locks : gmap string nat;   (* Downloader._album_locks *)
  held : gset nat;                 (* the locks that are held *)
  next_lock : nat;                 (* lock objects created so far *)
  threads : list Thread;
}.

Definition at_pc (t : Thread) (pc : Pc) : Thread :=
  {| th_album := th_album t; th_pc := pc |}.

(** One statement of thread [t].  [None]: the thread cannot move (it
    waits for a held lock, or it has finished). *)
Definition step_thread (t : Thread) (s : Sys)
  : option (Thread * gmap string nat * gset nat * nat) :=
  let tbl := album_locks s in
  match th_pc t with
  | FirstGet =>
      match tbl !! th_album t with
      | Some l => Some (at_pc t (Acquire l), tbl, held s, next_lock s)
      | None => Some (at_pc t EnterGuard, tbl, held s, next_lock s)
      end
  | EnterGuard =>
      (* a lock object made on the spot: nobody else can hold it *)
      let g := next_lock s in
      Some (at_pc t (SecondGet g), tbl, {[g]} ∪ held s, S g)
  | SecondGet g =>
      match tbl !! th_album t with
      | Some l => Some (at_pc t (Acquire l), tbl, held s ∖ {[g]}, next_lock s)
      | None => Some (at_pc t (Create g), tbl, held s, next_lock s)
      end
  | Create g =>
      Some (at_pc t (Store g (next_lock s)), tbl, held s, S (next_lock s))
  | Store g l =>
      Some (at_pc t (Acquire l), <[th_album t := l]> tbl,
            held s ∖ {[g]}, next_lock s)
  | Acquire l =>
      if decide (l ∈ held s) then None
      else Some (at_pc t (Fetching l), tbl, {[l]} ∪ held s, next_lock s)
  | Fetching l =>
      Some (at_pc t Done, tbl, held s ∖ {[l]}, next_lock s)
  | Done => None
  end.

(** The scheduler lets thread number [i] run one statement. *)
Definition step (i : nat) (s : Sys) : option Sys :=
  match threads s !! i with
  | None => None
  | Some t =>
      match step_thread t s with
      | None => None
      | Some (t', tbl, h, n) =>
          Some {| album_locks := tbl; held := h; next_lock := n;
                  threads := <[i := t']> (threads s) |}
      end
  end.

(** A schedule: the thread to run at each turn.  A turn given to a
    thread that cannot move is lost. *)
Fixpoint run (schedule : list nat) (s : Sys) : Sys :=
  match schedule with
  | [] => s
  | i :: rest => run rest (default s (step i s))
  end.

Definition is_fetching (aid : string) (t : Thread) : bool :=
  match th_pc t with
  | Fetching _ => bool_decide (th_album t = aid)
  | _ => false
  end.

(** The number of fetches of album [aid] in progress. *)
Definition active_fetches (aid : string) (s : Sys) : nat :=
  length (filter (λ t, is_fetching aid t = true) (threads s)).

(** Task bodies about to ask for the lock of their album. *)
Definition start (tbl : gmap string nat) (n : nat) (albums : list string)
  : Sys :=
  {| album_locks := tbl; held := ∅; next_lock := n;
     threads := (λ a, {| th_album := a; th_pc := FirstGet |}) <$> albums |}.
End Locks.

(** ** The earlier server, [src/src/main.py] *)
Module Legacy.

Record TaskRequest := {
  album_id : string;
  output_format : string;
  quality : option Z;
  encrypt : bool;
  password : option string;
  compression : Z;
  proxy : option string;
}.

Definition default_charset : string :=
  "ABCDEFGHJKLMNPQRSTUVWXYZabcdefghijkmnopqrstuvwxyz23456789@#-_".

(** The [server.password] section of the configuration, when given. *)
Record PasswordPolicy := {
  policy_length : option Z;
  policy_charset : option string;
}.

(** [get_password_policy]. *)
Definition get_password_policy (policy : PasswordPolicy) : Z * string :=
  (default 12%Z (policy_length policy),
   match policy_charset policy with
   | Some c => if decide (c = "") then default_charset else c
   | None => default_charset
   end).

(** [secrets.choice(charset)] given the index drawn. *)
Definition choice (charset : string) (i : nat) : string :=
  match String.get (i mod String.length charset) charset with
  | Some c => String c ""
  | None => ""
  end.

(** [generate_password]; [draw k] is the [k]-th random index. *)
Definition generate_password (policy : PasswordPolicy) (draw : nat → nat)
  : string :=
  let '(len, charset) := get_password_policy policy in
  String.concat "" ((λ k, choice charset (draw k)) <$> seq 0 (Z.to_nat len)).

(** What [_build_artifact] leaves behind: the artifact and the content
    of the [cache_hash.pwd] file, if one is written. *)
Record Built := {
  built_filename : string;
  built_artifact : Artifact;
  built_pwd_file : option string;
}.

(** [TaskManager._build_artifact], for the [short_hash] naming rule with
    its default length. *)
Definition _build_artifact (policy : PasswordPolicy) (draw : nat → nat)
    (images : list string) (req : TaskRequest) (cache_hash : string)
  : result Built :=
  match images with
  | [] => Raise "no images found for packaging"
  | _ =>
      let pw :=
        if encrypt req && negb (truthy (password req))
        then Some (generate_password policy draw)
        else password req in
      let base := String.substring 0 8 cache_hash in
      let used := if encrypt req && truthy pw then pw else None in
      Ok {| built_filename := base +:+ "." +:+
                              (if decide (output_format req = "zip")
                               then "zip" else "pdf");
            built_artifact :=
              (if decide (output_format req = "zip")
               then ZipFile ZIP_DEFLATED used (basename <$> images)
               else PdfFile used images);
            built_pwd_file :=
              (if encrypt req && truthy pw then pw else None) |}
  end.
End Legacy.

(** * The vocabulary of the properties *)

(** Two fields that differ at most in one being left out where the other
    spells out the declared default [d]. *)
Definition omitted_or_default {A} (d : A) (f g : Field A) : Prop :=
  f = g ∨ (f = Omitted ∧ g = Given d) ∨ (f = Given d ∧ g = Omitted).

(** Two resource id fields that differ at most in the order of the ids. *)
Definition same_ids_reordered (f g : Field RawIds) : Prop :=
  f = g ∨ ∃ l l', f = Given (RawList l) ∧ g = Given (RawList l') ∧ l ≡ₚ l'.

(** Two request bodies that differ only in the ordering of their resource
    ids or in omitted-versus-explicit-default field values. *)
Record same_request (r r' : RawRequest) : Prop := {
  same_album_ids : same_ids_reordered (raw_album_ids r) (raw_album_ids r');
  same_output_format :
    omitted_or_default zip (raw_output_format r) (raw_output_format r');
  same_quality : omitted_or_default None (raw_quality r) (raw_quality r');
  same_encrypt : omitted_or_default false (raw_encrypt r) (raw_encrypt r');
  same_password : omitted_or_default None (raw_password r) (raw_password r');
  same_compression :
    omitted_or_default (Some 6%Z) (raw_compression r) (raw_compression r');
  same_cache : omitted_or_default true (raw_cache r) (raw_cache r');
  same_proxy : omitted_or_default None (raw_proxy r) (raw_proxy r');
  same_option_file :
    omitted_or_default None (raw_option_file r) (raw_option_file r');
}.

(** A world [w'] that keeps every task record and the whole dedup
    table of [w]. *)
Definition keeps (w w' : World) : Prop :=
  (∀ t, is_Some (w_tasks w !! t) → is_Some (w_tasks w' !! t)) ∧
  w_dedup w' = w_dedup w ∧
  w_scheduled w' = w_scheduled w.

(** Every task id in the dedup table is a non-empty string and has a
    record in the task table. *)
Definition registered_ok (w : World) : Prop :=
  map_Forall (λ _ t, t ≠ "" ∧ is_Some (w_tasks w !! t)) (w_dedup w).

Global Instance registered_ok_dec w : Decision (registered_ok w).
Proof. unfold registered_ok. apply _. Defined.

(** How an operation may leave the progress of a record: untouched; or
    a value within [0, 0.99] (the clamped argument of the callback, or
    the 0.0 of a new record); or 1.0 together with status
    [completed]. *)
Definition progress_write_ok (old : option TaskState) (new : TaskState)
  : Prop :=
  (∃ st, old = Some st ∧ ts_progress new = ts_progress st) ∨
  (0 <= ts_progress new <= 99 # 100)%Q ∨
  (ts_progress new = 1%Q ∧ ts_status new = completed).

Definition progress_step (w w' : World) : Prop :=
  ∀ t st', w_tasks w' !! t = Some st' →
           progress_write_ok (w_tasks w !! t) st'.

Definition progress_values (run : DownloadRun) : list Q :=
  fst <$> run_reports run.

(** A fetch collaborator that delivers no album or image event. *)
Definition quiet (env : DownloadEnv) : Prop :=
  ∀ idx aid, fr_events (env_fetch env idx aid) = [].

(** [l] is non-decreasing and bounded by [hi]. *)
Definition chain (l : list Q) (hi : Q) : Prop :=
  StronglySorted Qle l ∧ Forall (λ x, (x <= hi)%Q) l.

(** The result of a run that returned. *)
Definition run_outcome_ok (run : DownloadRun)
  : option (DownloadResult * Artifact) :=
  match run_outcome run with
  | Ok x => Some x
  | Raise _ => None
  end.

(** The password that reaches the packaging primitives. *)
Definition packaging_password (params : DownloadParams) : option string :=
  let pw := if dp_encrypt params then dp_password params else None in
  if truthy pw then pw else None.

(** A fetch collaborator that returns without a single event, and a
    download directory without image files: the image set is empty. *)
Definition nothing_fetched (env : DownloadEnv) : Prop :=
  (∀ idx aid, fr_events (env_fetch env idx aid) = [] ∧
              fr_raises (env_fetch env idx aid) = false) ∧
  _collect_images (env_dl_base_files env) = [].

(** The fields of a record that neither the head of [_run_task] nor a
    progress callback touches. *)
Definition same_identity (s s' : TaskState) : Prop :=
  ts_task_id s' = ts_task_id s ∧
  ts_request s' = ts_request s ∧
  ts_cache_key s' = ts_cache_key s ∧
  ts_error s' = ts_error s ∧
  ts_artifact_path s' = ts_artifact_path s.

(** The state of the threads once the lock of album [aid] is [l0] in the
    table and every task body is about that album: a thread has not
    looked yet, waits for [l0], fetches under [l0], or is done; and a
    fetch is active exactly when [l0] is held. *)
Definition lock_settled (aid : string) (l0 : nat) (s : Locks.Sys) : Prop :=
  Locks.album_locks s !! aid = Some l0 ∧
  Forall (λ t, Locks.th_album t = aid ∧
               (Locks.th_pc t = Locks.FirstGet ∨
                Locks.th_pc t = Locks.Acquire l0 ∨
                Locks.th_pc t = Locks.Fetching l0 ∨
                Locks.th_pc t = Locks.Done)) (Locks.threads s) ∧
  Locks.active_fetches aid s = (if decide (l0 ∈ Locks.held s) then 1 else 0)%nat.

Section Vocabulary.
Variable sha256_hexdigest : string → string.
Variable cfg : ServerSettings.
Variable time_time : nat → Q.

Local Abbreviation computeKey := (computeKey sha256_hexdigest).
Local Abbreviation _task_state := (_task_state time_time).

(** The lookup that decides whether [submit] short-circuits. *)
Definition cache_lookup (req : TaskRequest) (w : World) : option CacheEntry :=
  if cache req then cached_artifact cfg (w_cache w) (computeKey req)
  else None.

(** The shape shared by [progress_cb], [run_begin] and [run_failed]:
    fetch the record, read the clock, store the updated record. *)
Definition update_record (t : string) (f : Q → TaskState → TaskState)
  : M unit :=
  s ← _task_state t; now ← _now time_time; set_task_state t (f now s).
End Vocabulary.

(** ** A small installation for the examples

    A stand-in digest (no property depends on what SHA-256 computes),
    task ids drawn in sequence, a clock that ticks once per reading. *)

Definition demo_cfg : ServerSettings :=
  {| cache_dir := "/data/cache"; work_dir := "/data/work";
     default_proxy := None |}.

Definition demo_digest (s : string) : string :=
  uuid_hex (N.of_nat (String.length s)).

Definition demo_uuid (n : nat) : N := N.of_nat (S n).

Definition demo_clock (n : nat) : Q := inject_Z (Z.of_nat n).

Definition demo_size (a : Artifact) : Z :=
  Z.of_nat (length (artifact_members a)).

(** [{"album_ids": ["123"]}] after validation. *)
Definition demo_request : TaskRequest :=
  {| album_ids := [IdStr "123"]; output_format := zip; quality := None;
     encrypt := false; password := None; compression := Some 6%Z;
     cache := true; proxy := None; option_file := None |}.

Definition demo_key : string := computeKey demo_digest demo_request.

(** A process that has just started, with an empty cache directory. *)
Definition demo_world : World := initial_world ∅ (Some []).

(** A process that has just started, with the artifact of
    [demo_request] already in the cache directory. *)
Definition demo_world_cached : World :=
  initial_world ∅
    (Some [ {| cf_name := demo_key +:+ ".zip";
               cf_stat := Some (5%Q, 1024%Z) |} ]).

Definition demo_submit := submit demo_digest demo_cfg demo_uuid demo_clock.
Definition demo_exec_all :=
  exec_all demo_digest demo_cfg demo_uuid demo_clock demo_size.

(** The world after [demo_request] was submitted once. *)
Definition demo_world_submitted : World := (demo_submit demo_request demo_world).2.

Definition demo_task_id : string := uuid_hex 1.

(** A fetch collaborator without events, and an empty download
    directory. *)
Definition demo_env_silent : DownloadEnv :=
  {| env_fetch := λ _ _, {| fr_events := []; fr_raises := false;
                            fr_fallback_error := None |};
     env_exists := λ _, true;
     env_dl_base_files := [];
     env_ts_name := "20250101_000000";
     env_img2pdf_error := λ _, None |}.

Definition demo_meta : AlbumMeta :=
  {| meta_album_id := Some "123"; meta_title := Some "title";
     meta_authors := None; meta_tags := None; meta_chapter_count := Some 1%nat |}.

Definition demo_image : ImageInfo :=
  {| info_album_id := Some (IdStr "123"); info_image_id := Some "7";
     info_page := Some 1%Z; info_url := None;
     info_path := "/data/cache/work/title/00001.jpg";
     info_filename := Some "00001.jpg" |}.

(** A fetch collaborator that announces the album and one image. *)
Definition demo_env_one_image : DownloadEnv :=
  {| env_fetch := λ _ _, {| fr_events := [EvAlbumMeta demo_meta;
                                          EvImage before demo_image;
                                          EvImage after demo_image];
                            fr_raises := false;
                            fr_fallback_error := None |};
     env_exists := λ _, true;
     env_dl_base_files := [];
     env_ts_name := "20250101_000000";
     env_img2pdf_error := λ _, None |}.

(** Two bodies for the same work: one terse, one spelling out every
    default and listing the ids the other way round. *)
Definition demo_body_terse : RawRequest :=
  {| raw_album_ids := Given (RawList [IdStr "9"; IdInt 10]);
     raw_output_format := Omitted; raw_quality := Omitted;
     raw_encrypt := Omitted; raw_password := Omitted;
     raw_compression := Omitted; raw_cache := Omitted;
     raw_proxy := Omitted; raw_option_file := Omitted |}.

Definition demo_body_explicit : RawRequest :=
  {| raw_album_ids := Given (RawList [IdInt 10; IdStr "9"]);
     raw_output_format := Given zip; raw_quality := Given None;
     raw_encrypt := Given false; raw_password := Given None;
     raw_compression := Given (Some 6%Z); raw_cache := Given true;
     raw_proxy := Given None; raw_option_file := Given None |}.

(** The task of [demo_request] once its body has started. *)
Definition demo_world_running : World :=
  demo_exec_all [OpRunBegin demo_task_id] demo_world_submitted.

Definition demo_late_report : Op := OpProgress demo_task_id 2 "late".

Definition demo_state_after_report : TaskState :=
  default (queued_state "" 0 0)
    (w_tasks (demo_exec_all [demo_late_report] demo_world_running)
       !! demo_task_id).

(** A body with an empty list of ids, and a body without the field. *)
Definition demo_body_empty : RawRequest :=
  {| raw_album_ids := Given (RawList []);
     raw_output_format := Omitted; raw_quality := Omitted;
     raw_encrypt := Omitted; raw_password := Omitted;
     raw_compression := Omitted; raw_cache := Omitted;
     raw_proxy := Omitted; raw_option_file := Omitted |}.

Definition demo_body_no_ids : RawRequest :=
  {| raw_album_ids := Omitted;
     raw_output_format := Omitted; raw_quality := Omitted;
     raw_encrypt := Omitted; raw_password := Omitted;
     raw_compression := Omitted; raw_cache := Omitted;
     raw_proxy := Omitted; raw_option_file := Omitted |}.

(** The task of [demo_request] runs, reports once, and fails. *)
Definition demo_failing_run : list Op :=
  [ OpRunBegin demo_task_id;
    OpProgress demo_task_id (45 # 100) "download 123";
    OpDownload {[ "123" := 0%nat ]} ["123"; "123"];
    OpRunEnd demo_task_id (Raise "album not found") ].

Definition demo_world_failed : World :=
  demo_exec_all demo_failing_run demo_world_submitted.

(** A request for an encrypted document that brings no password. *)
Definition demo_request_encrypted : TaskRequest :=
  {| album_ids := [IdStr "123"]; output_format := pdf; quality := None;
     encrypt := true; password := None; compression := Some 6%Z;
     cache := true; proxy := None; option_file := None |}.

Definition demo_world_encrypted : World :=
  (demo_submit demo_request_encrypted demo_world).2.

Definition demo_state_encrypted : TaskState :=
  default (queued_state "" 0 0) (w_tasks demo_world_encrypted !! demo_task_id).

Definition demo_state_submitted : TaskState :=
  default (queued_state "" 0 0) (w_tasks demo_world_submitted !! demo_task_id).

(** ** More vocabulary: the artifact store *)

(** A directory entry that [cached_artifact] can return for [key]: its
    name starts with the key and a dot, and it is still there to [stat]. *)
Definition is_candidate (key : string) (f : CacheFile) : bool :=
  String.prefix (key +:+ ".") (cf_name f) && bool_decide (is_Some (cf_stat f)).

(** The name under which [put_artifact] publishes. *)
Definition artifact_name (key suffix : string) : string :=
  key +:+ "." +:+ lstrip_dot suffix.

(** ** More vocabulary: task records *)

(** Two states of one record: the task id and the creation time are the
    same. *)
Definition same_origin (s s' : TaskState) : Prop :=
  ts_task_id s' = ts_task_id s ∧ ts_created_at s' = ts_created_at s.

(** A task table [m'] that grew out of [m]: every record of [m] is still
    there, with its task id and creation time; a record that is new
    carries the id under which it is stored. *)
Definition evolves (m m' : gmap string TaskState) : Prop :=
  ∀ t, match m !! t with
       | Some st => ∃ st', m' !! t = Some st' ∧ same_origin st st'
       | None => ∀ st', m' !! t = Some st' → ts_task_id st' = t
       end.

(** The cache key under which the record of task [t] was submitted. *)
Definition recorded_key (w : World) (t : string) : option string :=
  w_tasks w !! t ≫= ts_cache_key.

(** A task whose body has ended. *)
Definition terminal (s : TaskStatusEnum) : Prop :=
  s = completed ∨ s = failed.

(** What a world keeps when only the record of task [t] is written. *)
Definition frame (t : string) (w w' : World) : Prop :=
  (∀ t', t' ≠ t → w_tasks w' !! t' = w_tasks w !! t') ∧
  w_cache w' = w_cache w ∧ w_dedup w' = w_dedup w ∧
  w_scheduled w' = w_scheduled w ∧
  w_album_locks w' = w_album_locks w ∧ w_fetched w' = w_fetched w.

(** ** More vocabulary: a download run *)

(** The lock table and the list of fetches across the download loop. *)
Definition locks_grown (locks : gmap string nat) (aids : list string)
    (st : DlState) : Prop :=
  (∀ a l, locks !! a = Some l → dl_locks st !! a = Some l) ∧
  (∀ a, a ∈ dl_fetched st → is_Some (dl_locks st !! a)) ∧
  (∀ a, is_Some (dl_locks st !! a) →
        is_Some (locks !! a) ∨ a ∈ dl_fetched st) ∧
  (∀ a, a ∈ dl_fetched st → a ∈ aids).

(** The order of [items.sort]: by sort key. *)
Definition key_le (x y : ImageItem) : Prop :=
  key_leb (item_key x) (item_key y) = true.

(** Page order: an image with a page number is not behind one without,
    and page numbers do not go down. *)
Definition page_order (x y : ImageItem) : Prop :=
  match it_page x, it_page y with
  | Some p, Some q => (p ≤ q)%Z
  | None, Some _ => False
  | _, None => True
  end.

(** * Properties *)

(** ** The order of [sorted] *)

Lemma ascii_compare_eq a b : Ascii.compare a b = Eq ↔ a = b.
Proof.
  split; [apply Ascii.compare_eq_iff|].
  intros ->. unfold Ascii.compare. apply N.compare_refl.
Qed.

Lemma ascii_compare_trans_lt a b c :
  Ascii.compare a b = Lt → Ascii.compare b c = Lt → Ascii.compare a c = Lt.
Proof.
  unfold Ascii.compare. rewrite !N.compare_lt_iff. apply N.lt_trans.
Qed.

Lemma string_leb_trans a b c :
  String.leb a b = true → String.leb b c = true → String.leb a c = true.
Proof.
  unfold String.leb. revert b c.
  induction a as [|x a IH]; intros [|y b] [|z c]; simpl; try done.
  destruct (Ascii.compare x y) eqn:Hxy; try done;
    destruct (Ascii.compare y z) eqn:Hyz; try done.
  - apply ascii_compare_eq in Hxy as ->. apply ascii_compare_eq in Hyz as ->.
    rewrite (proj2 (ascii_compare_eq z z) eq_refl). apply IH.
  - apply ascii_compare_eq in Hxy as ->. by rewrite Hyz.
  - apply ascii_compare_eq in Hyz as ->. by rewrite Hxy.
  - by rewrite (ascii_compare_trans_lt _ _ _ Hxy Hyz).
Qed.

Global Instance str_le_trans : Transitive str_le.
Proof. intros a b c. apply string_leb_trans. Qed.

Global Instance str_le_antisym : AntiSymm (=) str_le.
Proof. intros a b. apply String.leb_antisym. Qed.

Global Instance str_le_total : Total str_le.
Proof. intros a b. apply String.leb_total. Qed.

(** Python's [sorted] returns the one sorted arrangement of its input:
    two lists with the same elements sort to the same list. *)
Lemma sorted_permutation (l1 l2 : list string) :
  l1 ≡ₚ l2 → sorted l1 = sorted l2.
Proof.
  intros Hp. unfold sorted.
  apply (Sorted_unique str_le); try apply Sorted_merge_sort; try apply _.
  by rewrite !merge_sort_Permutation.
Qed.

Lemma sorted_is_sorted (l : list string) : Sorted str_le (sorted l).
Proof. apply Sorted_merge_sort; apply _. Qed.

Lemma sorted_same_elements (l : list string) : sorted l ≡ₚ l.
Proof. apply merge_sort_Permutation. Qed.

(** ** The cache key *)

Lemma with_default_same {A} (d : A) (f g : Field A) :
  omitted_or_default d f g → with_default d f = with_default d g.
Proof. by intros [-> | [[-> ->] | [-> ->]]]. Qed.

Lemma coerce_ids_same (f g : Field RawIds) v v' :
  same_ids_reordered f g → f = Given v → g = Given v' →
  _coerce_ids v ≡ₚ _coerce_ids v'.
Proof.
  intros [-> | (l & l' & -> & -> & Hp)] Hf Hg; simplify_eq; done.
Qed.

Section CacheKey.
Variable sha256_hexdigest : string → string.

(** The key depends on the resource ids only through their sorted
    string forms. *)
Lemma computeKey_reorder (req req' : TaskRequest) :
  str <$> album_ids req ≡ₚ str <$> album_ids req' →
  output_format req = output_format req' →
  quality req = quality req' →
  encrypt req = encrypt req' →
  or_empty (password req) = or_empty (password req') →
  compression req = compression req' →
  or_empty (proxy req) = or_empty (proxy req') →
  or_empty (option_file req) = or_empty (option_file req') →
  computeKey sha256_hexdigest req = computeKey sha256_hexdigest req'.
Proof.
  intros Hp Hf Hq He Hpw Hc Hpr Ho.
  unfold computeKey, cache_payload. f_equal.
  rewrite (sorted_permutation _ _ Hp), Hf, Hq, He, Hpw, Hc, Hpr, Ho.
  done.
Qed.

(** C5. [computeKey] is a function of the request alone, and two request
    bodies that differ only in the order of their resource ids or in a
    field being omitted versus given its default are accepted together
    and get the same key. *)
Theorem computeKey_normalized (r r' : RawRequest) :
  same_request r r' →
  match TaskRequest_validate r, TaskRequest_validate r' with
  | Some req, Some req' =>
      computeKey sha256_hexdigest req = computeKey sha256_hexdigest req'
  | None, None => True
  | _, _ => False
  end.
Proof.
  intros [Hids Hfmt Hq He Hpw Hc Hca Hpr Ho].
  unfold TaskRequest_validate.
  rewrite <- (with_default_same _ _ _ Hq), <- (with_default_same _ _ _ Hc).
  destruct (raw_album_ids r) as [|v] eqn:Hv, (raw_album_ids r') as [|v'] eqn:Hv';
    try (by destruct Hids as [? | (? & ? & ? & ? & ?)]).
  destruct (in_bounds 1 100 _ && in_bounds 0 9 _); [|done].
  apply computeKey_reorder; simpl;
    rewrite <- ?(with_default_same _ _ _ Hfmt),
            <- ?(with_default_same _ _ _ He),
            <- ?(with_default_same _ _ _ Hpw),
            <- ?(with_default_same _ _ _ Hpr),
            <- ?(with_default_same _ _ _ Ho); try done.
  apply fmap_Permutation. by eapply coerce_ids_same.
Qed.
End CacheKey.

(** ** Task identifiers *)

Lemma hex_fixed_length (w : nat) (n : N) (acc : string) :
  String.length (hex_fixed w n acc) = (w + String.length acc)%nat.
Proof.
  revert n acc. induction w as [|w IH]; intros n acc; simpl; [done|].
  rewrite IH. simpl. lia.
Qed.

(** A task id made by [uuid4().hex] has 32 characters; it is truthy. *)
Lemma uuid_hex_length (i : N) : String.length (uuid_hex i) = 32%nat.
Proof. unfold uuid_hex. by rewrite hex_fixed_length. Qed.

Lemma uuid_hex_nonempty (i : N) : uuid_hex i ≠ "".
Proof.
  intros H. pose proof (uuid_hex_length i) as Hl. rewrite H in Hl. done.
Qed.

Lemma truthy_spec (x : option string) :
  truthy x = true ↔ ∃ s, x = Some s ∧ s ≠ "".
Proof.
  destruct x as [s|]; simpl.
  - destruct (decide (s = "")) as [->|Hne].
    + split; [done|]. by intros (s & [= <-] & Hs).
    + split; [eauto|done].
  - split; [done|]. by intros (s & Hs & _).
Qed.

(** Unfolding the operations by name, whatever abbreviations are in
    force. *)
Ltac unfold_task_state := unfold _task_state.
Ltac unfold_submit := unfold submit.
Ltac unfold_run_task := unfold _run_task.
Ltac unfold_cache_lookup := unfold cache_lookup.
Ltac unfold_update_record := unfold update_record.

(** ** Submission *)

Section Submit.
Variable sha256_hexdigest : string → string.
Variable cfg : ServerSettings.
Variable uuid4_int : nat → N.
Variable time_time : nat → Q.
Variable artifact_size : Artifact → Z.

Local Abbreviation computeKey := (computeKey sha256_hexdigest).
Local Abbreviation _task_state := (_task_state time_time).
Local Abbreviation submit := (submit sha256_hexdigest cfg uuid4_int time_time).
Local Abbreviation progress_cb := (progress_cb time_time).
Local Abbreviation run_begin := (run_begin time_time).
Local Abbreviation run_failed := (run_failed time_time).
Local Abbreviation run_end := (run_end cfg time_time artifact_size).
Local Abbreviation cache_lookup := (cache_lookup sha256_hexdigest cfg).
Local Abbreviation update_record := (update_record time_time).
Local Abbreviation exec :=
  (exec sha256_hexdigest cfg uuid4_int time_time artifact_size).
Local Abbreviation exec_all :=
  (exec_all sha256_hexdigest cfg uuid4_int time_time artifact_size).

Ltac unfold_m :=
  unfold mbind, M_bind, mret, M_ret, modify, get_world, set_task_state,
    get_task_state, _now, uuid4_hex, with_tasks, with_dedup,
    with_scheduled, with_cache, with_download in *.

Lemma task_state_some t w s :
  w_tasks w !! t = Some s → _task_state t w = (s, w).
Proof. intros H. unfold_task_state. unfold_m. by rewrite H. Qed.

Lemma task_state_none t w :
  w_tasks w !! t = None →
  _task_state t w =
    (queued_state t (time_time (w_clock w)) (time_time (S (w_clock w))),
     {| w_tasks := <[t := queued_state t (time_time (w_clock w))
                                       (time_time (S (w_clock w)))]>
                     (w_tasks w);
        w_cache := w_cache w; w_dedup := w_dedup w;
        w_scheduled := w_scheduled w; w_uuid := w_uuid w;
        w_clock := S (S (w_clock w));
        w_album_locks := w_album_locks w; w_fetched := w_fetched w |}).
Proof. intros H. unfold_task_state. unfold_m. by rewrite H. Qed.

(** What [_task_state] leaves untouched, and what it guarantees. *)
Lemma task_state_frame t w :
  let s := (_task_state t w).1 in
  let w' := (_task_state t w).2 in
  w_tasks w' !! t = Some s ∧
  (∀ t', t' ≠ t → w_tasks w' !! t' = w_tasks w !! t') ∧
  (∀ s0, w_tasks w !! t = Some s0 → s = s0) ∧
  w_cache w' = w_cache w ∧ w_dedup w' = w_dedup w ∧
  w_scheduled w' = w_scheduled w ∧ w_uuid w' = w_uuid w ∧
  w_album_locks w' = w_album_locks w ∧ w_fetched w' = w_fetched w.
Proof.
  destruct (w_tasks w !! t) as [s0|] eqn:H.
  - rewrite (task_state_some _ _ _ H). simpl. split_and!; try done.
    congruence.
  - rewrite (task_state_none _ _ H). simpl. split_and!; try done.
    + by rewrite lookup_insert_eq.
    + intros t' Hne. by rewrite lookup_insert_ne.
Qed.

Lemma submit_cache_hit_eq (req : TaskRequest) (w : World)
    (entry : CacheEntry) resp w' :
  cache_lookup req w = Some entry →
  submit req w = (resp, w') →
  resp_status resp = completed ∧
  resp_duplicate resp = true ∧
  resp_task_id resp =
    (if truthy (w_dedup w !! computeKey req)
     then default "" (w_dedup w !! computeKey req)
     else uuid_hex (uuid4_int (w_uuid w))) ∧
  (∃ st, w_tasks w' !! resp_task_id resp = Some st ∧
         ts_status st = completed ∧
         ts_progress st = 1%Q ∧
         ts_artifact_path st = Some (ce_path entry)) ∧
  (∀ t, is_Some (w_tasks w !! t) → is_Some (w_tasks w' !! t)) ∧
  w_dedup w' = <[computeKey req := resp_task_id resp]> (w_dedup w) ∧
  w_scheduled w' = w_scheduled w ∧
  w_album_locks w' = w_album_locks w ∧
  w_fetched w' = w_fetched w ∧
  w_cache w' = w_cache w.
Proof.
  unfold_cache_lookup. intros He. unfold_submit.
  unfold mbind at 1, M_bind at 1, get_world. simpl. rewrite He.
  set (pick := if truthy (w_dedup w !! computeKey req) then _ else _).
  unfold mbind at 1, M_bind at 1.
  destruct (pick w) as [task_id w1] eqn:Hpick.
  assert (Hw1 : w_scheduled w1 = w_scheduled w ∧
                w_album_locks w1 = w_album_locks w ∧
                w_fetched w1 = w_fetched w ∧ w_cache w1 = w_cache w ∧
                w_tasks w1 = w_tasks w ∧ w_dedup w1 = w_dedup w ∧
                task_id = (if truthy (w_dedup w !! computeKey req)
                           then default "" (w_dedup w !! computeKey req)
                           else uuid_hex (uuid4_int (w_uuid w)))).
  { subst pick. destruct (truthy _); unfold_m; by simplify_eq. }
  destruct Hw1 as (Hs1 & Hl1 & Hf1 & Hc1 & Ht1 & Hd1 & Hid).
  unfold mbind at 1, M_bind at 1, modify at 1.
  set (w2 := with_dedup _ w1).
  unfold mbind at 1, M_bind at 1.
  pose proof (task_state_frame task_id w2)
    as (Ht & Hother & _ & Hc3 & Hd3 & Hs3 & _ & Hl3 & Hf3).
  destruct (_task_state task_id w2) as [state w3]. simpl in *.
  unfold_m. simpl. intros [= <- <-]. simpl. rewrite lookup_insert_eq.
  split_and!; try done; try congruence.
  - eexists; split_and!; done.
  - intros t Hsome. destruct (decide (t = task_id)) as [->|Hne].
    + by rewrite lookup_insert_eq.
    + rewrite lookup_insert_ne, Hother by done. by rewrite Ht1.
Qed.

(** C1. With cache use enabled and an entry for the key in the artifact
    store, [submit] answers [completed] and duplicate at once; the
    record of the returned task has progress 1.0 and the path of the
    cached entry; nothing is scheduled, no lock is created and no fetch
    starts; the store itself is left as it was. *)
Theorem submit_cache_hit (req : TaskRequest) (w : World) (entry : CacheEntry) :
  cache req = true →
  cached_artifact cfg (w_cache w) (computeKey req) = Some entry →
  let resp := (submit req w).1 in
  let w' := (submit req w).2 in
  resp_status resp = completed ∧
  resp_duplicate resp = true ∧
  (∃ st, w_tasks w' !! resp_task_id resp = Some st ∧
         ts_status st = completed ∧
         ts_progress st = 1%Q ∧
         ts_artifact_path st = Some (ce_path entry)) ∧
  w_scheduled w' = w_scheduled w ∧
  w_album_locks w' = w_album_locks w ∧
  w_fetched w' = w_fetched w ∧
  w_cache w' = w_cache w.
Proof.
  intros Hc He.
  assert (Hl : cache_lookup req w = Some entry).
  { unfold_cache_lookup. by rewrite Hc. }
  destruct (submit req w) as [resp w'] eqn:Hs. simpl.
  destruct (submit_cache_hit_eq _ _ _ _ _ Hl Hs)
    as (? & ? & ? & ? & ? & ? & ? & ? & ? & ?).
  done.
Qed.

(** *** What each operation does to the task table and the dedup table *)

Lemma update_record_spec t f w :
  let w' := (update_record t f w).2 in
  (∃ s now, w_tasks w' !! t = Some (f now s) ∧
            (∀ s0, w_tasks w !! t = Some s0 → s = s0) ∧
            (w_tasks w !! t = None → ∃ c u, s = queued_state t c u)) ∧
  (∀ t', t' ≠ t → w_tasks w' !! t' = w_tasks w !! t') ∧
  w_cache w' = w_cache w ∧ w_dedup w' = w_dedup w ∧
  w_scheduled w' = w_scheduled w ∧
  w_album_locks w' = w_album_locks w ∧ w_fetched w' = w_fetched w.
Proof.
  simpl. unfold_update_record. unfold mbind, M_bind.
  pose proof (task_state_frame t w)
    as (Ht & Hother & Hsame & Hc & Hd & Hs & _ & Hl & Hf).
  pose proof (task_state_none t w) as Hnone.
  destruct (_task_state t w) as [s w1]. simpl in *.
  unfold_m. simpl. rewrite lookup_insert_eq. split_and!; try done.
  - eexists _, _. split_and!; try done.
    intros Hn. specialize (Hnone Hn). simplify_eq. eauto.
  - intros t' Hne. rewrite lookup_insert_ne by done. by apply Hother.
Qed.

Lemma update_record_keeps t f w : keeps w (update_record t f w).2.
Proof.
  pose proof (update_record_spec t f w)
    as ((s & now & Ht & _) & Hother & _ & Hd & Hs & _).
  split_and!; try done.
  intros t' Hsome. destruct (decide (t' = t)) as [->|Hne].
  - by rewrite Ht.
  - by rewrite Hother.
Qed.

Lemma progress_cb_update t p msg :
  progress_cb t p msg =
  update_record t (λ now s,
    set_updated_at now
      (set_message msg (set_progress (py_max 0 (py_min (99 # 100) p)) s))).
Proof. reflexivity. Qed.

Lemma run_begin_update t :
  run_begin t =
  update_record t (λ now s, set_updated_at now (set_status running s)).
Proof. reflexivity. Qed.

Lemma run_failed_update t e :
  run_failed t e =
  update_record t (λ now s,
    set_updated_at now (set_error e (set_status failed s))).
Proof. reflexivity. Qed.

Lemma keeps_refl w : keeps w w.
Proof. by split_and!. Qed.

Lemma keeps_trans w1 w2 w3 : keeps w1 w2 → keeps w2 w3 → keeps w1 w3.
Proof.
  intros (Ht1 & Hd1 & Hs1) (Ht2 & Hd2 & Hs2). split_and!; [|congruence..].
  intros t Hsome. by apply Ht2, Ht1.
Qed.

Lemma task_state_keeps t w : keeps w (_task_state t w).2.
Proof.
  pose proof (task_state_frame t w) as (Ht & Hother & _ & _ & Hd & Hs & _).
  split_and!; try done.
  intros t' Hsome. destruct (decide (t' = t)) as [->|Hne].
  - by rewrite Ht.
  - by rewrite Hother.
Qed.

Lemma run_end_keeps t outcome w : keeps w (run_end t outcome w).2.
Proof.
  destruct outcome as [[res artifact]|e]; simpl.
  2: { rewrite run_failed_update. apply update_record_keeps. }
  unfold mbind at 1, M_bind at 1.
  pose proof (task_state_keeps t w) as Hk.
  pose proof (task_state_frame t w) as (Ht & _).
  destruct (_task_state t w) as [state w1]. simpl in *.
  destruct (ts_cache_key state) as [key|].
  2: { eapply keeps_trans; [exact Hk|].
       rewrite run_failed_update. apply update_record_keeps. }
  eapply keeps_trans; [exact Hk|].
  unfold_m. simpl. split_and!; try done. simpl.
  intros t' Hsome. destruct (decide (t' = t)) as [->|Hne].
  - by rewrite lookup_insert_eq.
  - by rewrite lookup_insert_ne.
Qed.

Lemma get_status_keeps t w : keeps w (get_status t w).2.
Proof.
  unfold get_status. unfold_m.
  destruct (w_tasks w !! t) as [st|] eqn:Hst; simpl; [|apply keeps_refl].
  destruct (ts_artifact_path st) as [a|]; simpl; [|apply keeps_refl].
  destruct (truthy (ts_download_url st)); simpl; [apply keeps_refl|].
  destruct (decide (a = "")); simpl; [apply keeps_refl|].
  split_and!; try done. simpl.
  intros t' Hsome. destruct (decide (t' = t)) as [->|Hne].
  - by rewrite lookup_insert_eq.
  - by rewrite lookup_insert_ne.
Qed.

(** *** The three branches of [submit] *)

Lemma submit_dedup_eq (req : TaskRequest) (w : World) (t : string) :
  cache_lookup req w = None →
  w_dedup w !! computeKey req = Some t →
  submit req w =
    ({| resp_task_id := t;
        resp_status := ts_status (_task_state t w).1;
        resp_duplicate := true |},
     (_task_state t w).2).
Proof.
  unfold_cache_lookup. intros He Hd. unfold_submit.
  unfold mbind at 1, M_bind at 1, get_world. simpl. rewrite He, Hd.
  unfold mbind, M_bind, mret, M_ret.
  by destruct (_task_state t w).
Qed.

Lemma submit_new_eq (req : TaskRequest) (w : World) resp w' :
  cache_lookup req w = None →
  w_dedup w !! computeKey req = None →
  submit req w = (resp, w') →
  resp = {| resp_task_id := uuid_hex (uuid4_int (w_uuid w));
            resp_status := queued; resp_duplicate := false |} ∧
  (∃ st, w_tasks w' !! resp_task_id resp = Some st ∧
         ts_request st = Some req ∧
         ts_cache_key st = Some (computeKey req)) ∧
  (∀ t, is_Some (w_tasks w !! t) → is_Some (w_tasks w' !! t)) ∧
  w_dedup w' = <[computeKey req := resp_task_id resp]> (w_dedup w) ∧
  w_scheduled w' = w_scheduled w ++ [(resp_task_id resp, req)] ∧
  w_album_locks w' = w_album_locks w ∧
  w_fetched w' = w_fetched w ∧
  w_cache w' = w_cache w.
Proof.
  unfold_cache_lookup. intros He Hd. unfold_submit.
  unfold mbind at 1, M_bind at 1, get_world. simpl. rewrite He, Hd.
  unfold mbind at 1, M_bind at 1, uuid4_hex at 1.
  unfold mbind at 1, M_bind at 1, modify at 1.
  set (w2 := with_dedup _ _).
  unfold mbind at 1, M_bind at 1.
  pose proof (task_state_frame (uuid_hex (uuid4_int (w_uuid w))) w2)
    as (Ht & Hother & _ & Hc3 & Hd3 & Hs3 & _ & Hl3 & Hf3).
  destruct (_task_state _ w2) as [state w3]. simpl in *.
  unfold_m. simpl. intros [= <- <-]. simpl. rewrite lookup_insert_eq.
  split_and!; try done; try congruence.
  - eexists; split_and!; done.
  - intros t Hsome.
    destruct (decide (t = uuid_hex (uuid4_int (w_uuid w)))) as [->|Hne].
    + by rewrite lookup_insert_eq.
    + rewrite lookup_insert_ne, Hother by done. done.
Qed.

(** *** The dedup table in a running process *)

Lemma registered_ok_initial tasks dir :
  registered_ok (initial_world tasks dir).
Proof. unfold registered_ok. simpl. apply map_Forall_empty. Qed.

Lemma keeps_registered_ok w w' :
  keeps w w' → registered_ok w → registered_ok w'.
Proof.
  intros (Ht & Hd & _) Hok k t Hk. rewrite Hd in Hk.
  destruct (Hok k t Hk) as [Hne Hsome]. split; [done|]. by apply Ht.
Qed.

(** What every call of [submit] does to the two tables: the key of the
    request is bound to the returned id, which is the id the key was
    bound to before, if any; no record is dropped. *)
Lemma submit_tables (req : TaskRequest) (w : World) :
  registered_ok w →
  let resp := (submit req w).1 in
  let w' := (submit req w).2 in
  w_dedup w' = <[computeKey req := resp_task_id resp]> (w_dedup w) ∧
  (∀ t, w_dedup w !! computeKey req = Some t → resp_task_id resp = t) ∧
  resp_task_id resp ≠ "" ∧
  is_Some (w_tasks w' !! resp_task_id resp) ∧
  (∀ t, is_Some (w_tasks w !! t) → is_Some (w_tasks w' !! t)).
Proof.
  intros Hok. simpl.
  destruct (cache_lookup req w) as [entry|] eqn:He.
  - destruct (submit req w) as [resp w'] eqn:Hs. simpl.
    destruct (submit_cache_hit_eq _ _ _ _ _ He Hs)
      as (_ & _ & Hid & (st & Hst & _) & Hmono & Hd & _).
    assert (Hold : ∀ t, w_dedup w !! computeKey req = Some t →
                        resp_task_id resp = t).
    { intros t Ht. destruct (Hok _ _ Ht) as [Hne _].
      rewrite Hid, Ht. simpl. by destruct (decide (t = "")). }
    split_and!; try done.
    rewrite Hid. destruct (truthy _) eqn:Htr.
    + apply truthy_spec in Htr as (s & -> & Hne). done.
    + apply uuid_hex_nonempty.
  - destruct (w_dedup w !! computeKey req) as [t|] eqn:Hd.
    + rewrite (submit_dedup_eq _ _ _ He Hd). simpl.
      destruct (Hok _ _ Hd) as [Hne Hsome].
      pose proof (task_state_keeps t w) as (Hmono & Hd' & _).
      split_and!; try done.
      * rewrite Hd'. by rewrite insert_id.
      * by intros ? [= <-].
      * by apply Hmono.
    + destruct (submit req w) as [resp w'] eqn:Hs. simpl.
      destruct (submit_new_eq _ _ _ _ He Hd Hs)
        as (-> & (st & Hst & _) & Hmono & Hd' & _).
      simpl in *. split_and!; done.
Qed.

Lemma submit_registered_ok (req : TaskRequest) (w : World) :
  registered_ok w → registered_ok (submit req w).2.
Proof.
  intros Hok.
  destruct (submit_tables req w Hok) as (Hd & _ & Hne & Hsome & Hmono).
  intros k t Hk. rewrite Hd in Hk.
  destruct (decide (k = computeKey req)) as [->|Hneq].
  - rewrite lookup_insert_eq in Hk. by simplify_eq.
  - rewrite lookup_insert_ne in Hk by done.
    destruct (Hok _ _ Hk) as [? ?]. split; [done|]. by apply Hmono.
Qed.

Lemma submit_keeps_entry (req : TaskRequest) (w : World) k t :
  registered_ok w →
  w_dedup w !! k = Some t → w_dedup (submit req w).2 !! k = Some t.
Proof.
  intros Hok Hk.
  destruct (submit_tables req w Hok) as (Hd & Hold & _).
  rewrite Hd. destruct (decide (k = computeKey req)) as [->|Hneq].
  - rewrite lookup_insert_eq. f_equal. by apply Hold.
  - by rewrite lookup_insert_ne.
Qed.

Lemma exec_not_submit_keeps (o : Op) (w : World) :
  (∀ req, o ≠ OpSubmit req) → keeps w (exec o w).
Proof.
  intros Hns. destruct o; simpl.
  - by destruct (Hns req).
  - apply get_status_keeps.
  - rewrite run_begin_update. apply update_record_keeps.
  - rewrite progress_cb_update. apply update_record_keeps.
  - by split_and!.
  - apply run_end_keeps.
Qed.

(** No operation removes or rebinds an entry of the dedup table, and
    the well-formedness of the table is kept. *)
Lemma exec_registered (o : Op) (w : World) :
  registered_ok w →
  registered_ok (exec o w) ∧
  (∀ k t, w_dedup w !! k = Some t → w_dedup (exec o w) !! k = Some t) ∧
  (∀ t, is_Some (w_tasks w !! t) → is_Some (w_tasks (exec o w) !! t)).
Proof.
  intros Hok.
  assert ((∃ req, o = OpSubmit req) ∨ ¬ (∃ req, o = OpSubmit req))
    as [[req ->]|Hns].
  { destruct o; [left; eauto | right; by intros [? ?] ..]. }
  - simpl. split_and!.
    + by apply submit_registered_ok.
    + intros k t. by apply submit_keeps_entry.
    + by apply submit_tables.
  - assert (Hk : keeps w (exec o w)).
    { apply exec_not_submit_keeps. intros req ->. apply Hns. eauto. }
    split_and!.
    + by eapply keeps_registered_ok.
    + intros k t Hkt. destruct Hk as (_ & Hd & _). by rewrite Hd.
    + by apply Hk.
Qed.

Lemma exec_all_registered (ops : list Op) (w : World) :
  registered_ok w →
  registered_ok (exec_all ops w) ∧
  (∀ k t, w_dedup w !! k = Some t →
          w_dedup (exec_all ops w) !! k = Some t) ∧
  (∀ t, is_Some (w_tasks w !! t) →
        is_Some (w_tasks (exec_all ops w) !! t)).
Proof.
  revert w. induction ops as [|o ops IH]; intros w Hok; simpl; [done|].
  destruct (exec_registered o w Hok) as (Hok1 & Hd1 & Ht1).
  destruct (IH _ Hok1) as (Hok2 & Hd2 & Ht2).
  split_and!; [done|..].
  - intros k t Hk. by apply Hd2, Hd1.
  - intros t Hsome. by apply Ht2, Ht1.
Qed.

(** The second branch of [submit] in a running process: the record of
    the registered task is there, so the call only reads. *)
Lemma submit_registered (req : TaskRequest) (w : World) (t : string) :
  registered_ok w →
  w_dedup w !! computeKey req = Some t →
  cache_lookup req w = None →
  ∃ st, w_tasks w !! t = Some st ∧
        submit req w =
          ({| resp_task_id := t; resp_status := ts_status st;
              resp_duplicate := true |}, w).
Proof.
  intros Hok Hd He. destruct (Hok _ _ Hd) as [_ [st Hst]].
  exists st. split; [done|].
  rewrite (submit_dedup_eq _ _ _ He Hd).
  by rewrite (task_state_some _ _ _ Hst).
Qed.

(** C2. When the dedup table already binds the key of the request to a
    task and no cached artifact short-circuits the call, [submit]
    answers with that task id and duplicate, reports the status of its
    record, and leaves the world as it was: no record is created,
    nothing is scheduled, the dedup table is untouched. *)
Theorem submit_dedup_hit (req : TaskRequest) (w : World) (t : string) :
  registered_ok w →
  w_dedup w !! computeKey req = Some t →
  cache_lookup req w = None →
  let resp := (submit req w).1 in
  let w' := (submit req w).2 in
  resp_task_id resp = t ∧
  resp_duplicate resp = true ∧
  (∃ st, w_tasks w !! t = Some st ∧ resp_status resp = ts_status st) ∧
  w_tasks w' = w_tasks w ∧
  w_scheduled w' = w_scheduled w ∧
  w_dedup w' = w_dedup w ∧
  w' = w.
Proof.
  intros Hok Hd He.
  destruct (submit_registered req w t Hok Hd He) as (st & Hst & ->).
  simpl. split_and!; try done. by exists st.
Qed.

(** C10. No operation removes an entry of the dedup table.  Once a key
    is bound to a task id, it stays bound to it whatever the process
    does next, and every later [submit] with that key that does not hit
    the artifact cache answers with the same id and duplicate, changing
    nothing; when the task has failed, the answer is the failed task
    and no retry is scheduled. *)
Theorem dedup_entry_is_permanent (w : World) (k t : string)
    (ops : list Op) :
  registered_ok w →
  w_dedup w !! k = Some t →
  let w' := exec_all ops w in
  w_dedup w' !! k = Some t ∧
  ∀ req, computeKey req = k → cache_lookup req w' = None →
    ∃ st, w_tasks w' !! t = Some st ∧
          submit req w' =
            ({| resp_task_id := t; resp_status := ts_status st;
                resp_duplicate := true |}, w') ∧
          (ts_status st = failed →
             resp_status (submit req w').1 = failed ∧
             w_scheduled (submit req w').2 = w_scheduled w').
Proof.
  intros Hok Hd. simpl.
  destruct (exec_all_registered ops w Hok) as (Hok' & Hkeep & _).
  split; [by apply Hkeep|].
  intros req <- He.
  destruct (submit_registered req _ t Hok' (Hkeep _ _ Hd) He)
    as (st & Hst & Hs).
  exists st. split_and!; try done.
  intros Hf. rewrite Hs. simpl. done.
Qed.

(** ** Progress *)

(** The clamp of [progress_cb]. *)
Lemma clamp_range (p : Q) :
  (0 <= py_max 0 (py_min (99 # 100) p) <= 99 # 100)%Q.
Proof.
  unfold py_max, py_min.
  destruct (Qlt_le_dec p (99 # 100)) as [Hlt|Hge];
    destruct (Qlt_le_dec 0 _) as [Hpos|Hneg]; split;
    auto using Qlt_le_weak, Qle_refl; done.
Qed.

Lemma progress_step_refl w : progress_step w w.
Proof. intros t st' H. left. eauto. Qed.

Lemma progress_step_eq w w' :
  w_tasks w' = w_tasks w → progress_step w w'.
Proof. intros Heq t st' H. rewrite Heq in H. left. eauto. Qed.

Lemma zero_in_range : (0 <= 0 <= 99 # 100)%Q.
Proof. split; done. Qed.

(** The record that [_task_state] returns carries the progress of the
    stored record, or 0.0 when it is new. *)
Lemma task_state_progress t w :
  progress_write_ok (w_tasks w !! t) (_task_state t w).1.
Proof.
  destruct (w_tasks w !! t) as [s0|] eqn:H.
  - rewrite (task_state_some _ _ _ H). left. eauto.
  - rewrite (task_state_none _ _ H). right. left. apply zero_in_range.
Qed.

Lemma update_record_progress t (f : Q → TaskState → TaskState) w :
  (∀ now s, ts_progress (f now s) = ts_progress s ∨
            (0 <= ts_progress (f now s) <= 99 # 100)%Q ∨
            (ts_progress (f now s) = 1%Q ∧ ts_status (f now s) = completed)) →
  progress_step w (update_record t f w).2.
Proof.
  intros Hf t' st' H.
  pose proof (update_record_spec t f w)
    as ((s & now & Ht & Hold & Hnew) & Hother & _).
  destruct (decide (t' = t)) as [->|Hne].
  - rewrite Ht in H. injection H as <-.
    destruct (Hf now s) as [Hsame | [Hr | Hc]].
    + destruct (w_tasks w !! t) as [s0|].
      * left. exists s0. split; [done|].
        rewrite Hsame. by rewrite (Hold s0 eq_refl).
      * destruct (Hnew eq_refl) as (c & u & ->).
        right. left. rewrite Hsame. apply zero_in_range.
    + by right; left.
    + by right; right.
  - rewrite Hother in H by done. left. eauto.
Qed.

Lemma progress_cb_progress t p msg w :
  progress_step w (progress_cb t p msg w).2.
Proof.
  rewrite progress_cb_update. apply update_record_progress.
  intros now s. right. left. apply clamp_range.
Qed.

Lemma run_begin_progress t w : progress_step w (run_begin t w).2.
Proof.
  rewrite run_begin_update. apply update_record_progress.
  intros now s. by left.
Qed.

Lemma run_failed_progress t e w : progress_step w (run_failed t e w).2.
Proof.
  rewrite run_failed_update. apply update_record_progress.
  intros now s. by left.
Qed.

Lemma get_status_progress t w : progress_step w (get_status t w).2.
Proof.
  unfold get_status. unfold_m.
  destruct (w_tasks w !! t) as [st|] eqn:Hst; simpl;
    [|apply progress_step_refl].
  destruct (ts_artifact_path st) as [a|]; simpl; [|apply progress_step_refl].
  destruct (truthy (ts_download_url st)); simpl; [apply progress_step_refl|].
  destruct (decide (a = "")); simpl; [apply progress_step_refl|].
  intros t' st' H. simpl in H. destruct (decide (t' = t)) as [->|Hne].
  - rewrite lookup_insert_eq in H. injection H as <-. left. eauto.
  - rewrite lookup_insert_ne in H by done. left. eauto.
Qed.

(** The tail of [_run_task]: on success the record gets 1.0 with
    [completed]; on failure the progress stays. *)
Lemma run_end_progress t outcome w :
  progress_step w (run_end t outcome w).2.
Proof.
  destruct outcome as [[res artifact]|e]; simpl;
    [|apply run_failed_progress].
  unfold mbind at 1, M_bind at 1.
  destruct (w_tasks w !! t) as [s0|] eqn:Hs0.
  - rewrite (task_state_some _ _ _ Hs0).
    destruct (ts_cache_key s0) as [key|]; [|apply run_failed_progress].
    unfold_m. simpl. intros t' st' H. simpl in H.
    destruct (decide (t' = t)) as [->|Hne].
    + rewrite lookup_insert_eq in H. injection H as <-. by right; right.
    + rewrite lookup_insert_ne in H by done. left. eauto.
  - rewrite (task_state_none _ _ Hs0). simpl.
    (* a record made on the spot has no cache key *)
    rewrite run_failed_update.
    intros t' st' H.
    match type of H with
    | w_tasks (update_record _ ?f ?w1).2 !! _ = _ =>
        pose proof (update_record_spec t f w1)
          as ((s & now & Ht & Hold & _) & Hother & _)
    end.
    simpl in Hold. rewrite lookup_insert_eq in Hold.
    destruct (decide (t' = t)) as [->|Hne].
    + rewrite Ht in H. injection H as <-.
      rewrite (Hold _ eq_refl). right. left. apply zero_in_range.
    + rewrite Hother in H by done. simpl in H.
      rewrite lookup_insert_ne in H by done. left. eauto.
Qed.

Lemma submit_progress (req : TaskRequest) (w : World) :
  progress_step w (submit req w).2.
Proof.
  unfold_submit.
  unfold mbind at 1, M_bind at 1, get_world. simpl.
  fold (cache_lookup req w).
  destruct (cache_lookup req w) as [entry|] eqn:He.
  - (* cache hit *)
    set (pick := if truthy (w_dedup w !! computeKey req) then _ else _).
    unfold mbind at 1, M_bind at 1.
    destruct (pick w) as [task_id w1] eqn:Hpick.
    assert (Ht1 : w_tasks w1 = w_tasks w).
    { subst pick. destruct (truthy _); unfold_m; by simplify_eq. }
    unfold mbind at 1, M_bind at 1, modify at 1.
    set (w2 := with_dedup _ w1).
    unfold mbind at 1, M_bind at 1.
    pose proof (task_state_frame task_id w2) as (_ & Hother & _).
    destruct (_task_state task_id w2) as [state w3]. simpl in *.
    unfold_m. simpl. intros t' st' H. simpl in H.
    destruct (decide (t' = task_id)) as [->|Hne].
    + rewrite lookup_insert_eq in H. injection H as <-. by right; right.
    + rewrite lookup_insert_ne, Hother, Ht1 in H by done. left. eauto.
  - destruct (w_dedup w !! computeKey req) as [t|] eqn:Hd.
    + (* dedup hit *)
      unfold mbind, M_bind, mret, M_ret.
      destruct (w_tasks w !! t) as [s0|] eqn:Hs0.
      * rewrite (task_state_some _ _ _ Hs0). apply progress_step_refl.
      * rewrite (task_state_none _ _ Hs0). simpl.
        intros t' st' H. simpl in H.
        destruct (decide (t' = t)) as [->|Hne].
        -- rewrite lookup_insert_eq in H. injection H as <-.
           right. left. apply zero_in_range.
        -- rewrite lookup_insert_ne in H by done. left. eauto.
    + (* new task *)
      unfold mbind at 1, M_bind at 1, uuid4_hex at 1.
      unfold mbind at 1, M_bind at 1, modify at 1.
      set (w2 := with_dedup _ _).
      unfold mbind at 1, M_bind at 1.
      set (id := uuid_hex (uuid4_int (w_uuid w))).
      pose proof (task_state_frame id w2) as (_ & Hother & Hold & _).
      pose proof (task_state_none id w2) as Hnew.
      destruct (_task_state id w2) as [state w3]. simpl in *.
      unfold_m. simpl. intros t' st' H. simpl in H.
      destruct (decide (t' = id)) as [->|Hne].
      * rewrite lookup_insert_eq in H. injection H as <-. simpl.
        destruct (w_tasks w !! id) as [s0|] eqn:Hs0.
        -- left. exists s0. split; [done|]. by rewrite (Hold s0 eq_refl).
        -- specialize (Hnew eq_refl). injection Hnew as -> _.
           right. left. apply zero_in_range.
      * rewrite lookup_insert_ne, Hother in H by done. left. eauto.
Qed.

Lemma exec_progress (o : Op) (w : World) : progress_step w (exec o w).
Proof.
  destruct o; simpl.
  - apply submit_progress.
  - apply get_status_progress.
  - apply run_begin_progress.
  - apply progress_cb_progress.
  - by apply progress_step_eq.
  - apply run_end_progress.
Qed.

(** C6. Whatever operation runs, the progress of a task record is
    either left as it was, or set to a value within [0, 0.99], or set
    to 1.0 together with the status [completed].  The progress
    callback writes its argument clamped into [0, 0.99] and leaves the
    status alone, so a running task stays running with a progress in
    that range; a record whose progress becomes 1.0 is [completed]. *)
Theorem progress_within_bounds (o : Op) (w : World) (t : string)
    (st' : TaskState) :
  w_tasks (exec o w) !! t = Some st' →
  progress_write_ok (w_tasks w !! t) st' ∧
  (∀ p msg, o = OpProgress t p msg →
     ts_progress st' = py_max 0 (py_min (99 # 100) p) ∧
     (0 <= ts_progress st' <= 99 # 100)%Q ∧
     ∀ st, w_tasks w !! t = Some st → ts_status st' = ts_status st) ∧
  ((ts_progress st' == 1)%Q →
     ts_status st' = completed ∨
     ∃ st, w_tasks w !! t = Some st ∧ ts_progress st = ts_progress st').
Proof.
  intros H. pose proof (exec_progress o w t st' H) as Hok.
  split_and!; [done|..].
  - intros p msg ->. simpl in H. rewrite progress_cb_update in H.
    match type of H with
    | w_tasks (update_record _ ?f _).2 !! _ = _ =>
        pose proof (update_record_spec t f w)
          as ((s & now & Ht & Hold & _) & _)
    end.
    rewrite Ht in H. injection H as <-. simpl.
    split_and!; [done|apply clamp_range..|].
    intros st Hst. by rewrite (Hold st Hst).
  - intros H1. destruct Hok as [(st & Hst & Heq) | [[_ Hr] | [_ Hc]]].
    + right. exists st. by split.
    + exfalso. rewrite H1 in Hr. by apply Hr.
    + by left.
Qed.

(** ** Validation *)

(** C9 (as the code has it). A request body is rejected before
    [submit] runs, and then nothing changes, exactly when [album_ids]
    is left out or [quality] or [compression] is out of its range.
    Every accepted request has [quality] within 1..100 and
    [compression] within 0..9 when they are set, and goes to [submit];
    its id list is whatever the body gave, an empty list included. *)
Theorem validation_gate (body : RawRequest) (w : World) :
  (TaskRequest_validate body = None ↔
     raw_album_ids body = Omitted ∨
     in_bounds 1 100 (with_default None (raw_quality body)) = false ∨
     in_bounds 0 9 (with_default (Some 6%Z) (raw_compression body)) = false) ∧
  (TaskRequest_validate body = None →
     submit_task sha256_hexdigest cfg uuid4_int time_time body w = (None, w)) ∧
  (∀ req, TaskRequest_validate body = Some req →
     in_bounds 1 100 (quality req) = true ∧
     in_bounds 0 9 (compression req) = true ∧
     (∃ v, raw_album_ids body = Given v ∧ album_ids req = _coerce_ids v) ∧
     submit_task sha256_hexdigest cfg uuid4_int time_time body w =
       (Some (submit req w).1, (submit req w).2)).
Proof.
  unfold submit_task, TaskRequest_validate.
  destruct (raw_album_ids body) as [|v]; simpl.
  { split_and!; [split; [by left|done] | done | done]. }
  destruct (in_bounds 1 100 _) eqn:Hq, (in_bounds 0 9 _) eqn:Hc; simpl.
  all: split_and!; try done.
  all: try (split; [done | by intros [? | [? | ?]]]).
  all: try (split; [intros _; by (right; left) | done]).
  all: try (split; [intros _; by (right; right) | done]).
  intros req [= <-]. simpl. split_and!; try done; [eauto|].
  unfold mbind, M_bind, mret, M_ret. by destruct (submit _ w).
Qed.
(** Every world that the process can reach from its start has a
    well-formed dedup table. *)
Lemma reachable_registered_ok (tasks : gmap string TaskState)
    (dir : option (list CacheFile)) (ops : list Op) :
  registered_ok (exec_all ops (initial_world tasks dir)).
Proof. apply exec_all_registered, registered_ok_initial. Qed.
End Submit.

(** ** Progress reports of a download *)

Lemma chain_nil hi : chain [] hi.
Proof. split; constructor. Qed.

Lemma chain_snoc l hi x : chain l hi → (hi <= x)%Q → chain (l ++ [x]) x.
Proof.
  intros [Hs Hb] Hle. split.
  - apply StronglySorted_app. split_and!; [|done|repeat constructor].
    intros x1 x2 H1 H2. apply list_elem_of_singleton in H2 as ->.
    rewrite Forall_forall in Hb. eapply Qle_trans; [|exact Hle].
    by apply Hb.
  - apply Forall_app. split.
    + eapply Forall_impl; [exact Hb|]. intros y Hy. simpl in Hy.
      by eapply Qle_trans.
    + repeat constructor. apply Qle_refl.
Qed.

Lemma chain_weaken l hi hi' : chain l hi → (hi <= hi')%Q → chain l hi'.
Proof.
  intros [Hs Hb] Hle. split; [done|].
  eapply Forall_impl; [exact Hb|]. intros y Hy. simpl in Hy.
  by eapply Qle_trans.
Qed.

Lemma report_values p msg st :
  fst <$> dl_reports (report p msg st) = (fst <$> dl_reports st) ++ [p].
Proof. unfold report. simpl. by rewrite fmap_app. Qed.

Lemma finish_run_reports st o : run_reports (finish_run st o) = dl_reports st.
Proof. reflexivity. Qed.

Lemma download_progress_mono (idx n : nat) :
  (download_progress idx n <= download_progress (S idx) n)%Q.
Proof.
  unfold download_progress. apply Qplus_le_r.
  unfold Qdiv. apply Qmult_le_compat_r.
  - apply Qmult_le_l; [done|]. rewrite <- Zle_Qle. lia.
  - apply Qinv_le_0_compat. rewrite <- (Zle_Qle 0). lia.
Qed.

Lemma download_progress_le (idx n : nat) :
  (idx ≤ n)%nat → (download_progress idx n <= 45 # 100)%Q.
Proof.
  intros Hle. unfold download_progress.
  assert (Hpos : (0 < inject_Z (Z.max 1 (Z.of_nat n)))%Q).
  { rewrite <- (Zlt_Qlt 0). lia. }
  assert (Hdiv : (inject_Z (Z.of_nat idx) / inject_Z (Z.max 1 (Z.of_nat n))
                  <= 1)%Q).
  { apply Qle_shift_div_r; [done|]. rewrite Qmult_1_l.
    rewrite <- Zle_Qle. lia. }
  setoid_replace ((4 # 10) * inject_Z (Z.of_nat idx)
                  / inject_Z (Z.max 1 (Z.of_nat n)))%Q
    with ((4 # 10) * (inject_Z (Z.of_nat idx)
                      / inject_Z (Z.max 1 (Z.of_nat n))))%Q
    using relation Qeq by (unfold Qdiv; ring).
  setoid_replace (45 # 100)%Q with ((5 # 100) + (4 # 10) * 1)%Q
    using relation Qeq by reflexivity.
  apply Qplus_le_r. apply Qmult_le_l; done.
Qed.

Lemma download_progress_ge (idx n : nat) :
  (5 # 100 <= download_progress idx n)%Q.
Proof.
  unfold download_progress.
  setoid_replace (5 # 100)%Q with ((5 # 100) + 0)%Q
    using relation Qeq at 1 by ring.
  apply Qplus_le_r. unfold Qdiv. apply Qmult_le_0_compat.
  - apply Qmult_le_0_compat; [done|]. rewrite <- (Zle_Qle 0). lia.
  - apply Qinv_le_0_compat. rewrite <- (Zle_Qle 0). lia.
Qed.

Lemma fetch_album_quiet env n idx aid st :
  quiet env →
  fst <$> dl_reports (fetch_album env n idx aid st).1
  = (fst <$> dl_reports st) ++ [download_progress idx n].
Proof.
  intros Hq. unfold fetch_album. rewrite Hq. simpl.
  destruct (fr_raises _); simpl; by rewrite fmap_app.
Qed.

Lemma fetch_loop_quiet env n idx aids st hi :
  quiet env →
  chain (fst <$> dl_reports st) hi →
  (hi <= download_progress idx n)%Q →
  (hi <= 45 # 100)%Q →
  (idx + length aids ≤ S n)%nat →
  ∃ hi', chain (fst <$> dl_reports (fetch_loop env n idx aids st).1) hi' ∧
         (hi' <= 45 # 100)%Q.
Proof.
  intros Hq. revert idx st hi.
  induction aids as [|aid aids IH]; intros idx st hi Hch Hlo Hhi Hlen; simpl.
  { eauto. }
  pose proof (fetch_album_quiet env n idx aid st Hq) as Hrep.
  destruct (fetch_album env n idx aid st) as [st' [e|]]; simpl in *.
  - exists (download_progress idx n). rewrite Hrep. split.
    + by apply (chain_snoc _ hi).
    + apply download_progress_le. lia.
  - apply (IH (S idx) st' (download_progress idx n)).
    + rewrite Hrep. by apply (chain_snoc _ hi).
    + apply download_progress_mono.
    + apply download_progress_le. lia.
    + lia.
Qed.

(** What does hold of the reports: when the fetch collaborator delivers
    no album or image event, the progress values that
    [download_and_package] reports are non-decreasing.  (An album or
    image event reports the constant 0.1 or 0.2, whatever was reported
    before it.) *)
Lemma quiet_progress_nondecreasing (env : DownloadEnv) (task_work : string)
    (locks : gmap string nat) (params : DownloadParams) :
  quiet env →
  Sorted Qle
    (progress_values (download_and_package env task_work locks params)).
Proof.
  intros Hq. apply StronglySorted_Sorted.
  unfold progress_values, download_and_package.
  set (aids := str <$> dp_album_ids params).
  set (st0 := {| dl_reports := []; dl_albums := []; dl_images := ∅;
                 dl_locks := locks; dl_fetched := [] |}).
  destruct (fetch_loop_quiet env (length aids) 1 aids st0 0 Hq) as (hi & Hch & Hhi).
  { apply chain_nil. }
  { eapply Qle_trans; [|apply download_progress_ge]. done. }
  { done. }
  { lia. }
  destruct (fetch_loop env (length aids) 1 aids st0) as [st [e|]]; simpl in *.
  { apply Hch. }
  assert (H50 : chain (fst <$> dl_reports (report (5 # 10) "collect images" st))
                      (5 # 10)).
  { rewrite report_values. apply (chain_snoc _ hi); [done|].
    eapply Qle_trans; [exact Hhi|done]. }
  set (st5 := report (5 # 10) "collect images" st) in *.
  assert (Hpack : ∀ stq hi' images src_root,
    chain (fst <$> dl_reports stq) hi' → (hi' <= 75 # 100)%Q →
    StronglySorted Qle
      (fst <$> run_reports (package env task_work params aids stq images src_root))).
  { intros stq hi' images src_root Hc Hle. unfold package.
    assert (H75 : ∀ m, chain (fst <$> dl_reports (report (75 # 100) m stq))
                             (75 # 100)).
    { intros m. rewrite report_values. by apply (chain_snoc _ hi'). }
    assert (H95 : ∀ m, StronglySorted Qle
              (fst <$> dl_reports (report (95 # 100) "finalize"
                                     (report (75 # 100) m stq)))).
    { intros m. rewrite report_values.
      by apply (chain_snoc _ (75 # 100)). }
    destruct (decide _); simpl; [apply H95|].
    destruct (_make_pdf _ _ _); simpl; [apply H95|apply H75]. }
  destruct (dp_quality params) as [q|].
  - destruct (_reencode_images _ _ _) as [images|e].
    + eapply (Hpack _ (55 # 100)); [|done]. rewrite report_values.
      by apply (chain_snoc _ (5 # 10)).
    + rewrite finish_run_reports, report_values.
      by apply (chain_snoc _ (5 # 10)).
  - eapply Hpack; [exact H50|done].
Qed.

(** ** Packaging *)

Lemma package_password env task_work params aids st images src_root res a :
  run_outcome (package env task_work params aids st images src_root)
    = Ok (res, a) →
  artifact_password a = packaging_password params.
Proof.
  unfold package, packaging_password.
  destruct (decide _); simpl.
  - by intros [= <- <-].
  - unfold _make_pdf. destruct (forallb _ _); [|done].
    destruct (env_img2pdf_error _ _); [done|]. by intros [= <- <-].
Qed.

Lemma download_password env task_work locks params res a :
  run_outcome (download_and_package env task_work locks params) = Ok (res, a) →
  artifact_password a = packaging_password params.
Proof.
  unfold download_and_package.
  destruct (fetch_loop _ _ _ _ _) as [st [e|]]; [done|].
  destruct (dp_quality params) as [q|].
  - destruct (_reencode_images _ _ _) as [images|e]; [|done].
    apply package_password.
  - apply package_password.
Qed.

(** A request with [encrypt] set and no password is packaged without any
    password: whenever [download_and_package] returns, the artifact it
    wrote is not encrypted. *)
Lemma encrypt_without_password_plain (env : DownloadEnv)
    (task_work : string) (locks : gmap string nat) (params : DownloadParams)
    (res : DownloadResult) (a : Artifact) :
  dp_encrypt params = true →
  dp_password params = None →
  run_outcome (download_and_package env task_work locks params) = Ok (res, a) →
  artifact_password a = None.
Proof.
  intros He Hp Hrun. rewrite (download_password _ _ _ _ _ _ Hrun).
  unfold packaging_password. by rewrite He, Hp.
Qed.

Lemma fetch_loop_nothing env n idx aids st :
  (∀ idx aid, fr_events (env_fetch env idx aid) = [] ∧
              fr_raises (env_fetch env idx aid) = false) →
  (fetch_loop env n idx aids st).2 = None ∧
  dl_images (fetch_loop env n idx aids st).1 = dl_images st.
Proof.
  intros Hq. revert idx st.
  induction aids as [|aid aids IH]; intros idx st; simpl; [done|].
  unfold fetch_album. destruct (Hq idx aid) as [-> ->]. simpl.
  match goal with |- context [fetch_loop env n (S idx) aids ?st1] =>
    destruct (IH (S idx) st1) as [-> ->] end.
  done.
Qed.

Lemma items_of_empty aid : items_of ∅ aid = [].
Proof. unfold items_of. by rewrite lookup_empty. Qed.

Lemma select_images_nothing env aids :
  _collect_images (env_dl_base_files env) = [] →
  select_images env ∅ aids = [].
Proof.
  intros Hscan. unfold select_images.
  assert (H : mjoin ((λ aid, it_path <$> items_of ∅ aid) <$> aids) = []).
  { induction aids as [|aid aids IH]; [done|].
    rewrite fmap_cons, items_of_empty. exact IH. }
  by rewrite H.
Qed.

Lemma stage_albums_nothing exists_ aids index :
  stage_albums exists_ ∅ aids index = [].
Proof.
  revert index. induction aids as [|aid aids IH]; intros index; simpl; [done|].
  rewrite items_of_empty. simpl. apply IH.
Qed.

(** With an empty image set and the archive format,
    [download_and_package] raises nothing: it returns an archive without
    a single entry as the artifact. *)
Lemma empty_image_set_archive (env : DownloadEnv) (task_work : string)
    (locks : gmap string nat) (params : DownloadParams) :
  nothing_fetched env →
  dp_output_format params = "zip" →
  ∃ res method pw,
    run_outcome (download_and_package env task_work locks params)
      = Ok (res, ZipFile method pw []) ∧
    res_suffix res = "zip".
Proof.
  intros [Hq Hscan] Hzip. unfold download_and_package.
  set (aids := str <$> dp_album_ids params).
  set (st0 := {| dl_reports := []; dl_albums := []; dl_images := ∅;
                 dl_locks := locks; dl_fetched := [] |}).
  destruct (fetch_loop_nothing env (length aids) 1 aids st0 Hq) as [Hnone Himg].
  destruct (fetch_loop env (length aids) 1 aids st0) as [st o].
  simpl in Hnone, Himg. subst o. simpl. rewrite Himg.
  rewrite (select_images_nothing _ _ Hscan).
  unfold package. rewrite Hzip. simpl.
  destruct (dp_quality params) as [q|]; simpl.
  - eexists _, _, _. split; reflexivity.
  - rewrite Himg, stage_albums_nothing. eexists _, _, _. split; reflexivity.
Qed.

(** ** A task body from head to tail *)

Section RunTask.
Variable cfg : ServerSettings.
Variable time_time : nat → Q.
Variable artifact_size : Artifact → Z.

Local Abbreviation progress_cb := (progress_cb time_time).
Local Abbreviation deliver := (deliver time_time).
Local Abbreviation _run_task := (_run_task cfg time_time artifact_size).

Lemma update_record_at t f w s :
  w_tasks w !! t = Some s →
  let w' := (update_record time_time t f w).2 in
  w_tasks w' !! t = Some (f (time_time (w_clock w)) s) ∧
  w_cache w' = w_cache w ∧ w_album_locks w' = w_album_locks w.
Proof.
  intros Hs. simpl. unfold update_record, mbind, M_bind.
  rewrite (task_state_some _ _ _ _ Hs).
  unfold _now, set_task_state, modify, with_tasks. simpl.
  by rewrite lookup_insert_eq.
Qed.

Lemma deliver_spec t reports w s :
  w_tasks w !! t = Some s →
  let w' := (deliver t reports w).2 in
  ∃ s', w_tasks w' !! t = Some s' ∧ same_identity s s' ∧
        ts_status s' = ts_status s ∧
        w_cache w' = w_cache w ∧ w_album_locks w' = w_album_locks w.
Proof.
  revert w s. induction reports as [|[p msg] reports IH]; intros w s Hs.
  { simpl. exists s. by split_and!. }
  simpl. unfold mbind, M_bind.
  pose proof (update_record_at t
    (λ now s, set_updated_at now
       (set_message msg (set_progress (py_max 0 (py_min (99 # 100) p)) s)))
    w s Hs) as (Ht & Hc & Hl).
  change (update_record time_time t _ w) with (progress_cb t p msg w) in Ht, Hc, Hl.
  destruct (progress_cb t p msg w) as [[] w1]. simpl in *.
  destruct (IH w1 _ Ht) as (s' & Hs' & Hid & Hst & Hc' & Hl').
  exists s'. split_and!; try done; try congruence.
Qed.

(** How [_run_task] leaves the record of a task that [submit] created:
    [completed] with progress 1.0 and the published artifact when
    [download_and_package] returns, [failed] with the error text when
    it raises. *)
Lemma run_task_outcome (env : DownloadEnv) (t : string) (req : TaskRequest)
    (w : World) (s : TaskState) (key : string) :
  w_tasks w !! t = Some s →
  ts_cache_key s = Some key →
  let run := download_and_package env (path_join (work_dir cfg) t)
               (w_album_locks w) (download_params cfg req) in
  ∃ s', w_tasks (_run_task env t req w).2 !! t = Some s' ∧
        ts_request s' = ts_request s ∧
        match run_outcome run with
        | Ok (res, a) =>
            ts_status s' = completed ∧ ts_progress s' = 1%Q ∧
            ts_metadata s' = res_metadata res ∧
            ts_artifact_path s' =
              Some (path_join (cache_dir cfg)
                      (key +:+ "." +:+ lstrip_dot (res_suffix res)))
        | Raise e =>
            ts_status s' = failed ∧ ts_error s' = Some e ∧
            ts_artifact_path s' = ts_artifact_path s
        end.
Proof.
  intros Hs Hkey. simpl. unfold_run_task.
  unfold mbind at 1, M_bind at 1.
  pose proof (update_record_at t
    (λ now s, set_updated_at now (set_status running s)) w s Hs)
    as (Ht1 & Hc1 & Hl1).
  change (update_record time_time t _ w) with (run_begin time_time t w)
    in Ht1, Hc1, Hl1.
  destruct (run_begin time_time t w) as [[] w1]. simpl in *.
  unfold mbind at 1, M_bind at 1, get_world. rewrite Hl1.
  set (run := download_and_package _ _ _ _).
  unfold mbind at 1, M_bind at 1.
  destruct (deliver_spec t (run_reports run) w1 _ Ht1)
    as (s2 & Hs2 & (_ & Hreq & Hck & Herr & Hart) & Hst2 & Hc2 & Hl2).
  destruct (deliver t (run_reports run) w1) as [[] w2]. simpl in *.
  unfold mbind at 1, M_bind at 1, modify at 1.
  set (w3 := with_download _ _ w2).
  assert (Hs3 : w_tasks w3 !! t = Some s2) by done.
  destruct (run_outcome run) as [[res a]|e]; simpl.
  - unfold mbind at 1, M_bind at 1.
    rewrite (task_state_some _ _ _ _ Hs3). rewrite Hck, Hkey.
    unfold mbind, M_bind, get_world, _now, modify, with_cache,
      set_task_state, with_tasks, put_artifact. simpl.
    rewrite lookup_insert_eq. eexists. split; [done|]. simpl.
    by split_and!.
  - destruct (update_record_at t
      (λ now s, set_updated_at now (set_error e (set_status failed s)))
      w3 s2 Hs3) as (Ht4 & _).
    change (update_record time_time t _ w3) with (run_failed time_time t e w3)
      in Ht4.
    eexists. split; [exact Ht4|]. simpl. by split_and!.
Qed.

(** C4 (what the code does). For a request with [encrypt] set and no
    password, no password is generated: whenever
    [download_and_package] returns, the artifact is not encrypted, and
    the task record ends with the request as it was submitted, which
    holds no password. *)
Theorem encrypt_without_password_is_plain (env : DownloadEnv) (t : string)
    (req : TaskRequest) (w : World) (s : TaskState) (key : string) :
  encrypt req = true →
  password req = None →
  w_tasks w !! t = Some s →
  ts_request s = Some req →
  ts_cache_key s = Some key →
  let run := download_and_package env (path_join (work_dir cfg) t)
               (w_album_locks w) (download_params cfg req) in
  (∀ res a, run_outcome run = Ok (res, a) → artifact_password a = None) ∧
  ∃ s', w_tasks (_run_task env t req w).2 !! t = Some s' ∧
        (password <$> ts_request s') = Some None ∧
        (is_Some (run_outcome_ok run) → ts_status s' = completed).
Proof.
  intros He Hp Hs Hreq Hkey. simpl. split.
  - intros res a Hrun.
    by apply (encrypt_without_password_plain _ _ _
                (download_params cfg req) _ _ He Hp Hrun).
  - destruct (run_task_outcome env t req w s key Hs Hkey)
      as (s' & Hs' & Hreq' & Hout).
    exists s'. split_and!; [done|by rewrite Hreq', Hreq; simpl; rewrite Hp|].
    unfold run_outcome_ok. intros [x Hx].
    destruct (run_outcome _) as [[res a]|e]; [by destruct Hout|done].
Qed.

(** C8 (what the code does). With an empty image set and the archive
    format, packaging raises nothing: [download_and_package] returns an
    archive without a single entry, it is published, and the task ends
    [completed] with progress 1.0. *)
Theorem empty_image_set_task_completes (env : DownloadEnv) (t : string)
    (req : TaskRequest) (w : World) (s : TaskState) (key : string) :
  nothing_fetched env →
  output_format req = zip →
  w_tasks w !! t = Some s →
  ts_cache_key s = Some key →
  (∃ res method pw,
     run_outcome (download_and_package env (path_join (work_dir cfg) t)
                    (w_album_locks w) (download_params cfg req))
       = Ok (res, ZipFile method pw [])) ∧
  ∃ s', w_tasks (_run_task env t req w).2 !! t = Some s' ∧
        ts_status s' = completed ∧ ts_progress s' = 1%Q ∧
        ts_artifact_path s' =
          Some (path_join (cache_dir cfg) (key +:+ ".zip")).
Proof.
  intros Hnothing Hzip Hs Hkey.
  assert (Hfmt : dp_output_format (download_params cfg req) = "zip").
  { simpl. by rewrite Hzip. }
  destruct (empty_image_set_archive env (path_join (work_dir cfg) t)
              (w_album_locks w) _ Hnothing Hfmt)
    as (res & method & pw & Hrun & Hsuffix).
  split; [eauto|].
  destruct (run_task_outcome env t req w s key Hs Hkey)
    as (s' & Hs' & _ & Hout).
  rewrite Hrun in Hout. destruct Hout as (Hst & Hpr & _ & Hart).
  exists s'. split_and!; try done. by rewrite Hart, Hsuffix.
Qed.
End RunTask.

(** ** The per-album lock *)

(** Replacing one thread changes the count of active fetches by what
    that thread contributes. *)
Lemma active_fetches_insert (aid : string) (ts : list Locks.Thread) (i : nat)
    (t t' : Locks.Thread) :
  ts !! i = Some t →
  (length (filter (λ x, Locks.is_fetching aid x = true) (<[i := t']> ts))
   + (if Locks.is_fetching aid t then 1 else 0)
   = length (filter (λ x, Locks.is_fetching aid x = true) ts)
     + (if Locks.is_fetching aid t' then 1 else 0))%nat.
Proof.
  revert i. induction ts as [|x ts IH]; intros [|i] H; simplify_eq/=.
  - rewrite !filter_cons.
    destruct (Locks.is_fetching aid t), (Locks.is_fetching aid t');
      repeat case_decide; simpl; try congruence; lia.
  - rewrite !filter_cons. specialize (IH i H).
    destruct (decide (Locks.is_fetching aid x = true)); simpl; lia.
Qed.

Lemma lock_settled_step aid l0 i s s' :
  lock_settled aid l0 s → Locks.step i s = Some s' → lock_settled aid l0 s'.
Proof.
  intros (Htbl & Hths & Hcount). unfold Locks.step.
  destruct (Locks.threads s !! i) as [t|] eqn:Hi; [|done].
  assert (Ht := Hths). rewrite Forall_lookup in Ht.
  destruct (Ht i t Hi) as [Halb Hpc].
  pose proof (active_fetches_insert aid (Locks.threads s) i t) as Hins.
  unfold Locks.active_fetches in Hcount.
  unfold Locks.step_thread.
  destruct Hpc as [Hpc | [Hpc | [Hpc | Hpc]]]; rewrite Hpc; [| | |done].
  - (* the first look finds the lock *)
    rewrite Halb, Htbl. intros [= <-].
    unfold lock_settled, Locks.active_fetches. simpl. split_and!; [done|..].
    + apply Forall_insert; [done|]. simpl. eauto.
    + specialize (Hins (Locks.at_pc t (Locks.Acquire l0)) Hi).
      assert (E : Locks.is_fetching aid t = false)
        by (unfold Locks.is_fetching; by rewrite Hpc).
      assert (E' : Locks.is_fetching aid (Locks.at_pc t (Locks.Acquire l0))
                   = false) by done.
      rewrite E, E' in Hins. rewrite <- Hcount. lia.
  - (* the lock is taken when it is free *)
    destruct (decide (l0 ∈ Locks.held s)) as [|Hfree]; [done|].
    intros [= <-].
    unfold lock_settled, Locks.active_fetches. simpl. split_and!; [done|..].
    + apply Forall_insert; [done|]. simpl. eauto.
    + specialize (Hins (Locks.at_pc t (Locks.Fetching l0)) Hi).
      assert (E : Locks.is_fetching aid t = false)
        by (unfold Locks.is_fetching; by rewrite Hpc).
      assert (E' : Locks.is_fetching aid (Locks.at_pc t (Locks.Fetching l0))
                   = true).
      { unfold Locks.is_fetching. simpl. by apply bool_decide_eq_true_2. }
      rewrite E, E' in Hins.
      rewrite decide_True by (apply elem_of_union_l; by apply elem_of_singleton).
      lia.
  - (* the fetch ends and the lock is released *)
    intros [= <-].
    unfold lock_settled, Locks.active_fetches. simpl. split_and!; [done|..].
    + apply Forall_insert; [done|]. simpl. eauto.
    + specialize (Hins (Locks.at_pc t Locks.Done) Hi).
      assert (E : Locks.is_fetching aid t = true).
      { unfold Locks.is_fetching. rewrite Hpc.
        by apply bool_decide_eq_true_2. }
      assert (E' : Locks.is_fetching aid (Locks.at_pc t Locks.Done) = false)
        by done.
      rewrite E, E' in Hins.
      rewrite decide_False
        by (rewrite elem_of_difference, elem_of_singleton; by intros [_ []]).
      destruct (decide (l0 ∈ Locks.held s)); lia.
Qed.

Lemma lock_settled_run aid l0 schedule s :
  lock_settled aid l0 s → lock_settled aid l0 (Locks.run schedule s).
Proof.
  revert s. induction schedule as [|i rest IH]; intros s Hs; simpl; [done|].
  apply IH. destruct (Locks.step i s) as [s'|] eqn:Hstep; simpl; [|done].
  by eapply lock_settled_step.
Qed.

(** Once the lock of an album is in the table, the task bodies that ask
    for it fetch one at a time, under every schedule. *)
Lemma registered_lock_excludes (aid : string) (l0 next n : nat)
    (schedule : list nat) :
  (Locks.active_fetches aid
     (Locks.run schedule (Locks.start {[aid := l0]} next (replicate n aid)))
   ≤ 1)%nat.
Proof.
  assert (H : lock_settled aid l0
                (Locks.start {[aid := l0]} next (replicate n aid))).
  { unfold lock_settled, Locks.start, Locks.active_fetches. simpl.
    split_and!.
    - apply lookup_singleton_eq.
    - apply Forall_fmap, Forall_forall.
      intros x [-> _]%elem_of_replicate. simpl. eauto.
    - rewrite decide_False by apply not_elem_of_empty.
      induction n as [|n IHn]; simpl; [done|]. exact IHn. }
  destruct (lock_settled_run aid l0 schedule _ H) as (_ & _ & ->).
  case_decide; lia.
Qed.

(** C3 (what the code does). Two task bodies for the same album, started
    while the album has no lock in the table, can both be fetching at
    once: each passes the inner check before the other stores its lock,
    because the guard of the creation is a lock made on the spot. *)
Theorem lock_creation_race :
  Locks.active_fetches "123"
    (Locks.run [0; 0; 0; 1; 1; 1; 1; 1; 1; 0; 0; 0]%nat
       (Locks.start ∅ 0 ["123"; "123"])) = 2%nat.
Proof. vm_compute. reflexivity. Qed.

(** ** The earlier server does generate passwords and refuse empty sets *)

Lemma string_get_some (s : string) (n : nat) :
  (n < String.length s)%nat → ∃ c, String.get n s = Some c.
Proof.
  revert n. induction s as [|c s IH]; intros n Hn; simpl in *; [lia|].
  destruct n as [|n]; [eauto|]. apply IH. lia.
Qed.

Lemma legacy_choice_length (charset : string) (i : nat) :
  charset ≠ "" → String.length (Legacy.choice charset i) = 1%nat.
Proof.
  intros Hne. unfold Legacy.choice.
  destruct (string_get_some charset (i mod String.length charset)) as [c ->];
    [|done].
  apply Nat.mod_upper_bound. by destruct charset.
Qed.

Lemma string_length_app (s1 s2 : string) :
  String.length (s1 +:+ s2) = (String.length s1 + String.length s2)%nat.
Proof. induction s1 as [|c s1 IH]; simpl; [done|]. by rewrite IH. Qed.

Lemma concat_unit_length (l : list string) :
  Forall (λ x, String.length x = 1%nat) l →
  String.length (String.concat "" l) = length l.
Proof.
  induction 1 as [|x l Hx Hl IH]; [done|].
  destruct l as [|y l]; [by simpl; rewrite Hx|].
  change (String.concat "" (x :: y :: l))
    with (x +:+ "" +:+ String.concat "" (y :: l)).
  rewrite !string_length_app, Hx, IH. done.
Qed.

Lemma legacy_policy_charset (policy : Legacy.PasswordPolicy) :
  (Legacy.get_password_policy policy).2 ≠ "".
Proof.
  unfold Legacy.get_password_policy. simpl.
  destruct (Legacy.policy_charset policy) as [c|]; [|done].
  by destruct (decide (c = "")).
Qed.

(** [generate_password] follows the policy: it has the configured
    length. *)
Lemma legacy_generate_password_length (policy : Legacy.PasswordPolicy)
    (draw : nat → nat) :
  String.length (Legacy.generate_password policy draw)
  = Z.to_nat (Legacy.get_password_policy policy).1.
Proof.
  unfold Legacy.generate_password.
  pose proof (legacy_policy_charset policy) as Hne.
  destruct (Legacy.get_password_policy policy) as [len charset]. simpl in *.
  rewrite concat_unit_length.
  - by rewrite length_fmap, length_seq.
  - apply Forall_fmap, Forall_forall. intros k _. simpl.
    by apply legacy_choice_length.
Qed.

(** [_build_artifact] of the earlier server refuses an empty image set. *)
Lemma legacy_empty_image_set_raises (policy : Legacy.PasswordPolicy)
    (draw : nat → nat) (req : Legacy.TaskRequest) (cache_hash : string) :
  Legacy._build_artifact policy draw [] req cache_hash
  = Raise "no images found for packaging".
Proof. reflexivity. Qed.

(** [_build_artifact] of the earlier server, asked to encrypt without a
    password, generates one by the policy, encrypts the artifact under it
    and stores it for the task to return. *)
Lemma legacy_generates_password (policy : Legacy.PasswordPolicy)
    (draw : nat → nat) (images : list string) (req : Legacy.TaskRequest)
    (cache_hash : string) :
  Legacy.encrypt req = true →
  truthy (Legacy.password req) = false →
  images ≠ [] →
  (0 < (Legacy.get_password_policy policy).1)%Z →
  ∃ b, Legacy._build_artifact policy draw images req cache_hash = Ok b ∧
       artifact_password (Legacy.built_artifact b)
         = Some (Legacy.generate_password policy draw) ∧
       Legacy.built_pwd_file b = Some (Legacy.generate_password policy draw).
Proof.
  intros He Hp Himg Hlen. unfold Legacy._build_artifact.
  destruct images as [|x images]; [done|].
  rewrite He, Hp. cbn [andb negb].
  assert (Ht : truthy (Some (Legacy.generate_password policy draw)) = true).
  { apply truthy_spec. eexists. split; [done|]. intros Hempty.
    pose proof (legacy_generate_password_length policy draw) as Hl.
    rewrite Hempty in Hl. simpl in Hl, Hlen. lia. }
  rewrite Ht. eexists. split; [done|]. simpl.
  by destruct (decide _).
Qed.

(** * Worked examples *)

Example demo_first_submission :
  (demo_submit demo_request demo_world).1
  = {| resp_task_id := demo_task_id; resp_status := queued;
       resp_duplicate := false |}.
Proof. vm_compute. reflexivity. Qed.

Example demo_reports_one_image :
  progress_values
    (download_and_package demo_env_one_image "/data/work/t" ∅
       (download_params demo_cfg demo_request))
  = [download_progress 1 1; 1 # 10; 2 # 10; 2 # 10; 5 # 10; 75 # 100; 95 # 100].
Proof. reflexivity. Qed.

(** C1 on an example: the request is submitted to a fresh process whose
    cache directory holds its artifact. *)
Lemma submit_cache_hit_witness :
  cache demo_request = true ∧
  cached_artifact demo_cfg (w_cache demo_world_cached) demo_key
    = Some {| ce_key := demo_key;
              ce_path := "/data/cache/" +:+ demo_key +:+ ".zip";
              ce_created_at := 5; ce_size := 1024 |} ∧
  let resp := (demo_submit demo_request demo_world_cached).1 in
  let w' := (demo_submit demo_request demo_world_cached).2 in
  resp_status resp = completed ∧
  resp_duplicate resp = true ∧
  (∃ st, w_tasks w' !! resp_task_id resp = Some st ∧
         ts_status st = completed ∧
         ts_progress st = 1%Q ∧
         ts_artifact_path st = Some ("/data/cache/" +:+ demo_key +:+ ".zip")) ∧
  w_scheduled w' = [] ∧
  w_album_locks w' = ∅ ∧
  w_fetched w' = [] ∧
  w_cache w' = w_cache demo_world_cached.
Proof.
  assert (H1 : cache demo_request = true) by reflexivity.
  assert (H2 : cached_artifact demo_cfg (w_cache demo_world_cached)
                 (computeKey demo_digest demo_request)
               = Some {| ce_key := demo_key;
                         ce_path := "/data/cache/" +:+ demo_key +:+ ".zip";
                         ce_created_at := 5; ce_size := 1024 |})
    by (vm_compute; reflexivity).
  split; [exact H1|]. split; [exact H2|].
  exact (submit_cache_hit demo_digest demo_cfg demo_uuid demo_clock
           demo_request demo_world_cached _ H1 H2).
Defined.

(** C2 on an example: the same request submitted a second time while its
    task is queued. *)
Lemma submit_dedup_hit_witness :
  registered_ok demo_world_submitted ∧
  w_dedup demo_world_submitted !! demo_key = Some demo_task_id ∧
  cache_lookup demo_digest demo_cfg demo_request demo_world_submitted = None ∧
  let resp := (demo_submit demo_request demo_world_submitted).1 in
  let w' := (demo_submit demo_request demo_world_submitted).2 in
  resp_task_id resp = demo_task_id ∧
  resp_duplicate resp = true ∧
  (∃ st, w_tasks demo_world_submitted !! demo_task_id = Some st ∧
         resp_status resp = ts_status st) ∧
  w_tasks w' = w_tasks demo_world_submitted ∧
  w_scheduled w' = w_scheduled demo_world_submitted ∧
  w_dedup w' = w_dedup demo_world_submitted ∧
  w' = demo_world_submitted.
Proof.
  assert (H1 : registered_ok demo_world_submitted)
    by (apply (bool_decide_unpack _); vm_compute; exact I).
  assert (H2 : w_dedup demo_world_submitted !! demo_key = Some demo_task_id)
    by (vm_compute; reflexivity).
  assert (H3 : cache_lookup demo_digest demo_cfg demo_request
                 demo_world_submitted = None)
    by (vm_compute; reflexivity).
  split_and!; [exact H1 | exact H2 | exact H3 | ..];
    apply (submit_dedup_hit demo_digest demo_cfg demo_uuid demo_clock
             demo_request demo_world_submitted demo_task_id H1 H2 H3).
Defined.

Example demo_sorted_ids :
  cp_album_ids (cache_payload
                  (default demo_request (TaskRequest_validate demo_body_terse)))
  = ["10"; "9"].
Proof. vm_compute. reflexivity. Qed.

(** C5 on the two bodies above. *)
Lemma computeKey_normalized_witness :
  same_request demo_body_terse demo_body_explicit ∧
  match TaskRequest_validate demo_body_terse,
        TaskRequest_validate demo_body_explicit with
  | Some req, Some req' =>
      computeKey demo_digest req = computeKey demo_digest req'
  | None, None => True
  | _, _ => False
  end.
Proof.
  assert (H : same_request demo_body_terse demo_body_explicit).
  { split; simpl; try (right; left; split; reflexivity).
    right. eexists _, _. split_and!; [reflexivity..|]. apply perm_swap. }
  split; [exact H|].
  exact (computeKey_normalized demo_digest _ _ H).
Defined.

(** C6 on an example: a callback that reports 2.0 while the task runs. *)
Lemma progress_within_bounds_witness :
  w_tasks (exec demo_digest demo_cfg demo_uuid demo_clock demo_size
             demo_late_report demo_world_running) !! demo_task_id
    = Some demo_state_after_report ∧
  ts_progress demo_state_after_report = (99 # 100)%Q ∧
  ts_status demo_state_after_report = running.
Proof.
  assert (H : w_tasks (exec demo_digest demo_cfg demo_uuid demo_clock demo_size
                         demo_late_report demo_world_running) !! demo_task_id
              = Some demo_state_after_report) by (vm_compute; reflexivity).
  split; [exact H|].
  destruct (progress_within_bounds demo_digest demo_cfg demo_uuid demo_clock
              demo_size _ _ _ _ H) as (_ & Hcb & _).
  destruct (Hcb 2%Q "late" eq_refl) as (Hval & _ & Hst).
  split; [rewrite Hval; reflexivity|].
  rewrite (Hst (set_updated_at 2 (set_status running
             (set_request demo_request demo_key
                (queued_state demo_task_id 0 1))))); [reflexivity|].
  vm_compute. reflexivity.
Defined.

(** A download without events reports rising values. *)
Lemma quiet_progress_nondecreasing_witness :
  quiet demo_env_silent ∧
  Sorted Qle
    (progress_values
       (download_and_package demo_env_silent "/data/work/t" ∅
          (download_params demo_cfg demo_request))).
Proof.
  assert (H : quiet demo_env_silent) by (intros idx aid; reflexivity).
  split; [exact H|].
  exact (quiet_progress_nondecreasing demo_env_silent _ _ _ H).
Defined.

(** C7 (what the code does). The progress values reported for one album
    whose fetch announces the album and one image are 0.45, 0.1, 0.2,
    0.2, 0.5, 0.75, 0.95: the second is below the first, the sequence is
    not non-decreasing. *)
Theorem progress_goes_backwards :
  ¬ Sorted Qle
      (progress_values
         (download_and_package demo_env_one_image "/data/work/t" ∅
            (download_params demo_cfg demo_request))).
Proof.
  rewrite demo_reports_one_image. intros H.
  apply Sorted_inv in H as [_ Hhd]. apply HdRel_inv in Hhd.
  vm_compute in Hhd. by apply Hhd.
Qed.

(** C9 fails as stated: the body with an empty id list
    passes validation, and [submit] creates, registers and schedules a
    task for it. *)
Lemma empty_id_list_is_accepted :
  ∃ resp w',
    submit_task demo_digest demo_cfg demo_uuid demo_clock
      demo_body_empty demo_world = (Some resp, w') ∧
    resp_status resp = queued ∧
    resp_duplicate resp = false ∧
    (∃ st, w_tasks w' !! resp_task_id resp = Some st ∧
           (album_ids <$> ts_request st) = Some []) ∧
    length (w_scheduled w') = 1%nat ∧
    w' ≠ demo_world.
Proof.
  eexists _, _. split; [vm_compute; reflexivity|].
  split_and!; try reflexivity.
  - eexists. split; [vm_compute; reflexivity|]. reflexivity.
  - intros H. apply (f_equal w_scheduled) in H. discriminate H.
Qed.

(** C9 on an example: the body without [album_ids] is turned
    away and nothing changes. *)
Lemma validation_gate_witness :
  TaskRequest_validate demo_body_no_ids = None ∧
  submit_task demo_digest demo_cfg demo_uuid demo_clock
    demo_body_no_ids demo_world = (None, demo_world).
Proof.
  assert (H : TaskRequest_validate demo_body_no_ids = None) by reflexivity.
  split; [exact H|].
  destruct (validation_gate demo_digest demo_cfg demo_uuid demo_clock
              demo_body_no_ids demo_world) as (_ & Hrej & _).
  exact (Hrej H).
Defined.

(** C10 on an example: after the task has failed, the same request gets the
    failed task back, and nothing is scheduled. *)
Lemma dedup_entry_is_permanent_witness :
  registered_ok demo_world_submitted ∧
  w_dedup demo_world_submitted !! demo_key = Some demo_task_id ∧
  w_dedup demo_world_failed !! demo_key = Some demo_task_id ∧
  demo_submit demo_request demo_world_failed =
    ({| resp_task_id := demo_task_id; resp_status := failed;
        resp_duplicate := true |}, demo_world_failed).
Proof.
  assert (Hok : registered_ok demo_world_submitted)
    by (apply (bool_decide_unpack _); vm_compute; exact I).
  assert (Hd : w_dedup demo_world_submitted !! demo_key = Some demo_task_id)
    by (vm_compute; reflexivity).
  split; [exact Hok|]. split; [exact Hd|].
  destruct (dedup_entry_is_permanent demo_digest demo_cfg demo_uuid demo_clock
              demo_size demo_world_submitted demo_key demo_task_id
              demo_failing_run Hok Hd) as [Hkeep Hsub].
  split; [exact Hkeep|].
  destruct (Hsub demo_request eq_refl) as (st & Hst & Hs & _).
  { vm_compute. reflexivity. }
  unfold demo_submit, demo_world_failed, demo_exec_all. rewrite Hs.
  assert (Hf : ts_status st = failed).
  { vm_compute in Hst. by injection Hst as <-. }
  by rewrite Hf.
Defined.

Example demo_encrypted_artifact :
  run_outcome_ok
    (download_and_package demo_env_one_image
       (path_join (work_dir demo_cfg) demo_task_id) ∅
       (download_params demo_cfg demo_request_encrypted))
  = Some ({| res_album_ids := ["123"];
             res_artifact_path :=
               "/data/work/" +:+ demo_task_id
               +:+ "/JM_123_20250101_000000.pdf";
             res_suffix := "pdf";
             res_metadata := [demo_meta] |},
          PdfFile None ["/data/cache/work/title/00001.jpg"]).
Proof. vm_compute. reflexivity. Qed.

(** C4 on an example: the encrypted-document request without a password
    ends [completed] with a document that opens without any password. *)
Lemma encrypt_without_password_is_plain_witness :
  encrypt demo_request_encrypted = true ∧
  password demo_request_encrypted = None ∧
  (∀ res a,
     run_outcome
       (download_and_package demo_env_one_image
          (path_join (work_dir demo_cfg) demo_task_id)
          (w_album_locks demo_world_encrypted)
          (download_params demo_cfg demo_request_encrypted)) = Ok (res, a) →
     artifact_password a = None) ∧
  ∃ s', w_tasks (_run_task demo_cfg demo_clock demo_size demo_env_one_image
                   demo_task_id demo_request_encrypted demo_world_encrypted).2
          !! demo_task_id = Some s' ∧
        (password <$> ts_request s') = Some None ∧
        ts_status s' = completed.
Proof.
  split; [reflexivity|]. split; [reflexivity|].
  destruct (encrypt_without_password_is_plain demo_cfg demo_clock demo_size
              demo_env_one_image demo_task_id demo_request_encrypted
              demo_world_encrypted demo_state_encrypted
              (computeKey demo_digest demo_request_encrypted))
    as (Hplain & s' & Hs' & Hpw & Hdone);
    [reflexivity | reflexivity | vm_compute; reflexivity
    | vm_compute; reflexivity | vm_compute; reflexivity |].
  split; [exact Hplain|].
  exists s'. split_and!; [exact Hs' | exact Hpw |].
  apply Hdone. vm_compute. eauto.
Defined.

(** C8 on an example: nothing is fetched for an archive request, and the
    task ends [completed] with an archive that has no entry. *)
Lemma empty_image_set_task_completes_witness :
  nothing_fetched demo_env_silent ∧
  output_format demo_request = zip ∧
  (∃ res method pw,
     run_outcome
       (download_and_package demo_env_silent
          (path_join (work_dir demo_cfg) demo_task_id)
          (w_album_locks demo_world_submitted)
          (download_params demo_cfg demo_request))
       = Ok (res, ZipFile method pw [])) ∧
  ∃ s', w_tasks (_run_task demo_cfg demo_clock demo_size demo_env_silent
                   demo_task_id demo_request demo_world_submitted).2
          !! demo_task_id = Some s' ∧
        ts_status s' = completed ∧ ts_progress s' = 1%Q ∧
        ts_artifact_path s' =
          Some (path_join (cache_dir demo_cfg) (demo_key +:+ ".zip")).
Proof.
  assert (Hn : nothing_fetched demo_env_silent).
  { split; [intros idx aid; split; reflexivity | reflexivity]. }
  split; [exact Hn|]. split; [reflexivity|].
  apply (empty_image_set_task_completes demo_cfg demo_clock demo_size
           demo_env_silent demo_task_id demo_request demo_world_submitted
           demo_state_submitted demo_key Hn eq_refl).
  - vm_compute. reflexivity.
  - vm_compute. reflexivity.
Defined.

(** * Further properties *)

(** ** The artifact store *)

Lemma string_app_assoc (a b c : string) : (a +:+ b) +:+ c = a +:+ b +:+ c.
Proof.
  induction a as [|x a IH]; [done|].
  change (String x ((a +:+ b) +:+ c) = String x (a +:+ b +:+ c)).
  by rewrite IH.
Qed.

Lemma string_prefix_app (s t : string) : String.prefix s (s +:+ t) = true.
Proof.
  induction s as [|c s IH]; simpl; [by destruct t|].
  destruct (Ascii.ascii_dec c c); [exact IH|done].
Qed.

(** A name that starts with [a.] does not start with [b.] for another
    key [b] of the same length. *)
Lemma string_prefix_other_key (a b t : string) :
  String.length a = String.length b → a ≠ b →
  String.prefix (b +:+ ".") (a +:+ "." +:+ t) = false.
Proof.
  revert b. induction a as [|x a IH]; intros [|y b] Hlen Hne;
    simpl in *; try done.
  destruct (Ascii.ascii_dec y x) as [->|]; [|done].
  apply IH; [lia|]. intros ->. done.
Qed.

Section StoreFacts.
Variable cfg : ServerSettings.

Lemma glob_first_None (key : string) (files : list CacheFile) :
  glob_first cfg key files = None ↔
  Forall (λ f, is_candidate key f = false) files.
Proof.
  unfold is_candidate. induction files as [|f files IH]; simpl.
  { split; [constructor|done]. }
  rewrite Forall_cons, <- IH.
  destruct (String.prefix _ _); simpl; [|tauto].
  destruct (cf_stat f) as [[mt sz]|]; simpl.
  - split; [done|]. by intros [H _].
  - split; [|tauto]. by intros H.
Qed.

Lemma glob_first_Some (key : string) (files : list CacheFile)
    (e : CacheEntry) :
  glob_first cfg key files = Some e ↔
  ∃ skipped f rest mt sz,
    files = skipped ++ f :: rest ∧
    Forall (λ g, is_candidate key g = false) skipped ∧
    String.prefix (key +:+ ".") (cf_name f) = true ∧
    cf_stat f = Some (mt, sz) ∧
    e = {| ce_key := key; ce_path := path_join (cache_dir cfg) (cf_name f);
           ce_created_at := mt; ce_size := sz |}.
Proof.
  induction files as [|f files IH]; simpl.
  { split; [done|]. intros (skipped & ? & ? & ? & ? & H & _).
    by destruct skipped. }
  destruct (String.prefix (key +:+ ".") (cf_name f)) eqn:Hp.
  - destruct (cf_stat f) as [[mt sz]|] eqn:Hst.
    + split.
      * intros [= <-]. exists [], f, files, mt, sz. by split_and!.
      * intros (skipped & g & rest & mt' & sz' & Hf & Hsk & Hpg & Hsg & ->).
        destruct skipped as [|h skipped]; simplify_eq/=; [done|].
        apply Forall_cons in Hsk as [Hh _]. unfold is_candidate in Hh.
        rewrite Hp, Hst in Hh. by simpl in Hh.
    + rewrite IH. split.
      * intros (skipped & g & rest & mt & sz & -> & Hsk & Hrest).
        exists (f :: skipped), g, rest, mt, sz. split_and!; try apply Hrest; [done|].
        apply Forall_cons. split; [|done]. unfold is_candidate.
        rewrite Hst. simpl. by rewrite andb_false_r.
      * intros (skipped & g & rest & mt & sz & Hf & Hsk & Hpg & Hsg & ->).
        destruct skipped as [|h skipped]; simplify_eq/=.
        apply Forall_cons in Hsk as [_ Hsk].
        exists skipped, g, rest, mt, sz. by split_and!.
  - rewrite IH. split.
    + intros (skipped & g & rest & mt & sz & -> & Hsk & Hrest).
      exists (f :: skipped), g, rest, mt, sz. split_and!; try apply Hrest; [done|].
      apply Forall_cons. split; [|done]. unfold is_candidate. by rewrite Hp.
    + intros (skipped & g & rest & mt & sz & Hf & Hsk & Hpg & Hsg & ->).
      destruct skipped as [|h skipped]; simplify_eq/=; [congruence|].
      apply Forall_cons in Hsk as [_ Hsk].
      exists skipped, g, rest, mt, sz. by split_and!.
Qed.

(** X1. [cached_artifact] returns the first directory entry whose name
    starts with the key and a dot and that can still be read: entries
    for other names and entries that have vanished are passed over, and
    the answer is [None] exactly when the directory is missing or holds
    no such entry. *)
Theorem cached_artifact_first_match (dir : option (list CacheFile))
    (key : string) :
  (cached_artifact cfg dir key = None ↔
     dir = None ∨
     ∃ files, dir = Some files ∧
              Forall (λ f, is_candidate key f = false) files) ∧
  (∀ e, cached_artifact cfg dir key = Some e ↔
     ∃ skipped f rest mt sz,
       dir = Some (skipped ++ f :: rest) ∧
       Forall (λ g, is_candidate key g = false) skipped ∧
       String.prefix (key +:+ ".") (cf_name f) = true ∧
       cf_stat f = Some (mt, sz) ∧
       e = {| ce_key := key;
              ce_path := path_join (cache_dir cfg) (cf_name f);
              ce_created_at := mt; ce_size := sz |}).
Proof.
  destruct dir as [files|]; simpl.
  - split.
    + rewrite glob_first_None. split; [eauto|].
      intros [|(files' & [= <-] & H)]; done.
    + intros e. rewrite glob_first_Some. split.
      * intros (skipped & f & rest & mt & sz & -> & H).
        exists skipped, f, rest, mt, sz. by split.
      * intros (skipped & f & rest & mt & sz & [= ->] & H).
        exists skipped, f, rest, mt, sz. by split.
  - split; [split; [eauto|done]|].
    intros e. split; [done|]. by intros (? & ? & ? & ? & ? & ? & _).
Qed.

Lemma glob_first_write_new (key name : string) (st : Q * Z)
    (files : list CacheFile) :
  String.prefix (key +:+ ".") name = true →
  glob_first cfg key files = None →
  glob_first cfg key (write_file name st files)
  = Some {| ce_key := key; ce_path := path_join (cache_dir cfg) name;
            ce_created_at := st.1; ce_size := st.2 |}.
Proof.
  intros Hp. destruct st as [mt sz].
  induction files as [|f files IH]; simpl; [by rewrite Hp|].
  destruct (decide (cf_name f = name)) as [Heq|Hne]; simpl.
  - by rewrite Hp.
  - destruct (String.prefix (key +:+ ".") (cf_name f)); [|exact IH].
    destruct (cf_stat f) as [[? ?]|]; [done|exact IH].
Qed.

Lemma glob_first_write_some (key name : string) (st : Q * Z)
    (files : list CacheFile) :
  String.prefix (key +:+ ".") name = true →
  is_Some (glob_first cfg key (write_file name st files)).
Proof.
  intros Hp. destruct st as [mt sz].
  induction files as [|f files IH]; simpl; [by rewrite Hp|].
  destruct (decide (cf_name f = name)) as [Heq|Hne]; simpl.
  - by rewrite Hp.
  - destruct (String.prefix (key +:+ ".") (cf_name f)); [|exact IH].
    destruct (cf_stat f) as [[? ?]|]; [done|exact IH].
Qed.

Lemma glob_first_write_other (key name : string) (st : Q * Z)
    (files : list CacheFile) :
  String.prefix (key +:+ ".") name = false →
  glob_first cfg key (write_file name st files) = glob_first cfg key files.
Proof.
  intros Hp. induction files as [|f files IH]; simpl; [by rewrite Hp|].
  destruct (decide (cf_name f = name)) as [Heq|Hne]; simpl.
  - by rewrite Hp, Heq, Hp.
  - by rewrite IH.
Qed.

(** X2. After [put_artifact] has published under a key, [cached_artifact]
    finds an entry for that key; when it found none before, the entry is
    the published file itself, with the path that [put_artifact]
    returned. *)
Theorem put_then_cached (dir : option (list CacheFile)) (key suffix : string)
    (mtime : Q) (size : Z) :
  let published := put_artifact cfg dir key suffix mtime size in
  is_Some (cached_artifact cfg (Some published.1) key) ∧
  published.2 = path_join (cache_dir cfg) (artifact_name key suffix) ∧
  (cached_artifact cfg dir key = None →
   cached_artifact cfg (Some published.1) key
   = Some {| ce_key := key; ce_path := published.2;
             ce_created_at := mtime; ce_size := size |}).
Proof.
  simpl. unfold put_artifact, artifact_name. simpl.
  assert (Hp : String.prefix (key +:+ ".") (key +:+ "." +:+ lstrip_dot suffix)
               = true).
  { rewrite <- string_app_assoc. apply string_prefix_app. }
  split_and!; [by apply glob_first_write_some | done |].
  intros Hnone. apply (glob_first_write_new _ _ (mtime, size)); [done|].
  destruct dir as [files|]; [exact Hnone|done].
Qed.

(** X3. Publishing under one key does not change what [cached_artifact]
    answers for another key of the same length (cache keys are digests
    of one length). *)
Theorem put_keeps_other_keys (dir : list CacheFile) (key key' suffix : string)
    (mtime : Q) (size : Z) :
  String.length key = String.length key' →
  key ≠ key' →
  cached_artifact cfg (Some (put_artifact cfg (Some dir) key suffix mtime size).1)
    key'
  = cached_artifact cfg (Some dir) key'.
Proof.
  intros Hlen Hne. simpl. apply glob_first_write_other.
  by apply string_prefix_other_key.
Qed.
End StoreFacts.

(** ** The task table *)

Section TaskFacts.
Variable sha256_hexdigest : string → string.
Variable cfg : ServerSettings.
Variable uuid4_int : nat → N.
Variable time_time : nat → Q.
Variable artifact_size : Artifact → Z.

Local Abbreviation computeKey := (computeKey sha256_hexdigest).
Local Abbreviation _task_state := (_task_state time_time).
Local Abbreviation submit := (submit sha256_hexdigest cfg uuid4_int time_time).
Local Abbreviation progress_cb := (progress_cb time_time).
Local Abbreviation run_begin := (run_begin time_time).
Local Abbreviation run_failed := (run_failed time_time).
Local Abbreviation run_end := (run_end cfg time_time artifact_size).
Local Abbreviation deliver := (deliver time_time).
Local Abbreviation _run_task := (_run_task cfg time_time artifact_size).
Local Abbreviation update_record := (update_record time_time).
Local Abbreviation exec :=
  (exec sha256_hexdigest cfg uuid4_int time_time artifact_size).
Local Abbreviation exec_all :=
  (exec_all sha256_hexdigest cfg uuid4_int time_time artifact_size).

Ltac unfold_world :=
  unfold mbind, M_bind, mret, M_ret, modify, get_world, set_task_state,
    get_task_state, _now, uuid4_hex, with_tasks, with_dedup,
    with_scheduled, with_cache, with_download in *.

Lemma same_origin_refl s : same_origin s s.
Proof. by split. Qed.

Lemma same_origin_trans s1 s2 s3 :
  same_origin s1 s2 → same_origin s2 s3 → same_origin s1 s3.
Proof. intros [? ?] [? ?]. split; congruence. Qed.

Lemma evolves_refl m : evolves m m.
Proof.
  intros t. destruct (m !! t) as [st|] eqn:H.
  - exists st. split; [done|apply same_origin_refl].
  - by intros st'.
Qed.

Lemma evolves_trans m1 m2 m3 : evolves m1 m2 → evolves m2 m3 → evolves m1 m3.
Proof.
  intros H12 H23 t. specialize (H12 t). specialize (H23 t).
  destruct (m1 !! t) as [s1|].
  - destruct H12 as (s2 & E2 & Ho). rewrite E2 in H23.
    destruct H23 as (s3 & E3 & Ho'). exists s3. split; [done|].
    by eapply same_origin_trans.
  - intros s3 E3. destruct (m2 !! t) as [s2|] eqn:E2.
    + destruct H23 as (s3' & E3' & [Hid _]). simplify_eq.
      rewrite Hid. by apply H12.
    + by apply H23.
Qed.

(** Storing an updated copy of the record of [t]. *)
Lemma evolves_insert m t s s' :
  m !! t = Some s → same_origin s s' → evolves m (<[t := s']> m).
Proof.
  intros Hs Ho t'. destruct (decide (t' = t)) as [->|Hne].
  - rewrite Hs, lookup_insert_eq. eauto.
  - rewrite lookup_insert_ne by done. destruct (m !! t') as [st|] eqn:H.
    + exists st. split; [done|apply same_origin_refl].
    + by intros st'.
Qed.

Lemma task_state_evolves t w :
  evolves (w_tasks w) (w_tasks (_task_state t w).2).
Proof.
  destruct (w_tasks w !! t) as [s0|] eqn:H.
  - rewrite (task_state_some _ _ _ _ H). apply evolves_refl.
  - rewrite (task_state_none _ _ _ H). simpl. intros t'.
    destruct (decide (t' = t)) as [->|Hne].
    + rewrite H, lookup_insert_eq. by intros st' [= <-].
    + rewrite lookup_insert_ne by done.
      destruct (w_tasks w !! t') as [st|] eqn:H'.
      * exists st. split; [done|apply same_origin_refl].
      * by intros st'.
Qed.

(** Fetching the record of [t] and storing an update of it. *)
Lemma task_state_then_store t w (f : TaskState → TaskState) :
  (∀ s, same_origin s (f s)) →
  evolves (w_tasks w)
    (<[t := f (_task_state t w).1]> (w_tasks (_task_state t w).2)).
Proof.
  intros Hf. eapply evolves_trans; [apply task_state_evolves|].
  pose proof (task_state_frame time_time t w) as (Ht & _).
  simpl in Ht. by eapply evolves_insert.
Qed.

Lemma update_record_evolves t f w :
  (∀ now s, same_origin s (f now s)) →
  evolves (w_tasks w) (w_tasks (update_record t f w).2).
Proof.
  intros Hf. unfold_update_record. unfold mbind, M_bind.
  pose proof (task_state_then_store t w (f (time_time (w_clock (_task_state t w).2))) (Hf _)) as H.
  destruct (_task_state t w) as [s w1]. simpl in *.
  unfold_world. simpl. exact H.
Qed.

Lemma run_end_evolves t outcome w :
  evolves (w_tasks w) (w_tasks (run_end t outcome w).2).
Proof.
  destruct outcome as [[res artifact]|e]; simpl.
  2: { apply (update_record_evolves t
         (λ now s, set_updated_at now (set_error e (set_status failed s)))).
       by intros. }
  unfold mbind at 1, M_bind at 1.
  pose proof (task_state_evolves t w) as Hev.
  pose proof (task_state_frame time_time t w) as (Ht & _).
  destruct (_task_state t w) as [state w1]. simpl in *.
  eapply evolves_trans; [exact Hev|].
  destruct (ts_cache_key state) as [key|].
  2: { apply (update_record_evolves t
         (λ now s, set_updated_at now
                     (set_error "'cache_key'" (set_status failed s)))).
       by intros. }
  unfold_world. simpl. by eapply evolves_insert.
Qed.

Lemma get_status_evolves t w :
  evolves (w_tasks w) (w_tasks (get_status t w).2).
Proof.
  unfold get_status. unfold_world.
  destruct (w_tasks w !! t) as [st|] eqn:Hst; simpl; [|apply evolves_refl].
  destruct (ts_artifact_path st) as [a|]; simpl; [|apply evolves_refl].
  destruct (truthy (ts_download_url st)); simpl; [apply evolves_refl|].
  destruct (decide (a = "")); simpl; [apply evolves_refl|].
  by eapply evolves_insert.
Qed.

Lemma submit_evolves req w :
  evolves (w_tasks w) (w_tasks (submit req w).2).
Proof.
  unfold_submit. unfold mbind at 1, M_bind at 1, get_world. simpl.
  destruct (if cache req then _ else _) as [entry|].
  - unfold mbind at 1, M_bind at 1.
    set (pick := if truthy (w_dedup w !! computeKey req) then _ else _).
    destruct (pick w) as [task_id w1] eqn:Hpick.
    assert (Hw1 : w_tasks w1 = w_tasks w).
    { subst pick. destruct (truthy _); unfold_world; by simplify_eq. }
    unfold mbind at 1, M_bind at 1, modify at 1.
    set (w2 := with_dedup _ w1).
    unfold mbind at 1, M_bind at 1.
    pose proof (task_state_then_store task_id w2) as H.
    destruct (_task_state task_id w2) as [state w3]. simpl in *.
    unfold_world. simpl. rewrite <- Hw1.
    apply (H (λ s, set_artifact_path (ce_path entry)
                     (set_updated_at (time_time (w_clock w3))
                        (set_progress 1 (set_status completed s))))).
    by intros.
  - destruct (w_dedup w !! computeKey req) as [task_id|].
    + unfold mbind, M_bind, mret, M_ret.
      pose proof (task_state_evolves task_id w) as H.
      by destruct (_task_state task_id w).
    + unfold mbind at 1, M_bind at 1, uuid4_hex at 1.
      unfold mbind at 1, M_bind at 1, modify at 1.
      set (w2 := with_dedup _ _).
      unfold mbind at 1, M_bind at 1.
      pose proof (task_state_then_store
                    (uuid_hex (uuid4_int (w_uuid w))) w2) as H.
      destruct (_task_state _ w2) as [state w3]. simpl in *.
      unfold_world. simpl.
      apply (H (set_request req (computeKey req))). by intros.
Qed.

Lemma exec_evolves o w : evolves (w_tasks w) (w_tasks (exec o w)).
Proof.
  destruct o as [req|t|t|t p msg|locks fetched|t outcome]; simpl.
  - apply submit_evolves.
  - apply get_status_evolves.
  - apply (update_record_evolves t
             (λ now s, set_updated_at now (set_status running s))).
    by intros.
  - apply (update_record_evolves t
             (λ now s, set_updated_at now
                (set_message msg
                   (set_progress (py_max 0 (py_min (99 # 100) p)) s)))).
    by intros.
  - apply evolves_refl.
  - apply run_end_evolves.
Qed.

Lemma exec_all_evolves ops w :
  evolves (w_tasks w) (w_tasks (exec_all ops w)).
Proof.
  revert w. induction ops as [|o ops IH]; intros w; simpl.
  - apply evolves_refl.
  - eapply evolves_trans; [apply exec_evolves|apply IH].
Qed.

(** X4. No operation of the process deletes a task record or changes
    its task id or its creation time: whatever [submit], [get_status],
    the head and tail of a task body and its progress callbacks do, in
    any order, a record that is in the table stays there with both. *)
Theorem records_are_never_deleted (ops : list Op) (w : World) (t : string)
    (st : TaskState) :
  w_tasks w !! t = Some st →
  ∃ st', w_tasks (exec_all ops w) !! t = Some st' ∧
         ts_task_id st' = ts_task_id st ∧
         ts_created_at st' = ts_created_at st.
Proof.
  intros Hst. pose proof (exec_all_evolves ops w t) as H.
  rewrite Hst in H. destruct H as (st' & Hst' & Hid & Hc). eauto.
Qed.

(** X5. The records that the process creates are stored under their
    own task id: when every record of the table carries the id it is
    stored under, so does every record after any sequence of
    operations. *)
Theorem records_carry_their_id (ops : list Op) (w : World) :
  map_Forall (λ t st, ts_task_id st = t) (w_tasks w) →
  map_Forall (λ t st, ts_task_id st = t) (w_tasks (exec_all ops w)).
Proof.
  intros Hw t st' Hst'. pose proof (exec_all_evolves ops w t) as H.
  destruct (w_tasks w !! t) as [st|] eqn:Hst.
  - destruct H as (st'' & E & Hid & _). simplify_eq.
    rewrite Hid. by apply (Hw t st).
  - by apply H.
Qed.
End TaskFacts.

(** ** A task body, whatever the record it finds *)

Section TaskBodyFacts.
Variable sha256_hexdigest : string → string.
Variable cfg : ServerSettings.
Variable uuid4_int : nat → N.
Variable time_time : nat → Q.
Variable artifact_size : Artifact → Z.

Local Abbreviation computeKey := (computeKey sha256_hexdigest).
Local Abbreviation _task_state := (_task_state time_time).
Local Abbreviation submit := (submit sha256_hexdigest cfg uuid4_int time_time).
Local Abbreviation progress_cb := (progress_cb time_time).
Local Abbreviation run_begin := (run_begin time_time).
Local Abbreviation run_failed := (run_failed time_time).
Local Abbreviation run_end := (run_end cfg time_time artifact_size).
Local Abbreviation deliver := (deliver time_time).
Local Abbreviation _run_task := (_run_task cfg time_time artifact_size).
Local Abbreviation update_record := (update_record time_time).
Local Abbreviation cache_lookup := (cache_lookup sha256_hexdigest cfg).

Lemma frame_refl t w : frame t w w.
Proof. by split_and!. Qed.

Lemma frame_trans t w1 w2 w3 : frame t w1 w2 → frame t w2 w3 → frame t w1 w3.
Proof.
  intros (Ht1 & ? & ? & ? & ? & ?) (Ht2 & ? & ? & ? & ? & ?).
  split_and!; try congruence.
  intros t' Hne. by rewrite Ht2, Ht1.
Qed.

Lemma update_record_frame t f w : frame t w (update_record t f w).2.
Proof.
  pose proof (update_record_spec time_time t f w) as (_ & H). exact H.
Qed.

(** The record that [update_record] stores: the update of the record it
    found, or of a fresh [queued] one. *)
Lemma update_record_stores t f w :
  ∃ s now, w_tasks (update_record t f w).2 !! t = Some (f now s) ∧
           match w_tasks w !! t with
           | Some s0 => s = s0
           | None => ∃ c u, s = queued_state t c u
           end.
Proof.
  pose proof (update_record_spec time_time t f w)
    as ((s & now & Ht & Hsame & Hnew) & _).
  exists s, now. split; [done|].
  destruct (w_tasks w !! t) as [s0|]; [by apply Hsame|by apply Hnew].
Qed.

Lemma deliver_frame t reports w : frame t w (deliver t reports w).2.
Proof.
  revert w. induction reports as [|[p msg] reports IH]; intros w.
  { apply frame_refl. }
  simpl. unfold mbind, M_bind.
  pose proof (update_record_frame t
    (λ now s, set_updated_at now
       (set_message msg (set_progress (py_max 0 (py_min (99 # 100) p)) s)))
    w) as Hfr.
  change (update_record t _ w) with (progress_cb t p msg w) in Hfr.
  destruct (progress_cb t p msg w) as [[] w1]. simpl in *.
  eapply frame_trans; [exact Hfr|apply IH].
Qed.

(** What [_run_task] does to the world, for any record (or none) under
    the task id. *)
Lemma run_task_spec (env : DownloadEnv) (t : string) (req : TaskRequest)
    (w : World) :
  let run := download_and_package env (path_join (work_dir cfg) t)
               (w_album_locks w) (download_params cfg req) in
  let w' := (_run_task env t req w).2 in
  (∀ t', t' ≠ t → w_tasks w' !! t' = w_tasks w !! t') ∧
  w_dedup w' = w_dedup w ∧ w_scheduled w' = w_scheduled w ∧
  w_album_locks w' = run_locks run ∧
  w_fetched w' = w_fetched w ++ run_fetched run ∧
  ∃ s', w_tasks w' !! t = Some s' ∧
        ts_cache_key s' = recorded_key w t ∧
        (∀ s, w_tasks w !! t = Some s → ts_request s' = ts_request s) ∧
        match run_outcome run, recorded_key w t with
        | Ok (res, a), Some key =>
            ts_status s' = completed ∧ ts_progress s' = 1%Q ∧
            ts_metadata s' = res_metadata res ∧
            ts_artifact_path s' =
              Some (path_join (cache_dir cfg)
                      (artifact_name key (res_suffix res))) ∧
            ∃ mtime,
              w_cache w' =
                Some (put_artifact cfg (w_cache w) key (res_suffix res)
                        mtime (artifact_size a)).1
        | Ok _, None =>
            ts_status s' = failed ∧ ts_error s' = Some "'cache_key'" ∧
            w_cache w' = w_cache w
        | Raise e, _ =>
            ts_status s' = failed ∧ ts_error s' = Some e ∧
            w_cache w' = w_cache w
        end.
Proof.
  simpl. set (run := download_and_package _ _ _ _).
  destruct (_run_task env t req w) as [u w'] eqn:Hrt. simpl.
  revert Hrt. unfold_run_task.
  unfold mbind at 1, M_bind at 1.
  pose proof (update_record_stores t
    (λ now s, set_updated_at now (set_status running s)) w)
    as (s0 & now & Ht1 & Hs0).
  pose proof (update_record_frame t
    (λ now s, set_updated_at now (set_status running s)) w)
    as (Ho1 & Hc1 & Hd1 & Hsc1 & Hl1 & Hf1).
  change (update_record t _ w) with (run_begin t w)
    in Ht1, Ho1, Hc1, Hd1, Hsc1, Hl1, Hf1.
  assert (Hkey0 : ts_cache_key s0 = recorded_key w t).
  { unfold recorded_key. destruct (w_tasks w !! t) as [s|]; simpl.
    - by subst.
    - by destruct Hs0 as (c & u0 & ->). }
  assert (Hreq0 : ∀ s, w_tasks w !! t = Some s → ts_request s0 = ts_request s).
  { intros s Hs. rewrite Hs in Hs0. by subst. }
  clear Hs0.
  destruct (run_begin t w) as [[] w1]. simpl in *.
  unfold mbind at 1, M_bind at 1, get_world. rewrite Hl1. fold run.
  unfold mbind at 1, M_bind at 1.
  destruct (deliver_spec time_time t (run_reports run) w1 _ Ht1)
    as (s2 & Hs2 & (_ & Hreq & Hck & Herr & Hart) & Hst2 & _).
  pose proof (deliver_frame t (run_reports run) w1)
    as (Ho2 & Hc2 & Hd2 & Hsc2 & Hl2 & Hf2).
  destruct (deliver t (run_reports run) w1) as [[] w2]. simpl in *.
  unfold mbind at 1, M_bind at 1, modify at 1.
  set (w3 := with_download _ _ w2).
  assert (Hs3 : w_tasks w3 !! t = Some s2) by done.
  assert (Hfail : ∀ e,
    let w' := (run_failed t e w3).2 in
    (∀ t', t' ≠ t → w_tasks w' !! t' = w_tasks w !! t') ∧
    w_dedup w' = w_dedup w ∧ w_scheduled w' = w_scheduled w ∧
    w_album_locks w' = run_locks run ∧
    w_fetched w' = w_fetched w ++ run_fetched run ∧
    ∃ s', w_tasks w' !! t = Some s' ∧
          ts_cache_key s' = recorded_key w t ∧
          (∀ s, w_tasks w !! t = Some s → ts_request s' = ts_request s) ∧
          ts_status s' = failed ∧ ts_error s' = Some e ∧
          w_cache w' = w_cache w).
  { intros e. simpl.
    pose proof (update_record_stores t
      (λ now s, set_updated_at now (set_error e (set_status failed s))) w3)
      as (s4 & now4 & Ht4 & Hs4).
    pose proof (update_record_frame t
      (λ now s, set_updated_at now (set_error e (set_status failed s))) w3)
      as (Ho4 & Hc4 & Hd4 & Hsc4 & Hl4 & Hf4).
    change (update_record t _ w3) with (run_failed t e w3)
      in Ht4, Ho4, Hc4, Hd4, Hsc4, Hl4, Hf4.
    rewrite Hs3 in Hs4. subst s4.
    split_and!.
    - intros t' Hne. rewrite Ho4 by done. simpl. rewrite Ho2, Ho1; done.
    - rewrite Hd4. simpl. congruence.
    - rewrite Hsc4. simpl. congruence.
    - by rewrite Hl4.
    - rewrite Hf4. simpl. congruence.
    - eexists. split; [exact Ht4|]. simpl. split_and!; try done.
      + congruence.
      + intros s Hs. rewrite Hreq. by apply Hreq0.
      + rewrite Hc4. simpl. congruence. }
  destruct (run_outcome run) as [[res a]|e]; simpl.
  - unfold mbind at 1, M_bind at 1.
    rewrite (task_state_some _ _ _ _ Hs3). rewrite Hck, Hkey0.
    destruct (recorded_key w t) as [key|] eqn:Hkey.
    + unfold mbind, M_bind, get_world, _now, modify, with_cache,
        set_task_state, with_tasks, put_artifact. simpl.
      intros [= <- <-]. simpl.
      rewrite lookup_insert_eq. split_and!; try congruence.
      * intros t' Hne. rewrite lookup_insert_ne by done.
        rewrite Ho2, Ho1; done.
      * eexists. split; [done|]. simpl. split_and!; try done.
        -- congruence.
        -- intros s Hs. rewrite Hreq. by apply Hreq0.
        -- eexists. rewrite Hc2, Hc1. done.
    + intros Hrt.
      assert (Hw' : w' = (run_failed t "'cache_key'" w3).2) by (by rewrite Hrt).
      subst w'.
      destruct (Hfail "'cache_key'") as (? & ? & ? & ? & ? & s' & ?).
      split_and!; try done. by exists s'.
  - intros Hrt.
    assert (Hw' : w' = (run_failed t e w3).2) by (by rewrite Hrt).
    subst w'.
    destruct (Hfail e) as (? & ? & ? & ? & ? & s' & ?).
    split_and!; try done. exists s'.
    destruct (recorded_key w t); done.
Qed.

(** X6. A task body always brings its record to an end: after
    [_run_task] the record is [completed] or [failed].  It is
    [completed] exactly when [download_and_package] returned and the
    record carried a cache key; then the progress is 1.0 and the key has
    an artifact in the store.  A [failed] record holds the error, and
    the artifact store is as it was.  This holds for any record under
    the task id, and when there is none. *)
Theorem run_task_always_ends (env : DownloadEnv) (t : string)
    (req : TaskRequest) (w : World) :
  let run := download_and_package env (path_join (work_dir cfg) t)
               (w_album_locks w) (download_params cfg req) in
  let w' := (_run_task env t req w).2 in
  ∃ s', w_tasks w' !! t = Some s' ∧
        terminal (ts_status s') ∧
        (ts_status s' = completed ↔
           is_Some (run_outcome_ok run) ∧ is_Some (recorded_key w t)) ∧
        (ts_status s' = completed →
           ts_progress s' = 1%Q ∧
           ∃ key, ts_cache_key s' = Some key ∧
                  is_Some (cached_artifact cfg (w_cache w') key)) ∧
        (ts_status s' = failed →
           is_Some (ts_error s') ∧ w_cache w' = w_cache w).
Proof.
  simpl.
  destruct (run_task_spec env t req w)
    as (_ & _ & _ & _ & _ & s' & Hs' & Hck & _ & Hout).
  exists s'. split; [done|]. unfold run_outcome_ok, terminal.
  destruct (run_outcome _) as [[res a]|e].
  - destruct (recorded_key w t) as [key|].
    + destruct Hout as (Hst & Hp & _ & _ & mtime & Hcache).
      rewrite Hst. split_and!.
      * by left.
      * split; [by eauto|done].
      * intros _. split; [done|]. exists key. split; [done|].
        rewrite Hcache. unfold put_artifact. simpl.
        apply glob_first_write_some.
        rewrite <- string_app_assoc. apply string_prefix_app.
      * done.
    + destruct Hout as (Hst & He & Hcache).
      rewrite Hst. split_and!.
      * by right.
      * split; [done|]. by intros [_ [? ?]].
      * done.
      * intros _. by rewrite He.
  - destruct Hout as (Hst & He & Hcache).
    rewrite Hst. split_and!.
    + by right.
    + split; [done|]. by intros [[? ?] _].
    + done.
    + intros _. by rewrite He.
Qed.

Lemma put_artifact_fresh (dir : option (list CacheFile))
    (key suffix : string) (mtime : Q) (size : Z) :
  cached_artifact cfg dir key = None →
  cached_artifact cfg (Some (put_artifact cfg dir key suffix mtime size).1) key
  = Some {| ce_key := key;
            ce_path := path_join (cache_dir cfg) (artifact_name key suffix);
            ce_created_at := mtime; ce_size := size |}.
Proof.
  intros Hnone. unfold put_artifact. simpl.
  apply (glob_first_write_new cfg key _ (mtime, size)).
  - rewrite <- string_app_assoc. apply string_prefix_app.
  - destruct dir as [files|]; [exact Hnone|done].
Qed.

(** The cache-hit branch of [submit] when the key is bound to a task
    that has a record: the record is updated in place. *)
Lemma submit_cache_hit_known (req : TaskRequest) (w : World)
    (entry : CacheEntry) (t : string) (s : TaskState) resp w' :
  cache_lookup req w = Some entry →
  w_dedup w !! computeKey req = Some t →
  t ≠ "" →
  w_tasks w !! t = Some s →
  submit req w = (resp, w') →
  resp = {| resp_task_id := t; resp_status := completed;
            resp_duplicate := true |} ∧
  w_tasks w' !! t =
    Some (set_artifact_path (ce_path entry)
            (set_updated_at (time_time (w_clock w))
               (set_progress 1 (set_status completed s)))) ∧
  frame t w w'.
Proof.
  unfold_cache_lookup. intros He Hd Hne Hs. unfold_submit.
  unfold mbind at 1, M_bind at 1, get_world. simpl. rewrite He, Hd.
  simpl. destruct (decide (t = "")) as [|_]; [done|].
  unfold mbind at 1, M_bind at 1, mret at 1, M_ret at 1.
  unfold mbind at 1, M_bind at 1, modify at 1.
  set (w2 := with_dedup _ w).
  assert (Hs2 : w_tasks w2 !! t = Some s) by done.
  unfold mbind at 1, M_bind at 1.
  rewrite (task_state_some _ _ _ _ Hs2).
  unfold mbind, M_bind, mret, M_ret, _now, set_task_state, modify,
    with_tasks. simpl.
  intros [= <- <-]. simpl. rewrite lookup_insert_eq.
  split_and!; try done.
  split_and!; simpl; try done.
  - intros t' Hne'. by rewrite lookup_insert_ne.
  - by rewrite insert_id.
Qed.

(** X7. From submission to cache hit.  A request that finds neither an
    artifact nor a task for its key is queued under a fresh id and
    scheduled once.  When its body has run and [download_and_package]
    returned, a later request with the same key and cache use enabled
    is answered [completed] and duplicate under that same id, with the
    published artifact; nothing more is scheduled and nothing more is
    fetched. *)
Theorem submit_run_resubmit (env : DownloadEnv) (req req' : TaskRequest)
    (w : World) (res : DownloadResult) (a : Artifact) :
  cached_artifact cfg (w_cache w) (computeKey req) = None →
  w_dedup w !! computeKey req = None →
  run_outcome
    (download_and_package env
       (path_join (work_dir cfg) (uuid_hex (uuid4_int (w_uuid w))))
       (w_album_locks w) (download_params cfg req)) = Ok (res, a) →
  cache req' = true →
  computeKey req' = computeKey req →
  let first := submit req w in
  let t := resp_task_id first.1 in
  let after := (_run_task env t req first.2).2 in
  let again := submit req' after in
  first.1 = {| resp_task_id := t; resp_status := queued;
               resp_duplicate := false |} ∧
  again.1 = {| resp_task_id := t; resp_status := completed;
               resp_duplicate := true |} ∧
  w_scheduled again.2 = w_scheduled w ++ [(t, req)] ∧
  w_fetched again.2 = w_fetched after ∧
  ∃ st, w_tasks again.2 !! t = Some st ∧
        ts_status st = completed ∧
        ts_request st = Some req ∧
        ts_artifact_path st =
          Some (path_join (cache_dir cfg)
                  (artifact_name (computeKey req) (res_suffix res))).
Proof.
  intros Hnone Hd Hrun Hc' Hk. simpl.
  assert (Hl : cache_lookup req w = None).
  { unfold_cache_lookup. rewrite Hnone. by destruct (cache req). }
  destruct (submit req w) as [resp w1] eqn:Hsub.
  destruct (submit_new_eq _ _ _ _ _ _ _ _ Hl Hd Hsub)
    as (-> & (st1 & Hst1 & Hreq1 & Hkey1) & _ & Hd1 & Hsc1 & Hl1 & Hf1 & Hc1).
  simpl in *. set (t := uuid_hex (uuid4_int (w_uuid w))) in *.
  split; [done|].
  destruct (run_task_spec env t req w1)
    as (_ & Hd2 & Hsc2 & _ & _ & s2 & Hs2 & Hck2 & Hreq2 & Hout).
  unfold recorded_key in Hck2, Hout. rewrite Hst1 in Hck2, Hout.
  simpl in Hck2, Hout. rewrite Hkey1 in Hck2, Hout.
  rewrite Hl1, Hrun in Hout.
  destruct Hout as (Hst2 & _ & _ & Hart2 & mtime & Hcache2).
  set (w2 := (_run_task env t req w1).2) in *.
  assert (Hentry : cache_lookup req' w2 =
    Some {| ce_key := computeKey req;
            ce_path := path_join (cache_dir cfg)
                         (artifact_name (computeKey req) (res_suffix res));
            ce_created_at := mtime; ce_size := artifact_size a |}).
  { unfold_cache_lookup. rewrite Hc', Hk, Hcache2, Hc1.
    by apply put_artifact_fresh. }
  assert (Hdedup : w_dedup w2 !! computeKey req' = Some t).
  { rewrite Hk, Hd2, Hd1. by rewrite lookup_insert_eq. }
  assert (Hrec2 : ts_request s2 = Some req).
  { rewrite (Hreq2 _ Hst1). done. }
  destruct (submit req' w2) as [resp3 w3] eqn:Hsub3.
  destruct (submit_cache_hit_known _ _ _ _ _ _ _ Hentry Hdedup
              (uuid_hex_nonempty _) Hs2 Hsub3)
    as (-> & Hs3 & _ & _ & _ & Hsc3 & _ & Hf3).
  simpl. split_and!; try done.
  - congruence.
  - eexists. split; [exact Hs3|]. simpl. by split_and!.
Qed.
End TaskBodyFacts.

(** ** Reading a task and fetching its artifact *)

Section EndpointFacts.
Variable sha256_hexdigest : string → string.
Variable cfg : ServerSettings.
Variable uuid4_int : nat → N.
Variable time_time : nat → Q.

Local Abbreviation computeKey := (computeKey sha256_hexdigest).
Local Abbreviation _task_state := (_task_state time_time).
Local Abbreviation submit := (submit sha256_hexdigest cfg uuid4_int time_time).
Local Abbreviation cache_lookup := (cache_lookup sha256_hexdigest cfg).

(** [get_status] on a record that has an artifact and no download URL
    yet. *)
Lemma get_status_derives_url (t : string) (w : World) (st : TaskState)
    (p : string) :
  w_tasks w !! t = Some st →
  ts_artifact_path st = Some p →
  p ≠ "" →
  truthy (ts_download_url st) = false →
  let st' := set_download_url
               ("/tasks/" +:+ t +:+ "/download/" +:+ basename p) st in
  get_status t w =
    (Some (match ts_request st with
           | Some _ => Ok st'
           | None => Raise "request: Field required"
           end),
     with_tasks <[t := st']> w).
Proof.
  intros Hst Hp Hne Hurl. simpl. unfold get_status.
  unfold mbind at 1, M_bind at 1, get_task_state. rewrite Hst.
  rewrite Hp, Hurl. destruct (decide (p = "")) as [|_]; [done|].
  unfold mbind, M_bind, mret, M_ret, set_task_state, modify. simpl.
  done.
Qed.

(** [get_status] on a record whose download URL is set, or that has no
    artifact. *)
Lemma get_status_reads (t : string) (w : World) (st : TaskState) :
  w_tasks w !! t = Some st →
  truthy (ts_download_url st) = true ∨ truthy (ts_artifact_path st) = false →
  get_status t w =
    (Some (match ts_request st with
           | Some _ => Ok st
           | None => Raise "request: Field required"
           end), w).
Proof.
  intros Hst Hcase. unfold get_status.
  unfold mbind at 1, M_bind at 1, get_task_state. rewrite Hst.
  destruct (ts_artifact_path st) as [a|] eqn:Ha; simpl.
  - destruct Hcase as [Hurl|Hart].
    + by rewrite Hurl.
    + destruct (truthy (ts_download_url st)); [done|].
      simpl in Hart. by destruct (decide (a = "")).
  - done.
Qed.

Lemma download_url_truthy (t name : string) :
  truthy (Some ("/tasks/" +:+ t +:+ "/download/" +:+ name)) = true.
Proof. done. Qed.

(** X8. The download URL that [get_status] derives names the one file
    name that the download endpoint accepts: for a record with a
    request, an artifact path and no URL yet, the answer carries
    [/tasks/{task_id}/download/{name of the artifact}]; the endpoint
    then sends the artifact for that file name when the file exists,
    and answers 404 for every other name.  The URL is derived once: a
    second [get_status] gives the same answer and writes nothing. *)
Theorem download_url_resolves (exists_ : string → bool) (t : string)
    (w : World) (st : TaskState) (req : TaskRequest) (p : string) :
  w_tasks w !! t = Some st →
  ts_request st = Some req →
  ts_artifact_path st = Some p →
  p ≠ "" →
  truthy (ts_download_url st) = false →
  let read := get_status t w in
  (∃ st', read.1 = Some (Ok st') ∧
          ts_download_url st' =
            Some ("/tasks/" +:+ t +:+ "/download/" +:+ basename p)) ∧
  get_status t read.2 = read ∧
  ∀ filename,
    (download_artifact exists_ t filename read.2).1 =
      if exists_ p && bool_decide (basename p = filename)
      then Sent {| file_path := p; file_filename := basename p |}
      else HTTPException 404 "File not found".
Proof.
  intros Hst Hreq Hp Hne Hurl. simpl.
  rewrite (get_status_derives_url t w st p Hst Hp Hne Hurl). rewrite Hreq.
  simpl. set (st' := set_download_url _ st). set (w' := with_tasks _ w).
  assert (Hst' : w_tasks w' !! t = Some st').
  { subst w'. unfold with_tasks. simpl. by rewrite lookup_insert_eq. }
  assert (Hread : get_status t w' = (Some (Ok st'), w')).
  { rewrite (get_status_reads t w' st' Hst');
      [by subst st'; simpl; rewrite Hreq|].
    left. apply download_url_truthy. }
  split_and!.
  - by exists st'.
  - done.
  - intros filename. unfold download_artifact, mbind, M_bind, mret, M_ret.
    rewrite Hread. simpl. rewrite Hp. simpl.
    destruct (decide (p = "")) as [|_]; [done|]. simpl.
    destruct (exists_ p); simpl; [|done].
    by destruct (bool_decide (basename p = filename)).
Qed.

(** X9. A cache hit for a key that has no task gives out a task id that
    cannot be read.  The record made for it has no [request], which the
    status model requires: [GET /tasks/{task_id}] and the download
    endpoint both end in an exception that nobody handles, although
    [submit] answered [completed]. *)
Theorem cache_hit_task_cannot_be_read (exists_ : string → bool)
    (req : TaskRequest) (w : World) (entry : CacheEntry) :
  cache req = true →
  cached_artifact cfg (w_cache w) (computeKey req) = Some entry →
  w_dedup w !! computeKey req = None →
  w_tasks w !! uuid_hex (uuid4_int (w_uuid w)) = None →
  let answer := submit req w in
  let t := resp_task_id answer.1 in
  resp_status answer.1 = completed ∧
  (∃ msg, (get_task t answer.2).1 = Unhandled msg) ∧
  (∀ filename,
     ∃ msg, (download_artifact exists_ t filename answer.2).1 = Unhandled msg).
Proof.
  intros Hc He Hd Hfresh. simpl.
  assert (Hsub : ∃ st w',
    submit req w =
      ({| resp_task_id := uuid_hex (uuid4_int (w_uuid w));
          resp_status := completed; resp_duplicate := true |}, w') ∧
    w_tasks w' !! uuid_hex (uuid4_int (w_uuid w)) = Some st ∧
    ts_request st = None).
  { unfold_submit. unfold mbind at 1, M_bind at 1, get_world. simpl.
    rewrite Hc, He, Hd. simpl.
    unfold mbind at 1, M_bind at 1, uuid4_hex at 1.
    unfold mbind at 1, M_bind at 1, modify at 1.
    set (w2 := with_dedup _ _).
    assert (Hf2 : w_tasks w2 !! uuid_hex (uuid4_int (w_uuid w)) = None)
      by done.
    unfold mbind at 1, M_bind at 1.
    rewrite (task_state_none _ _ _ Hf2).
    unfold mbind, M_bind, mret, M_ret, _now, set_task_state, modify,
      with_tasks. simpl.
    eexists _, _. split; [done|]. simpl. rewrite lookup_insert_eq.
    by split. }
  destruct Hsub as (st & w' & -> & Hst & Hreq). simpl.
  assert (Hread : ∃ w'', get_status (uuid_hex (uuid4_int (w_uuid w))) w'
                         = (Some (Raise "request: Field required"), w'')).
  { destruct (truthy (ts_artifact_path st)) eqn:Hart.
    - destruct (truthy (ts_download_url st)) eqn:Hurl.
      + rewrite (get_status_reads _ _ _ Hst); [|by left].
        rewrite Hreq. eauto.
      + apply truthy_spec in Hart as (p & Hp & Hne).
        rewrite (get_status_derives_url _ _ _ _ Hst Hp Hne Hurl).
        rewrite Hreq. eauto.
    - rewrite (get_status_reads _ _ _ Hst); [|by right].
      rewrite Hreq. eauto. }
  destruct Hread as (w'' & Hread).
  split_and!; [done| |].
  - unfold get_task, mbind, M_bind, mret, M_ret. rewrite Hread. eauto.
  - intros filename.
    unfold download_artifact, mbind, M_bind, mret, M_ret. rewrite Hread.
    eauto.
Qed.
End EndpointFacts.

(** ** What a download run reports *)

Section Reports.
(** A property of every report that is not the last one of a run that
    returns. *)
Variable P : Q * string → Prop.
Variable n : nat.
Hypothesis P_download : ∀ i aid,
  (1 ≤ i ≤ n)%nat → P (download_progress i n, "download " +:+ aid).
Hypothesis P_meta : ∀ m, P (1 # 10, "meta " +:+ m).
Hypothesis P_image : ∀ stage i,
  P (2 # 10, "image " +:+ ImageStage_str stage +:+ " " +:+ i).
Hypothesis P_collect : P (5 # 10, "collect images").
Hypothesis P_reencode : ∀ q, P (55 # 100, "re-encode quality=" +:+ q).
Hypothesis P_zip : P (75 # 100, "zip").
Hypothesis P_pdf : P (75 # 100, "pdf").

Lemma report_Forall p msg st :
  Forall P (dl_reports st) → P (p, msg) →
  Forall P (dl_reports (report p msg st)).
Proof. intros H Hp. simpl. apply Forall_app. by split; [|constructor]. Qed.

Lemma on_event_Forall e st :
  Forall P (dl_reports st) → Forall P (dl_reports (on_event e st)).
Proof.
  intros H. destruct e as [meta|stage info]; simpl.
  - apply Forall_app. split; [done|]. constructor; [apply P_meta|done].
  - unfold on_image_event. destruct (decide _); [done|].
    destruct (info_image_id info) as [i|].
    + apply report_Forall; [by destruct stage|apply P_image].
    + by destruct stage.
Qed.

Lemma events_Forall events st :
  Forall P (dl_reports st) →
  Forall P (dl_reports (foldl (λ s e, on_event e s) st events)).
Proof.
  revert st. induction events as [|e events IH]; intros st H; simpl; [done|].
  by apply IH, on_event_Forall.
Qed.

Lemma fetch_album_Forall env idx aid st :
  (1 ≤ idx ≤ n)%nat →
  Forall P (dl_reports st) →
  Forall P (dl_reports (fetch_album env n idx aid st).1).
Proof.
  intros Hidx H. unfold fetch_album. cbv zeta.
  assert (H2 : ∀ st2, dl_reports st2
                      = dl_reports st
                        ++ [(download_progress idx n, "download " +:+ aid)] →
                      Forall P (dl_reports st2)).
  { intros st2 ->. apply Forall_app. split; [done|].
    constructor; [by apply P_download|done]. }
  destruct (fr_raises _); simpl; apply events_Forall, H2; done.
Qed.

Lemma fetch_loop_Forall env idx aids st :
  (1 ≤ idx)%nat → (idx + length aids ≤ S n)%nat →
  Forall P (dl_reports st) →
  Forall P (dl_reports (fetch_loop env n idx aids st).1).
Proof.
  revert idx st. induction aids as [|aid aids IH]; intros idx st H1 Hn H;
    simpl; [done|].
  simpl in Hn.
  pose proof (fetch_album_Forall env idx aid st ltac:(lia) H) as Ha.
  destruct (fetch_album env n idx aid st) as [st' [e|]]; simpl in *; [done|].
  apply IH; [lia|lia|done].
Qed.

Lemma package_shape env task_work params aids st images src_root :
  Forall P (dl_reports st) →
  let run := package env task_work params aids st images src_root in
  ∃ pre, Forall P pre ∧
         run_reports run =
           pre ++ match run_outcome run with
                  | Ok _ => [(95 # 100, "finalize")]
                  | Raise _ => []
                  end.
Proof.
  intros H. simpl. unfold package.
  destruct (decide _); simpl.
  - eexists. split; [|done]. apply Forall_app. split; [done|].
    by constructor.
  - destruct (_make_pdf _ _ _) as [a|e]; simpl.
    + eexists. split; [|done]. apply Forall_app. split; [done|].
      by constructor.
    + eexists. split; [|by rewrite app_nil_r]. apply Forall_app.
      split; [done|]. by constructor.
Qed.
End Reports.

(** The reports of a run: every one but the last of a run that returns
    is of the kinds of the download loop, the callbacks and the
    packaging steps; a run that returns ends with [finalize]. *)
Lemma download_shape (P : Q * string → Prop) (env : DownloadEnv)
    (task_work : string) (locks : gmap string nat) (params : DownloadParams) :
  (∀ i aid, (1 ≤ i ≤ length (dp_album_ids params))%nat →
            P (download_progress i (length (dp_album_ids params)),
               "download " +:+ aid)) →
  (∀ m, P (1 # 10, "meta " +:+ m)) →
  (∀ stage i, P (2 # 10, "image " +:+ ImageStage_str stage +:+ " " +:+ i)) →
  P (5 # 10, "collect images") →
  (∀ q, P (55 # 100, "re-encode quality=" +:+ q)) →
  P (75 # 100, "zip") →
  P (75 # 100, "pdf") →
  let run := download_and_package env task_work locks params in
  ∃ pre, Forall P pre ∧
         run_reports run =
           pre ++ match run_outcome run with
                  | Ok _ => [(95 # 100, "finalize")]
                  | Raise _ => []
                  end.
Proof.
  intros Hd Hm Hi Hc Hr Hz Hp. simpl. unfold download_and_package.
  set (aids := str <$> dp_album_ids params).
  assert (Hlen : length aids = length (dp_album_ids params)).
  { subst aids. by rewrite length_fmap. }
  rewrite Hlen.
  set (st0 := {| dl_reports := [] |}).
  pose proof (fetch_loop_Forall P _ Hd Hm Hi env 1 aids st0
                ltac:(lia) ltac:(lia) ltac:(constructor)) as Hloop.
  destruct (fetch_loop env _ 1 aids st0) as [st [e|]]; simpl in *.
  { exists (dl_reports st). by rewrite app_nil_r. }
  set (st1 := report (5 # 10) "collect images" st).
  assert (H1 : Forall P (dl_reports st1)).
  { by apply report_Forall. }
  destruct (dp_quality params) as [q|].
  - set (st2 := report _ _ st1).
    assert (H2 : Forall P (dl_reports st2)) by (by apply report_Forall).
    destruct (_reencode_images _ _ _) as [images|e]; simpl.
    + by apply (package_shape P Hz Hp).
    + exists (dl_reports st2). by rewrite app_nil_r.
  - by apply (package_shape P Hz Hp).
Qed.

Lemma clamp_is_identity (p : Q) :
  (5 # 100 <= p <= 95 # 100)%Q → py_max 0 (py_min (99 # 100) p) = p.
Proof.
  intros [Hlo Hhi]. unfold py_min, py_max.
  destruct (Qlt_le_dec p (99 # 100)) as [_|H].
  - destruct (Qlt_le_dec 0 p) as [_|H]; [done|].
    exfalso. unfold Qle in *. simpl in *. lia.
  - exfalso. unfold Qle in *. simpl in *. lia.
Qed.

(** X10. The values that [download_and_package] reports lie between
    0.05 and 0.95, whatever the fetch collaborator does, so the clamp
    of the progress callback to [0, 0.99] never alters one: the record
    of the task shows the reported value and message as they are. *)
Theorem reports_are_stored_as_reported (time_time : nat → Q)
    (env : DownloadEnv) (task_work : string) (locks : gmap string nat)
    (params : DownloadParams) (t : string) (w : World) (p : Q)
    (msg : string) :
  (p, msg) ∈ run_reports (download_and_package env task_work locks params) →
  (5 # 100 <= p <= 95 # 100)%Q ∧
  ∃ s', w_tasks (progress_cb time_time t p msg w).2 !! t = Some s' ∧
        ts_progress s' = p ∧ ts_message s' = Some msg.
Proof.
  intros Hin.
  assert (Hrange : (5 # 100 <= p <= 95 # 100)%Q).
  { destruct (download_shape (λ r, (5 # 100 <= r.1 <= 95 # 100)%Q)
                env task_work locks params) as (pre & Hpre & Hrep).
    - intros i aid Hi. simpl. split; [apply download_progress_ge|].
      eapply Qle_trans; [apply download_progress_le; lia|done].
    - done.
    - done.
    - done.
    - done.
    - done.
    - done.
    - rewrite Hrep in Hin. apply elem_of_app in Hin as [Hin|Hin].
      + rewrite Forall_forall in Hpre. apply (Hpre _ Hin).
      + destruct (run_outcome _); [|by apply elem_of_nil in Hin].
        apply list_elem_of_singleton in Hin as [= -> ->]. done. }
  split; [done|].
  destruct (update_record_spec time_time t
    (λ now s, set_updated_at now
       (set_message msg (set_progress (py_max 0 (py_min (99 # 100) p)) s)))
    w) as ((s & now & Hs & _) & _).
  eexists. split; [exact Hs|]. simpl. split; [|done].
  by apply clamp_is_identity.
Qed.

(** X11. [finalize] is reported exactly when the run returns: a run
    that returns reports it once, as its last report; a run that
    raises never reports it. *)
Theorem finalize_is_reported_iff_returned (env : DownloadEnv)
    (task_work : string) (locks : gmap string nat) (params : DownloadParams) :
  let run := download_and_package env task_work locks params in
  match run_outcome run with
  | Ok _ =>
      ∃ earlier, run_reports run = earlier ++ [(95 # 100, "finalize")] ∧
                 Forall (λ r, r.2 ≠ "finalize") earlier
  | Raise _ => Forall (λ r, r.2 ≠ "finalize") (run_reports run)
  end.
Proof.
  simpl.
  destruct (download_shape (λ r, r.2 ≠ "finalize")
              env task_work locks params) as (pre & Hpre & Hrep);
    try done.
  destruct (run_outcome _).
  - by exists pre.
  - by rewrite Hrep, app_nil_r.
Qed.

(** ** What a download run packages *)

Lemma package_kind env task_work params aids st images src_root res a :
  run_outcome (package env task_work params aids st images src_root)
    = Ok (res, a) →
  res_album_ids res = aids ∧
  if decide (dp_output_format params = "zip")
  then res_suffix res = "zip" ∧
       ∃ pw entries,
         a = ZipFile (if bool_decide (7 ≤ dp_compression params)%Z
                      then ZIP_LZMA else ZIP_DEFLATED) pw entries
  else res_suffix res = "pdf" ∧ ∃ pw pages, a = PdfFile pw pages.
Proof.
  unfold package. destruct (decide _); simpl.
  - intros [= <- <-]. simpl. split; [done|]. split; [done|].
    unfold _make_zip. eauto.
  - unfold _make_pdf. destruct (forallb _ _); [|done].
    destruct (env_img2pdf_error _ _); [done|].
    intros [= <- <-]. simpl. eauto.
Qed.

Lemma download_kind env task_work locks params res a :
  run_outcome (download_and_package env task_work locks params) = Ok (res, a) →
  res_album_ids res = str <$> dp_album_ids params ∧
  if decide (dp_output_format params = "zip")
  then res_suffix res = "zip" ∧
       ∃ pw entries,
         a = ZipFile (if bool_decide (7 ≤ dp_compression params)%Z
                      then ZIP_LZMA else ZIP_DEFLATED) pw entries
  else res_suffix res = "pdf" ∧ ∃ pw pages, a = PdfFile pw pages.
Proof.
  unfold download_and_package.
  destruct (fetch_loop _ _ _ _ _) as [st [e|]]; [done|].
  destruct (dp_quality params) as [q|].
  - destruct (_reencode_images _ _ _) as [images|e]; [|done].
    apply package_kind.
  - apply package_kind.
Qed.

Lemma compression_or_6_lzma (c : option Z) :
  (7 ≤ compression_or_6 c)%Z ↔ ∃ z, c = Some z ∧ (7 ≤ z)%Z.
Proof.
  unfold compression_or_6. destruct c as [z|].
  - destruct (decide (z = 0%Z)) as [->|Hz].
    + split; [lia|]. intros (z & [= <-] & Hz). lia.
    + split; [eauto|]. by intros (z' & [= <-] & Hz').
  - split; [lia|]. by intros (z & ? & _).
Qed.

(** X12. The artifact is of the kind that the request asks for.  When
    the run of a task returns, the suffix of its result is the value of
    the requested format and the album ids are those of the request as
    strings; for [zip] the artifact is an archive, written with LZMA
    exactly when the request gives a compression level of 7 or more
    (no level, and level 0, mean 6), and for [pdf] it is a document. *)
Theorem artifact_follows_request (cfg : ServerSettings) (env : DownloadEnv)
    (task_work : string) (locks : gmap string nat) (req : TaskRequest)
    (res : DownloadResult) (a : Artifact) :
  run_outcome (download_and_package env task_work locks
                 (download_params cfg req)) = Ok (res, a) →
  res_suffix res = OutputFormat_value (output_format req) ∧
  res_album_ids res = str <$> album_ids req ∧
  match output_format req with
  | zip => ∃ method pw entries,
             a = ZipFile method pw entries ∧
             (method = ZIP_LZMA ↔
                ∃ z, compression req = Some z ∧ (7 ≤ z)%Z)
  | pdf => ∃ pw pages, a = PdfFile pw pages
  end.
Proof.
  intros Hrun. destruct (download_kind _ _ _ _ _ _ Hrun) as (Hids & Hkind).
  simpl in Hids, Hkind.
  assert (Hids' : res_album_ids res = str <$> album_ids req).
  { rewrite Hids, <- list_fmap_compose. by apply list_fmap_ext. }
  destruct (output_format req); simpl in Hkind |- *.
  - destruct Hkind as (Hs & pw & entries & ->). split_and!; try done.
    eexists _, pw, entries. split; [done|].
    rewrite <- compression_or_6_lzma. case_bool_decide; split; done.
  - destruct Hkind as (Hs & pw & pages & ->). split_and!; eauto.
Qed.

(** X13. The artifact is encrypted exactly when the request sets
    [encrypt] and brings a non-empty password, and then under that
    password.  A password without [encrypt] is ignored; [encrypt]
    without a password, or with an empty one, gives a plain artifact. *)
Theorem artifact_encrypted_iff (cfg : ServerSettings) (env : DownloadEnv)
    (task_work : string) (locks : gmap string nat) (req : TaskRequest)
    (res : DownloadResult) (a : Artifact) (pw : string) :
  run_outcome (download_and_package env task_work locks
                 (download_params cfg req)) = Ok (res, a) →
  artifact_password a = Some pw ↔
  encrypt req = true ∧ password req = Some pw ∧ pw ≠ "".
Proof.
  intros Hrun. rewrite (download_password _ _ _ _ _ _ Hrun).
  unfold packaging_password. simpl.
  destruct (encrypt req); simpl.
  - destruct (password req) as [p|]; simpl.
    + destruct (decide (p = "")) as [->|Hne].
      * split; [done|]. by intros (_ & [= <-] & ?).
      * split; [by intros [= <-]|]. by intros (_ & [= <-] & _).
    + split; [done|]. by intros (_ & ? & _).
  - split; [done|]. by intros (? & _).
Qed.

(** ** The album locks and the fetches of a run *)

Lemma on_event_locks e st :
  dl_locks (on_event e st) = dl_locks st ∧
  dl_fetched (on_event e st) = dl_fetched st.
Proof.
  destruct e as [meta|stage info]; simpl; [done|].
  unfold on_image_event. destruct (decide _); [done|].
  by destruct (info_image_id info), stage.
Qed.

Lemma events_locks events st :
  dl_locks (foldl (λ s e, on_event e s) st events) = dl_locks st ∧
  dl_fetched (foldl (λ s e, on_event e s) st events) = dl_fetched st.
Proof.
  revert st. induction events as [|e events IH]; intros st; simpl; [done|].
  destruct (IH (on_event e st)) as [-> ->]. apply on_event_locks.
Qed.

Lemma get_album_lock_spec (aid : string) (locks : gmap string nat) :
  let locks' := (_get_album_lock aid locks).2 in
  locks' !! aid = Some (_get_album_lock aid locks).1 ∧
  (∀ a l, locks !! a = Some l → locks' !! a = Some l) ∧
  (∀ a, is_Some (locks' !! a) → is_Some (locks !! a) ∨ a = aid).
Proof.
  simpl. unfold _get_album_lock.
  destruct (locks !! aid) as [l|] eqn:H; simpl.
  - split_and!; [done|done|eauto].
  - split_and!.
    + by rewrite lookup_insert_eq.
    + intros a l Ha. rewrite lookup_insert_ne; [done|]. by intros <-; simplify_eq.
    + intros a Ha. destruct (decide (a = aid)) as [->|Hne]; [by right|].
      rewrite lookup_insert_ne in Ha by done. by left.
Qed.

Lemma fetch_album_grown env n idx aid st locks aids :
  aid ∈ aids →
  locks_grown locks aids st →
  locks_grown locks aids (fetch_album env n idx aid st).1.
Proof.
  intros Hin (Hkeep & Hfetched & Hnew & Hsub). unfold fetch_album. cbv zeta.
  assert (H : ∀ st', dl_locks st' = (_get_album_lock aid (dl_locks st)).2 →
                     (dl_fetched st' = dl_fetched st ++ [aid] ∨
                      dl_fetched st' = (dl_fetched st ++ [aid]) ++ [aid]) →
                     locks_grown locks aids st').
  { intros st' Hl Hf.
    destruct (get_album_lock_spec aid (dl_locks st)) as (Haid & Hold & Hcreated).
    assert (Hmem : ∀ a, a ∈ dl_fetched st' ↔ a ∈ dl_fetched st ∨ a = aid).
    { intros a. destruct Hf as [-> | ->];
        rewrite ?elem_of_app, !list_elem_of_singleton; tauto. }
    unfold locks_grown. rewrite Hl. split_and!.
    - intros a l Ha. by apply Hold, Hkeep.
    - intros a [Ha| ->]%Hmem.
      + destruct (Hfetched a Ha) as [l Hl']. exists l. by apply Hold.
      + eauto.
    - intros a Ha. rewrite Hmem.
      destruct (Hcreated a Ha) as [Ha'| ->]; [|by eauto].
      destruct (Hnew a Ha'); eauto.
    - intros a [Ha| ->]%Hmem; [by apply Hsub|done]. }
  pose proof (events_locks (fr_events (env_fetch env idx aid))) as Hev.
  destruct (fr_raises _); simpl; apply H; simpl;
    match goal with
    | |- context [foldl _ ?s _] =>
        destruct (Hev s) as [E1 E2]; rewrite ?E1, ?E2
    end; simpl; auto.
Qed.

Lemma fetch_loop_grown env n idx rest st locks aids :
  (∀ a, a ∈ rest → a ∈ aids) →
  locks_grown locks aids st →
  locks_grown locks aids (fetch_loop env n idx rest st).1.
Proof.
  revert idx st. induction rest as [|aid rest IH]; intros idx st Hsub H;
    simpl; [done|].
  pose proof (fetch_album_grown env n idx aid st locks aids
                ltac:(apply Hsub; left) H) as Ha.
  destruct (fetch_album env n idx aid st) as [st' [e|]]; simpl in *; [done|].
  apply IH; [|done]. intros a Hin. apply Hsub. by right.
Qed.

Lemma package_locks env task_work params aids st images src_root :
  let run := package env task_work params aids st images src_root in
  run_locks run = dl_locks st ∧ run_fetched run = dl_fetched st.
Proof.
  simpl. unfold package. destruct (decide _); simpl; [done|].
  by destruct (_make_pdf _ _ _).
Qed.

(** X14. The lock table only grows during a run (when no other run
    interleaves): a lock that is bound to an album stays bound to it,
    every album that is fetched has a lock afterwards, a lock is added
    only for an album that is fetched, and only albums of the request
    are fetched. *)
Theorem album_locks_are_kept (env : DownloadEnv) (task_work : string)
    (locks : gmap string nat) (params : DownloadParams) :
  let run := download_and_package env task_work locks params in
  (∀ a l, locks !! a = Some l → run_locks run !! a = Some l) ∧
  (∀ a, a ∈ run_fetched run → is_Some (run_locks run !! a)) ∧
  (∀ a, is_Some (run_locks run !! a) →
        is_Some (locks !! a) ∨ a ∈ run_fetched run) ∧
  (∀ a, a ∈ run_fetched run → a ∈ str <$> dp_album_ids params).
Proof.
  simpl. unfold download_and_package.
  set (aids := str <$> dp_album_ids params).
  set (st0 := {| dl_reports := [] |}).
  assert (H0 : locks_grown locks aids st0).
  { unfold locks_grown. simpl. split_and!; try done.
    - by intros a Ha%elem_of_nil.
    - eauto.
    - by intros a Ha%elem_of_nil. }
  pose proof (fetch_loop_grown env (length aids) 1 aids st0 locks aids
                ltac:(done) H0) as Hloop.
  destruct (fetch_loop env _ 1 aids st0) as [st [e|]]; simpl in *; [done|].
  destruct (dp_quality params) as [q|].
  - destruct (_reencode_images _ _ _) as [images|e]; simpl; [|done].
    destruct (package_locks env task_work params aids
                (report (55 # 100) ("re-encode quality=" +:+ pretty q)
                   (report (5 # 10) "collect images" st))
                images (Some (path_join task_work "_reencoded")))
      as [-> ->].
    done.
  - destruct (package_locks env task_work params aids
                (report (5 # 10) "collect images" st)
                (select_images env (dl_images st) aids) None)
      as [-> ->].
    done.
Qed.

(** ** A request without album ids *)

Lemma package_members env task_work params aids st images src_root res a :
  run_outcome (package env task_work params aids st images src_root)
    = Ok (res, a) →
  artifact_members a =
    if decide (dp_output_format params = "zip") then
      match src_root with
      | Some _ => basename <$> images
      | None => stage_albums (env_exists env) (dl_images st) aids 1
      end
    else images.
Proof.
  unfold package. destruct (decide _); simpl.
  - by intros [= <- <-].
  - unfold _make_pdf. destruct (forallb _ _); [|done].
    destruct (env_img2pdf_error _ _); [done|]. by intros [= <- <-].
Qed.

(** X15. A request with an empty list of album ids fetches nothing and
    creates no lock, and still packages: the image list falls back to
    the scan of the shared download directory, so a document holds
    every image file found there, and so does an archive of re-encoded
    images; only the archive without re-encoding is empty. *)
Theorem empty_album_list_packages_the_directory (env : DownloadEnv)
    (task_work : string) (locks : gmap string nat) (params : DownloadParams)
    (res : DownloadResult) (a : Artifact) :
  dp_album_ids params = [] →
  let run := download_and_package env task_work locks params in
  let scanned := _collect_images (env_dl_base_files env) in
  run_outcome run = Ok (res, a) →
  run_fetched run = [] ∧ run_locks run = locks ∧
  length (artifact_members a) =
    (if decide (dp_output_format params = "zip" ∧ dp_quality params = None)
     then 0%nat else length scanned) ∧
  (dp_output_format params ≠ "zip" → dp_quality params = None →
   artifact_members a = scanned).
Proof.
  intros Hids. simpl. unfold download_and_package. rewrite Hids. simpl.
  unfold select_images. simpl.
  destruct (dp_quality params) as [q|]; simpl.
  - unfold _reencode_images. destruct (forallb _ _); [|done].
    set (images := imap _ _).
    assert (Hlen : length images = length (_collect_images (env_dl_base_files env))).
    { subst images. by rewrite length_imap. }
    intros Hrun.
    pose proof (package_members _ _ _ _ _ _ _ _ _ Hrun) as Hm.
    destruct (package_locks env task_work params []
                (report (55 # 100) ("re-encode quality=" +:+ pretty q)
                   (report (5 # 10) "collect images"
                      {| dl_reports := []; dl_albums := []; dl_images := ∅;
                         dl_locks := locks; dl_fetched := [] |}))
                images (Some (path_join task_work "_reencoded")))
      as [-> ->].
    simpl. split_and!; try done.
    rewrite Hm. destruct (decide (_ ∧ _)) as [[_ ?]|_]; [done|].
    destruct (decide _); [by rewrite length_fmap|done].
  - intros Hrun.
    pose proof (package_members _ _ _ _ _ _ _ _ _ Hrun) as Hm.
    destruct (package_locks env task_work params []
                (report (5 # 10) "collect images"
                   {| dl_reports := []; dl_albums := []; dl_images := ∅;
                      dl_locks := locks; dl_fetched := [] |})
                (_collect_images (env_dl_base_files env)) None)
      as [-> ->].
    simpl. split_and!; try done.
    + rewrite Hm. destruct (decide (dp_output_format params = "zip")).
      * by destruct (decide (_ ∧ _)) as [_|[]].
      * by destruct (decide (_ ∧ _)) as [[? _]|_].
    + intros Hfmt _. rewrite Hm. by rewrite decide_False.
Qed.

(** ** The order of the images of an album *)

Lemma key_leb_total (a b : bool * Z * string) :
  key_leb a b = false → key_leb b a = true.
Proof.
  destruct a as [[a1 a2] a3], b as [[b1 b2] b3]. unfold key_leb.
  destruct a1, b1; simpl; try done.
  all: destruct (Z.eqb_spec a2 b2) as [->|Hne]; simpl.
  all: try (rewrite Z.eqb_refl; simpl; intros H;
            destruct (String.leb_total a3 b3); congruence).
  all: destruct (Z.eqb_spec b2 a2) as [->|Hne']; simpl; [done|].
  all: rewrite !Z.ltb_lt, Z.ltb_ge; lia.
Qed.

Lemma key_leb_trans (a b c : bool * Z * string) :
  key_leb a b = true → key_leb b c = true → key_leb a c = true.
Proof.
  destruct a as [[a1 a2] a3], b as [[b1 b2] b3], c as [[c1 c2] c3].
  unfold key_leb.
  destruct a1, b1, c1; simpl; try done.
  all: destruct (Z.eqb_spec a2 b2) as [->|Hab]; simpl;
       destruct (Z.eqb_spec b2 c2) as [->|Hbc]; simpl;
       rewrite ?Z.eqb_refl; simpl; try done.
  all: try apply string_leb_trans.
  all: try (destruct (Z.eqb_spec a2 c2) as [->|Hac]; simpl; [done|by auto]).
  all: try (destruct (Z.eqb_spec b2 c2) as [->|Hbc']; simpl; [done|by auto]).
  all: rewrite !Z.ltb_lt; intros H1 H2;
       destruct (Z.eqb_spec a2 c2) as [->|Hac]; simpl; [lia|];
       rewrite Z.ltb_lt; lia.
Qed.

Lemma insert_item_Permutation x l : insert_item x l ≡ₚ x :: l.
Proof.
  induction l as [|y l IH]; [done|]. cbn [insert_item].
  destruct (key_leb (item_key x) (item_key y)); [reflexivity|].
  rewrite IH. apply Permutation_swap.
Qed.

Lemma insert_item_sorted x l :
  StronglySorted key_le l → StronglySorted key_le (insert_item x l).
Proof.
  induction l as [|y l IH]; intros Hl; cbn [insert_item].
  { repeat constructor. }
  apply StronglySorted_inv in Hl as [Hl Hy].
  destruct (key_leb (item_key x) (item_key y)) eqn:Hxy.
  - constructor; [by constructor|]. constructor; [done|].
    eapply Forall_impl; [exact Hy|]. intros z Hz.
    by eapply key_leb_trans.
  - constructor; [by apply IH|].
    rewrite insert_item_Permutation. constructor; [|done].
    by apply key_leb_total.
Qed.

Lemma sort_items_Permutation l : sort_items l ≡ₚ l.
Proof.
  induction l as [|x l IH]; [done|].
  unfold sort_items in *. cbn [foldr].
  by rewrite insert_item_Permutation, IH.
Qed.

Lemma sort_items_sorted l : StronglySorted key_le (sort_items l).
Proof.
  induction l as [|x l IH]; [constructor|].
  unfold sort_items in *. cbn [foldr]. by apply insert_item_sorted.
Qed.

Lemma key_le_page_order x y : key_le x y → page_order x y.
Proof.
  unfold key_le, page_order, item_key, key_leb.
  destruct (it_page x) as [p|], (it_page y) as [q|]; simpl; try done.
  destruct (Z.eqb_spec p q) as [->|Hne]; simpl; [lia|].
  rewrite Z.ltb_lt. lia.
Qed.

Lemma StronglySorted_lookup_lt {A} (R : relation A) (l : list A)
    (i j : nat) (x y : A) :
  StronglySorted R l → (i < j)%nat →
  l !! i = Some x → l !! j = Some y → R x y.
Proof.
  intros Hl. revert i j. induction Hl as [|a l Hl IH Ha]; intros i j Hij Hx Hy.
  { done. }
  destruct j as [|j]; [lia|]. destruct i as [|i]; simpl in *.
  - simplify_eq. rewrite Forall_forall in Ha. apply Ha.
    by eapply list_elem_of_lookup_2.
  - apply (IH i j); [lia|done|done].
Qed.

(** X16. The images of an album are packaged in the order of their
    sort key, none lost and none added: the list is a rearrangement of
    what the callbacks collected, it is sorted by
    [(page is None, page or 0, name)], and so an image with a page
    number never comes behind one without, and page numbers never go
    down. *)
Theorem items_are_packaged_in_page_order
    (images : gmap string (list ImageItem)) (aid : string) :
  items_of images aid ≡ₚ default [] (images !! aid) ∧
  StronglySorted key_le (items_of images aid) ∧
  ∀ i j x y, (i < j)%nat →
             items_of images aid !! i = Some x →
             items_of images aid !! j = Some y →
             page_order x y.
Proof.
  unfold items_of. split_and!.
  - apply sort_items_Permutation.
  - apply sort_items_sorted.
  - intros i j x y Hij Hx Hy. apply key_le_page_order.
    eapply (StronglySorted_lookup_lt key_le); eauto using sort_items_sorted.
Qed.
